(** * mt_metrics_eval.tasks: tasks, task sets and their results

    A shallow embedding of [mt_metrics_eval/tasks.py], followed by one of the
    merging functions of [segment_to_document_mtme.py].  Python objects become
    records, dicts whose order matters become association lists in insertion
    order, exceptions become the [Err] branch of a small result monad, and
    float arithmetic is idealised as exact arithmetic over [Q]. *)

From Stdlib Require Import ZArith QArith Qfield String Ascii DecimalString.
From stdpp Require Import base option list strings gmap sorting.

Local Open Scope string_scope.
Local Open Scope list_scope.
#[local] Set Warnings "-clear-no-such-hyp".

(** ** Exceptions and the result monad *)

Inductive exn :=
| AssertionError | KeyError | TypeError | ValueError
| ZeroDivisionError | AttributeError.

Inductive result (A : Type) :=
| Ok (a : A)
| Err (e : exn).
Arguments Ok {A} a.
Arguments Err {A} e.

Global Instance result_ret : MRet result := λ A a, Ok a.
Global Instance result_bind : MBind result := λ A B f m,
  match m with Ok a => f a | Err e => Err e end.
Global Instance result_fmap : FMap result := λ A B f m,
  match m with Ok a => Ok (f a) | Err e => Err e end.

(** [assert c] *)
Definition py_assert (c : bool) : result unit :=
  if c then Ok tt else Err AssertionError.

Definition is_Ok {A} (m : result A) : Prop := ∃ a, m = Ok a.
Definition is_Err {A} (m : result A) : Prop := ∃ e, m = Err e.

(** ** Python strings

    A [str] is modelled by a Rocq [string]; each character stands for the code
    point of the same number (code points below 256). *)

Definition ascii_eqb (a b : ascii) : bool := bool_decide (a = b).

(** [s.split(sep)] for a one-character separator: the first field and the
    list of the following ones.  The result is never empty. *)
Fixpoint split_go (sep : ascii) (s : string) : string * list string :=
  match s with
  | "" => ("", [])
  | String c s' =>
      let '(cur, rest) := split_go sep s' in
      if ascii_eqb c sep then ("", cur :: rest) else (String c cur, rest)
  end.

Definition py_split (sep : ascii) (s : string) : list string :=
  let '(cur, rest) := split_go sep s in cur :: rest.

(** [str.isspace] on the code points below 256. *)
Definition py_isspace (c : ascii) : bool :=
  match c with
  | "009" | "010" | "011" | "012" | "013"
  | "028" | "029" | "030" | "031" | " " | "133" | "160" => true
  | _ => false
  end%char.

Definition cons_word (w : string) (ws : list string) : list string :=
  if decide (w = "") then ws else w :: ws.

(** [s.split()]: the maximal runs of characters that are not whitespace. *)
Fixpoint words_go (s : string) : string * list string :=
  match s with
  | "" => ("", [])
  | String c s' =>
      let '(cur, rest) := words_go s' in
      if py_isspace c then ("", cons_word cur rest) else (String c cur, rest)
  end.

Definition py_words (s : string) : list string :=
  let '(cur, rest) := words_go s in cons_word cur rest.

(** [s.replace(' ', '')] *)
Fixpoint remove_spaces (s : string) : string :=
  match s with
  | "" => ""
  | String c s' =>
      if ascii_eqb c " "%char then remove_spaces s' else String c (remove_spaces s')
  end.

(** [sep.join(l)] *)
Definition py_join (sep : string) (l : list string) : string := String.concat sep l.

(** [c in s] for a character. *)
Fixpoint str_mem (c : ascii) (s : string) : bool :=
  match s with
  | "" => false
  | String d s' => ascii_eqb c d || str_mem c s'
  end.

(** [str(z)] for an [int]. *)
Definition string_of_Z (z : Z) : string := NilZero.string_of_int (Z.to_int z).

(** ** Python values *)

(** A [float]: not-a-number, or a number, idealised as a rational. *)
Inductive pyfloat :=
| FNaN
| FNum (q : Q).

(** [x == y] on floats: not-a-number differs from everything. *)
Definition float_eqb (x y : pyfloat) : bool :=
  match x, y with
  | FNum a, FNum b => Qeq_bool a b
  | _, _ => false
  end.

(** The values that the dynamically typed fields of a [Task] hold.  A [set]
    and a [dict] are carried in their iteration order. *)
Unset Elimination Schemes.
Inductive pyval :=
| PNone
| PBool (b : bool)
| PInt (z : Z)
| PFloat (f : pyfloat)
| PStr (s : string)
| PList (l : list pyval)
| PTuple (l : list pyval)
| PSet (l : list pyval)
| PDict (l : list (string * pyval)).
Set Elimination Schemes.

(** [len(v)] *)
Definition py_len (v : pyval) : result nat :=
  match v with
  | PStr s => Ok (String.length s)
  | PList l | PTuple l | PSet l => Ok (length l)
  | PDict l => Ok (length l)
  | _ => Err TypeError
  end.

Definition is_none (v : pyval) : bool :=
  match v with PNone => true | _ => false end.
Definition isinstance_str (v : pyval) : bool :=
  match v with PStr _ => true | _ => false end.
Definition isinstance_set (v : pyval) : bool :=
  match v with PSet _ => true | _ => false end.

Section Repr.
(** [repr] of a float and of a string are CPython's own algorithms (shortest
    round-tripping decimal; quoting and escaping); they are parameters. *)
Variable float_repr : pyfloat → string.
Variable str_repr : string → string.

(** [repr(v)] *)
Fixpoint py_repr (v : pyval) : string :=
  match v with
  | PNone => "None"
  | PBool true => "True"
  | PBool false => "False"
  | PInt z => string_of_Z z
  | PFloat f => float_repr f
  | PStr s => str_repr s
  | PList l => "[" +:+ py_join ", " (map py_repr l) +:+ "]"
  | PTuple l =>
      "(" +:+ py_join ", " (map py_repr l)
          +:+ (if decide (length l = 1%nat) then "," else "") +:+ ")"
  | PSet l =>
      match l with
      | [] => "set()"
      | _ => "{" +:+ py_join ", " (map py_repr l) +:+ "}"
      end
  | PDict l =>
      "{" +:+ py_join ", "
               (map (λ kv, str_repr (fst kv) +:+ ": " +:+ py_repr (snd kv)) l)
          +:+ "}"
  end.

(** [str(v)], which is what an f-string field formats with. *)
Definition py_str (v : pyval) : string :=
  match v with
  | PStr s => s
  | _ => py_repr v
  end.
End Repr.

(** ** Insertion-ordered dictionaries

    A Python [dict] keeps its keys in insertion order; assigning to a key that
    is already present keeps the key's position. *)

Module Dict.
Section Dict.
Context {V : Type}.

(** [d.get(k)] / [k in d] *)
Fixpoint get (k : string) (d : list (string * V)) : option V :=
  match d with
  | [] => None
  | (k', v) :: d' => if decide (k = k') then Some v else get k d'
  end.

(** [d[k] = v] *)
Fixpoint set (k : string) (v : V) (d : list (string * V)) : list (string * V) :=
  match d with
  | [] => [(k, v)]
  | (k', v') :: d' =>
      if decide (k = k') then (k, v) :: d' else (k', v') :: set k v d'
  end.

(** [d[k]], raising [KeyError] *)
Definition item (k : string) (d : list (string * V)) : result V :=
  match get k d with
  | Some v => Ok v
  | None => Err KeyError
  end.

(** [dict(l)] for a list of pairs *)
Definition of_list (l : list (string * V)) : list (string * V) :=
  fold_left (λ d kv, set (fst kv) (snd kv) d) l [].

Definition keys (d : list (string * V)) : list string := map fst d.
Definition values (d : list (string * V)) : list V := map snd d.
End Dict.
End Dict.

(** ** The meta-information table

    [meta_info.DATA] maps a test set to a map from language pairs to their
    [MetaInfo]; the module is not part of these sources, so the table is a
    parameter of everything that consults it. *)

Record MetaInfo := {
  std_gold : gmap string string;
  std_ref : string
}.

Definition lookupK {V} (m : gmap string V) (k : string) : result V :=
  match m !! k with
  | Some v => Ok v
  | None => Err KeyError
  end.

(** The keys of [CORRELATION_FUNCTIONS]. *)
Definition CORRELATION_FUNCTIONS : list string :=
  ["pearson"; "kendall"; "spearman"; "accuracy";
   "KendallLike"; "KendallVariants"; "KendallWithTiesOpt"].

(** [Attributes()]: the annotated fields of [Task], in declaration order. *)
Definition Attributes : list string :=
  ["test_set"; "lang"; "domain"; "level"; "human"; "avg_by"; "corr_fcn"; "k";
   "gold"; "refs"; "close_refs"; "use_outliers"; "primary"; "pval";
   "block_size"; "early_min"; "early_max"; "replace_nans_with_zeros";
   "perm_test"; "corr_fcn_args"].

(** [sorted(l)]: a stable sort, written as the insertion of each element in
    front of the sorted rest; an element goes past those strictly below it. *)
Section Sorted.
Context {A : Type} (R : relation A) `{!RelDecision R}.

Fixpoint sorted_insert (x : A) (l : list A) : list A :=
  match l with
  | [] => [x]
  | y :: l' => if decide (R x y) then x :: y :: l' else y :: sorted_insert x l'
  end.

Definition py_sorted (l : list A) : list A := foldr sorted_insert [] l.
End Sorted.

(** The order in which [sorted] puts the items of a [dict]: tuples compare by
    their first component, and two items of one dict never share a key. *)
Definition item_le (p q : string * pyval) : Prop := String.le (fst p) (fst q).

Global Instance item_le_dec : RelDecision item_le.
Proof. intros p q. unfold item_le. apply _. Defined.

(** [dict(sorted(d.items()))] *)
Definition sorted_items (d : list (string * pyval)) : list (string * pyval) :=
  Dict.of_list (py_sorted item_le d).

(** ** class Task *)

Module Task.

(** The dataclass.  [gold], [refs] and [close_refs] change shape with the
    mode and are checked at run time, so they are kept dynamically typed;
    the other fields carry their annotated types. *)
Record t := Build {
  test_set : string;
  lang : string;
  domain : option string;
  level : string;
  human : bool;
  avg_by : string;
  corr_fcn : string;
  k : Z;
  gold : pyval;
  refs : pyval;
  close_refs : pyval;
  use_outliers : bool;
  primary : bool;
  pval : pyfloat;
  block_size : Z;
  early_min : pyfloat;
  early_max : pyfloat;
  replace_nans_with_zeros : bool;
  perm_test : string;
  corr_fcn_args : option (list (string * pyval))
}.

(** The field defaults of the class body. *)
Definition defaults : t := {|
  test_set := "wmt22"; lang := "en-de"; domain := None; level := "sys";
  human := true; avg_by := "none"; corr_fcn := "pearson"; k := 1000;
  gold := PNone; refs := PNone; close_refs := PNone;
  use_outliers := false; primary := true; pval := FNum (5 # 100);
  block_size := 100; early_min := FNum (2 # 100); early_max := FNum (50 # 100);
  replace_nans_with_zeros := false; perm_test := "scores";
  corr_fcn_args := None
|}.

Definition set_gold (v : pyval) (x : t) : t :=
  Build (test_set x) (lang x) (domain x) (level x) (human x) (avg_by x)
    (corr_fcn x) (k x) v (refs x) (close_refs x) (use_outliers x)
    (primary x) (pval x) (block_size x) (early_min x) (early_max x)
    (replace_nans_with_zeros x) (perm_test x) (corr_fcn_args x).

Definition set_refs (v : pyval) (x : t) : t :=
  Build (test_set x) (lang x) (domain x) (level x) (human x) (avg_by x)
    (corr_fcn x) (k x) (gold x) v (close_refs x) (use_outliers x)
    (primary x) (pval x) (block_size x) (early_min x) (early_max x)
    (replace_nans_with_zeros x) (perm_test x) (corr_fcn_args x).

Definition set_close_refs (v : pyval) (x : t) : t :=
  Build (test_set x) (lang x) (domain x) (level x) (human x) (avg_by x)
    (corr_fcn x) (k x) (gold x) (refs x) v (use_outliers x)
    (primary x) (pval x) (block_size x) (early_min x) (early_max x)
    (replace_nans_with_zeros x) (perm_test x) (corr_fcn_args x).

Definition set_corr_fcn_args (v : option (list (string * pyval))) (x : t) : t :=
  Build (test_set x) (lang x) (domain x) (level x) (human x) (avg_by x)
    (corr_fcn x) (k x) (gold x) (refs x) (close_refs x) (use_outliers x)
    (primary x) (pval x) (block_size x) (early_min x) (early_max x)
    (replace_nans_with_zeros x) (perm_test x) v.

Definition opt_str (o : option string) : pyval :=
  match o with Some s => PStr s | None => PNone end.
Definition opt_dict (o : option (list (string * pyval))) : pyval :=
  match o with Some d => PDict d | None => PNone end.

(** The instance dictionary: every attribute with its value. *)
Definition fields (x : t) : list (string * pyval) :=
  [("test_set", PStr (test_set x)); ("lang", PStr (lang x));
   ("domain", opt_str (domain x)); ("level", PStr (level x));
   ("human", PBool (human x)); ("avg_by", PStr (avg_by x));
   ("corr_fcn", PStr (corr_fcn x)); ("k", PInt (k x));
   ("gold", gold x); ("refs", refs x); ("close_refs", close_refs x);
   ("use_outliers", PBool (use_outliers x)); ("primary", PBool (primary x));
   ("pval", PFloat (pval x)); ("block_size", PInt (block_size x));
   ("early_min", PFloat (early_min x)); ("early_max", PFloat (early_max x));
   ("replace_nans_with_zeros", PBool (replace_nans_with_zeros x));
   ("perm_test", PStr (perm_test x));
   ("corr_fcn_args", opt_dict (corr_fcn_args x))].

(** [getattr(self, attr)] *)
Definition getattr (x : t) (attr : string) : result pyval :=
  match Dict.get attr (fields x) with
  | Some v => Ok v
  | None => Err AttributeError
  end.

Section Naming.
Variable float_repr : pyfloat → string.
Variable str_repr : string → string.

(** [StrVal]: the attribute's [str], with the spaces taken out. *)
Definition StrVal (x : t) (attr : string) : result string :=
  v ← getattr x attr;
  Ok (remove_spaces (py_str float_repr str_repr v)).

(** [name]: single string attr=value representation. *)
Definition name (x : t) : result string :=
  avs ← mapM (λ a, sv ← StrVal x a; Ok (a +:+ "=" +:+ sv)) Attributes;
  Ok (py_join " " avs).
End Naming.

Section Construction.
Variable DATA : gmap string (gmap string MetaInfo).

Definition _StdGold (x : t) (lang level : string) : result string :=
  ds ← lookupK DATA (test_set x);
  mi ← lookupK ds lang;
  lookupK (std_gold mi) level.

Definition _StdRefs (x : t) (lang : string) : result pyval :=
  ds ← lookupK DATA (test_set x);
  mi ← lookupK ds lang;
  Ok (PSet [PStr (std_ref mi)]).

(** [assert len(v) == n] *)
Definition assert_len (v : pyval) (n : nat) : result unit :=
  m ← py_len v; py_assert (bool_decide (m = n)).

(** The accuracy branch of [__post_init__]: system-level accuracy over
    the language pairs of [sub_langs]. *)
Definition post_init_accuracy (x : t) (sub_langs : list string) : result t :=
  _ ← py_assert (bool_decide (level x = "sys"));
  _ ← mapM (λ sl, ds ← lookupK DATA (test_set x);
                  py_assert (bool_decide (is_Some (ds !! sl)))) sub_langs;
  g ← (if is_none (gold x)
       then PList <$> mapM (λ sl, PStr <$> _StdGold x sl (level x)) sub_langs
       else Ok (gold x));
  r ← (if is_none (refs x)
       then PList <$> mapM (λ sl, _StdRefs x sl) sub_langs
       else Ok (refs x));
  c ← (if is_none (close_refs x)
       then Ok (PList (map (λ _, PSet []) sub_langs))
       else Ok (close_refs x));
  _ ← assert_len g (length sub_langs);
  _ ← assert_len r (length sub_langs);
  _ ← assert_len c (length sub_langs);
  Ok (set_close_refs c (set_refs r (set_gold g x))).

(** The other branch: standard correlation over a single language pair. *)
Definition post_init_standard (x : t) (sub_langs : list string) : result t :=
  _ ← py_assert (bool_decide (length sub_langs = 1%nat));
  ds ← lookupK DATA (test_set x);
  _ ← py_assert (bool_decide (is_Some (ds !! lang x)));
  mi ← lookupK ds (lang x);
  _ ← py_assert (bool_decide (is_Some (std_gold mi !! level x)));
  g ← (if is_none (gold x) then PStr <$> _StdGold x (lang x) (level x)
       else Ok (gold x));
  r ← (if is_none (refs x) then _StdRefs x (lang x) else Ok (refs x));
  c ← (if is_none (close_refs x) then Ok (PSet []) else Ok (close_refs x));
  _ ← py_assert (isinstance_str g);
  _ ← py_assert (isinstance_set r);
  _ ← py_assert (isinstance_set c);
  Ok (set_close_refs c (set_refs r (set_gold g x))).

(** Reading a keyword argument into its field.  The dataclass checks no
    types; the record of this development is typed, so a keyword whose value
    is outside the annotated type of its field has no image in it, and the
    call is cut off with an error of the development's own.  Statements
    about [init] speak of values of the annotated types only. *)
Definition kw_str (kw : list (string * pyval)) (a d : string) : result string :=
  match Dict.get a kw with
  | None => Ok d
  | Some (PStr s) => Ok s
  | Some _ => Err TypeError
  end.
Definition kw_opt_str (kw : list (string * pyval)) (a : string)
    (d : option string) : result (option string) :=
  match Dict.get a kw with
  | None => Ok d
  | Some PNone => Ok None
  | Some (PStr s) => Ok (Some s)
  | Some _ => Err TypeError
  end.
Definition kw_bool (kw : list (string * pyval)) (a : string) (d : bool) : result bool :=
  match Dict.get a kw with
  | None => Ok d
  | Some (PBool b) => Ok b
  | Some _ => Err TypeError
  end.
Definition kw_int (kw : list (string * pyval)) (a : string) (d : Z) : result Z :=
  match Dict.get a kw with
  | None => Ok d
  | Some (PInt z) => Ok z
  | Some _ => Err TypeError
  end.
Definition kw_float (kw : list (string * pyval)) (a : string)
    (d : pyfloat) : result pyfloat :=
  match Dict.get a kw with
  | None => Ok d
  | Some (PFloat f) => Ok f
  | Some _ => Err TypeError
  end.
Definition kw_any (kw : list (string * pyval)) (a : string) (d : pyval) : pyval :=
  match Dict.get a kw with
  | None => d
  | Some v => v
  end.
Definition kw_opt_dict (kw : list (string * pyval)) (a : string)
    (d : option (list (string * pyval))) : result (option (list (string * pyval))) :=
  match Dict.get a kw with
  | None => Ok d
  | Some PNone => Ok None
  | Some (PDict l) => Ok (Some l)
  | Some _ => Err TypeError
  end.

(** [__post_init__]: check and fill in some default values. *)
Definition post_init (x : t) : result t :=
  _ ← py_assert (bool_decide (is_Some (DATA !! test_set x)));
  _ ← py_assert (bool_decide (corr_fcn x ∈ CORRELATION_FUNCTIONS));
  let sub_langs := py_split "," (lang x) in
  y ← (if decide (corr_fcn x = "accuracy")
       then post_init_accuracy x sub_langs
       else post_init_standard x sub_langs);
  let args := default [] (corr_fcn_args y) in
  Ok (set_corr_fcn_args (Some (sorted_items args)) y).

(** The call of [Task] with keyword arguments: the generated [__init__]
    takes the fields by keyword, with the class defaults for those left out,
    and ends in [__post_init__].  An unknown keyword is a [TypeError]. *)
Definition init (kwargs : list (string * pyval)) : result t :=
  _ ← (if bool_decide (Forall (λ a, a ∈ Attributes) (Dict.keys kwargs))
       then Ok tt else Err TypeError);
  a1 ← kw_str kwargs "test_set" (test_set defaults);
  a2 ← kw_str kwargs "lang" (lang defaults);
  a3 ← kw_opt_str kwargs "domain" (domain defaults);
  a4 ← kw_str kwargs "level" (level defaults);
  a5 ← kw_bool kwargs "human" (human defaults);
  a6 ← kw_str kwargs "avg_by" (avg_by defaults);
  a7 ← kw_str kwargs "corr_fcn" (corr_fcn defaults);
  a8 ← kw_int kwargs "k" (k defaults);
  let a9 := kw_any kwargs "gold" (gold defaults) in
  let a10 := kw_any kwargs "refs" (refs defaults) in
  let a11 := kw_any kwargs "close_refs" (close_refs defaults) in
  a12 ← kw_bool kwargs "use_outliers" (use_outliers defaults);
  a13 ← kw_bool kwargs "primary" (primary defaults);
  a14 ← kw_float kwargs "pval" (pval defaults);
  a15 ← kw_int kwargs "block_size" (block_size defaults);
  a16 ← kw_float kwargs "early_min" (early_min defaults);
  a17 ← kw_float kwargs "early_max" (early_max defaults);
  a18 ← kw_bool kwargs "replace_nans_with_zeros" (replace_nans_with_zeros defaults);
  a19 ← kw_str kwargs "perm_test" (perm_test defaults);
  a20 ← kw_opt_dict kwargs "corr_fcn_args" (corr_fcn_args defaults);
  post_init (Build a1 a2 a3 a4 a5 a6 a7 a8 a9 a10 a11 a12 a13 a14 a15 a16
                   a17 a18 a19 a20).

(** The call of [Task] with the keywords of [comb] followed by those of
    [attrs]: a keyword given twice is a [TypeError]. *)
Definition init2 (comb attrs : list (string * pyval)) : result t :=
  if bool_decide (Forall (λ a, a ∉ Dict.keys attrs) (Dict.keys comb))
  then init (comb ++ attrs)
  else Err TypeError.
End Construction.
End Task.

(** ** JSON documents and arrays

    [json.dump] and [json.load] meet in the document that the file holds: a
    tuple and a list are both written as an array, and an array is read back
    as a list. *)

Unset Elimination Schemes.
Inductive json :=
| JNull
| JBool (b : bool)
| JInt (z : Z)
| JFloat (f : pyfloat)
| JStr (s : string)
| JArr (l : list json)
| JObj (l : list (string * json)).
Set Elimination Schemes.

(** A numpy array of floats: its shape and its elements in row-major order. *)
Record ndarray := NdArray {
  shape : list nat;
  flat : list pyfloat
}.

(** [n] consecutive blocks of [size] elements. *)
Fixpoint chunks {A} (n size : nat) (l : list A) : list (list A) :=
  match n with
  | O => []
  | S n' => take size l :: chunks n' size (drop size l)
  end.

Definition dims_size (sh : list nat) : nat := foldr Nat.mul 1%nat sh.

(** [a.tolist()]: nested lists, one level per axis. *)
Fixpoint tolist (sh : list nat) (fl : list pyfloat) : json :=
  match sh with
  | [] => match fl with x :: _ => JFloat x | [] => JNull end
  | n :: sh' => JArr (map (tolist sh') (chunks n (dims_size sh') fl))
  end.

(** [np.asarray(doc)] on nested lists of numbers; lists of unequal shapes
    do not make an array of numbers. *)
Fixpoint asarray (j : json) : result ndarray :=
  match j with
  | JFloat f => Ok (NdArray [] [f])
  | JInt z => Ok (NdArray [] [FNum (inject_Z z)])
  | JArr l =>
      subs ← mapM asarray l;
      match subs with
      | [] => Ok (NdArray [0%nat] [])
      | a :: rest =>
          if forallb (λ b, bool_decide (shape b = shape a)) rest
          then Ok (NdArray (length subs :: shape a) (concat (map flat subs)))
          else Err ValueError
      end
  | _ => Err TypeError
  end.

Fixpoint forallb2 {A} (f : A → A → bool) (l1 l2 : list A) : bool :=
  match l1, l2 with
  | [], [] => true
  | x :: l1', y :: l2' => f x y && forallb2 f l1' l2'
  | _, _ => false
  end.

(** [np.array_equal(a, b)]: same shape and equal elements. *)
Definition array_equal (a b : ndarray) : bool :=
  bool_decide (shape a = shape b) && forallb2 float_eqb (flat a) (flat b).

(** ** class TaskResults *)

Module TaskResults.

(** An entry of [corr_ranks] is a pair (correlation, rank); Python tells a
    pair held in a tuple from one held in a list. *)
Inductive seq_kind := KTuple | KList.

Global Instance seq_kind_eq_dec : EqDecision seq_kind.
Proof. solve_decision. Defined.

Record entry := Entry {
  kind : seq_kind;
  corr : pyfloat;
  rank : Z
}.

Record t := Build {
  name : string;
  pval : pyfloat;
  corr_ranks : list (string * entry);
  matrix : ndarray
}.

(** The results that [TaskResults] builds without a task; their threshold is
    the integer 0, carried here as the float of the same value. *)
Definition empty : t := Build "" (FNum 0) [] (NdArray [0%nat] []).

(** [TaskResults(task, compare_metrics_results)] *)
Definition init (float_repr : pyfloat → string) (str_repr : string → string)
    (task : option Task.t) (res : list (string * entry) * ndarray) : result t :=
  match task with
  | None => Ok empty
  | Some x =>
      n ← Task.name float_repr str_repr x;
      Ok (Build n (Task.pval x) (fst res) (snd res))
  end.

(** Equality of two (correlation, rank) sequences of distinct objects. *)
Definition entry_eqb (e1 e2 : entry) : bool :=
  bool_decide (kind e1 = kind e2) && float_eqb (corr e1) (corr e2)
  && bool_decide (rank e1 = rank e2).

(** [d1 == d2] on dicts: the same keys, with equal values. *)
Definition dict_eqb (d1 d2 : list (string * entry)) : bool :=
  bool_decide (length d1 = length d2)
  && forallb (λ kv, match Dict.get (fst kv) d2 with
                    | Some v => entry_eqb (snd kv) v
                    | None => false
                    end) d1.

(** [__eq__] *)
Definition eqb (x y : t) : bool :=
  bool_decide (name x = name y) && float_eqb (pval x) (pval y)
  && dict_eqb (corr_ranks x) (corr_ranks y)
  && array_equal (matrix x) (matrix y).

(** [av.split('=')] as a key and a value for [dict]. *)
Definition attr_val (av : string) : result (string * string) :=
  match py_split "=" av with
  | [a; v] => Ok (a, v)
  | _ => Err ValueError
  end.

(** [attr_vals]: attr:val representation of task. *)
Definition attr_vals (x : t) : result (list (string * string)) :=
  pairs ← mapM attr_val (py_words (name x));
  Ok (Dict.of_list pairs).

(** [metrics]: metrics in descending order by correlation. *)
Definition metrics (x : t) : list string := Dict.keys (corr_ranks x).

(** [Corr] and [Rank] for a metric given by name. *)
Definition Corr (x : t) (metric : string) : result pyfloat :=
  corr <$> Dict.item metric (corr_ranks x).
Definition Rank (x : t) (metric : string) : result Z :=
  rank <$> Dict.item metric (corr_ranks x).

Definition entry_json (e : entry) : json :=
  JArr [JFloat (corr e); JInt (rank e)].

(** [Write]: the document that [json.dump] leaves in the file. *)
Definition Write (x : t) : json :=
  JArr [JStr (name x); JFloat (pval x);
        JObj (map (λ kv, (fst kv, entry_json (snd kv))) (corr_ranks x));
        tolist (shape (matrix x)) (flat (matrix x))].

Definition read_str (j : json) : result string :=
  match j with JStr s => Ok s | _ => Err TypeError end.
Definition read_float (j : json) : result pyfloat :=
  match j with
  | JFloat f => Ok f
  | JInt z => Ok (FNum (inject_Z z))
  | _ => Err TypeError
  end.
Definition read_int (j : json) : result Z :=
  match j with JInt z => Ok z | _ => Err TypeError end.
Definition read_entry (j : json) : result entry :=
  match j with
  | JArr [c; r] => c' ← read_float c; r' ← read_int r; Ok (Entry KList c' r')
  | _ => Err TypeError
  end.
Definition read_corr_ranks (j : json) : result (list (string * entry)) :=
  match j with
  | JObj l => mapM (λ kv, e ← read_entry (snd kv); Ok (fst kv, e)) l
  | _ => Err TypeError
  end.

(** [Read]: the fields are taken from the four elements of the document;
    the results read are typed, so a document of another shape is refused. *)
Definition Read (doc : json) : result t :=
  match doc with
  | JArr [n; p; c; m] =>
      n' ← read_str n;
      p' ← read_float p;
      c' ← read_corr_ranks c;
      m' ← asarray m;
      Ok (Build n' p' c' m')
  | _ => Err ValueError
  end.
End TaskResults.

(** A loop whose body may raise. *)
Fixpoint foldlM {A B} (f : B → A → result B) (l : list A) (b : B) : result B :=
  match l with
  | [] => Ok b
  | x :: l' => b' ← f b x; foldlM f l' b'
  end.

(** ** class TaskSet *)

Module TaskSet.

(** [itertools.product] of the lists: the rightmost list advances fastest. *)
Fixpoint product {A} (ls : list (list A)) : list (list A) :=
  match ls with
  | [] => [[]]
  | l :: ls' => x ← l; (λ ys, x :: ys) <$> product ls'
  end.

(** The tasks of the set; the evaluation-set cache starts empty and is only
    filled by [Run]. *)
Record t := Build { tasks : list Task.t }.

(** [dict(zip(attr_combs.keys(), vals))] *)
Definition comb (attr_combs : list (string * list pyval)) (vals : list pyval)
    : list (string * pyval) :=
  Dict.of_list (zip (Dict.keys attr_combs) vals).

(** [__init__]: construct with given attribute/value combinations. *)
Definition init (DATA : gmap string (gmap string MetaInfo))
    (attr_combs : option (list (string * list pyval)))
    (attrs : list (string * pyval)) : result t :=
  match attr_combs with
  | None | Some [] => Ok (Build [])
  | Some combs =>
      Build <$> mapM (λ vals, Task.init2 DATA (comb combs vals) attrs)
                     (product (Dict.values combs))
  end.

(** [__len__] *)
Definition len (x : t) : nat := length (tasks x).

(** [__add__]: combine task sets; any duplicate tasks will get repeated. *)
Definition add (x y : t) : t := Build (tasks x ++ tasks y).
End TaskSet.

(** ** class TaskSetResults *)

(** The order of [sorted(ranks.items(), key=lambda x: x[1])]. *)
Definition rank_le (p q : string * Q) : Prop := Qle (snd p) (snd q).

Global Instance rank_le_dec : RelDecision rank_le.
Proof.
  intros p q. unfold rank_le.
  destruct (Qlt_le_dec (snd q) (snd p)) as [H|H].
  - right. by apply Qlt_not_le.
  - by left.
Defined.

(** [sum(l)] *)
Definition Qsum (l : list Q) : Q := fold_left Qplus l 0%Q.

Definition Qnat (n : nat) : Q := inject_Z (Z.of_nat n).

Module TaskSetResults.

(** [SplitByAttr]: partition into subsets by values of an attribute. *)
Definition SplitByAttr (attr : string) (results : list TaskResults.t)
    : result (list (string * list TaskResults.t)) :=
  foldlM (λ subsets r,
            av ← TaskResults.attr_vals r;
            val ← Dict.item attr av;
            let subset := default [] (Dict.get val subsets) in
            Ok (Dict.set val (subset ++ [r]) subsets))
         results [].

(** [AssignWeights]: evenly distribute [total_wt] across the values of the
    first attribute, then recurse; with no attribute left all remaining
    tasks are equally weighted. *)
Fixpoint AssignWeights (attrs : list string) (total_wt : Q)
    (results : list TaskResults.t) : result (list Q) :=
  match attrs with
  | [] =>
      if decide (length results = 0%nat) then Err ZeroDivisionError
      else Ok (replicate (length results) (total_wt / Qnat (length results))%Q)
  | a :: attrs' =>
      let weights := Dict.of_list (map (λ r, (TaskResults.name r, 0%Q)) results) in
      subsets ← SplitByAttr a results;
      weights' ←
        foldlM (λ weights subset,
                  subweights ← AssignWeights attrs'
                                 (total_wt / Qnat (length subsets))%Q subset;
                  Ok (fold_left (λ w rw, Dict.set (TaskResults.name (fst rw)) (snd rw) w)
                                (zip subset subweights) weights))
               (Dict.values subsets) weights;
      Ok (Dict.values weights')
  end.

(** The ranks gathered for each metric over the results paired with their
    weights. *)
Definition gather_ranks (results : list TaskResults.t) (weights : list Q)
    : result (list (string * list Q)) :=
  foldlM (λ ranks rw,
            foldlM (λ ranks metric,
                      rk ← TaskResults.Rank (fst rw) metric;
                      let l := default [] (Dict.get metric ranks) in
                      Ok (Dict.set metric (l ++ [(inject_Z rk * snd rw)%Q]) ranks))
                   (TaskResults.metrics (fst rw)) ranks)
         (zip results weights) [].

(** [AverageRanks]: sorted average weighted rank of metrics available in
    all tasks. *)
Definition AverageRanks (weights : option (list Q))
    (results : list TaskResults.t) : result (list (string * Q)) :=
  ws ← match weights with
       | None =>
           if decide (length results = 0%nat) then Err ZeroDivisionError
           else Ok (replicate (length results) (1 / Qnat (length results))%Q)
       | Some ws => Ok ws
       end;
  ranks ← gather_ranks results ws;
  let sums := omap (λ ml, if decide (length (snd ml) = length results)
                          then Some (fst ml, Qsum (snd ml)) else None) ranks in
  Ok (Dict.of_list (py_sorted rank_le sums)).

(** [__add__] *)
Definition add (x y : list TaskResults.t) : list TaskResults.t := x ++ y.
End TaskSetResults.

(** ** Sample parameters for the examples

    A small meta-information table, and stand-ins for [repr] that agree with
    CPython on plain strings and on short decimals. *)

Definition sample_info : MetaInfo :=
  {| std_gold := {[ "sys" := "mqm"; "seg" := "mqm" ]}; std_ref := "refA" |}.

Definition sample_DATA : gmap string (gmap string MetaInfo) :=
  {[ "wmt22" := {[ "en-de" := sample_info; "zh-en" := sample_info ]} ]}.

Definition sample_str_repr (s : string) : string := "'" +:+ s +:+ "'".

Fixpoint decimal_digits (fuel : nat) (r d : Z) : string :=
  match fuel with
  | O => ""
  | S fuel' =>
      string_of_Z (r * 10 / d) +:+
      (if decide ((r * 10) mod d = 0)%Z then ""
       else decimal_digits fuel' ((r * 10) mod d)%Z d)
  end.

Definition sample_float_repr (f : pyfloat) : string :=
  match f with
  | FNaN => "nan"
  | FNum q =>
      let n := Z.abs (Qnum q) in
      let d := Z.pos (Qden q) in
      (if decide (Qnum q < 0)%Z then "-" else "")
        +:+ string_of_Z (n / d) +:+ "." +:+ decimal_digits 17 (n mod d)%Z d
  end.

(** A task as the keyword constructor leaves it before [__post_init__]: the
    class defaults, with the given language field, correlation function,
    level and domain. *)
Definition sample_task (lang corr_fcn level : string) (domain : option string) : Task.t :=
  Task.Build "wmt22" lang domain level true "none" corr_fcn 1000 PNone PNone PNone
    false true (FNum (5 # 100)) 100 (FNum (2 # 100)) (FNum (50 # 100)) false
    "scores" None.

(** The same task with correlation-function arguments. *)
Definition sample_task_args (args : list (string * pyval)) : Task.t :=
  Task.set_corr_fcn_args (Some args) (sample_task "en-de" "KendallLike" "sys" None).

(** The default task as [__post_init__] completes it. *)
Definition sample_built : Task.t :=
  Task.set_corr_fcn_args (Some [])
    (Task.set_close_refs (PSet [])
       (Task.set_refs (PSet [PStr "refA"])
          (Task.set_gold (PStr "mqm") (sample_task "en-de" "pearson" "sys" None)))).

(** A domain that holds a tab character. *)
Definition tab_domain : string := "news" +:+ String "009" "2".

(** Results under a given name, with the ranks of their metrics. *)
Definition sample_result (n : string) (ranks : list (string * Z)) : TaskResults.t :=
  TaskResults.Build n (FNum (5 # 100))
    (map (λ mr, (fst mr, TaskResults.Entry TaskResults.KList (FNum 0) (snd mr))) ranks)
    (NdArray [0%nat] []).

Definition sample_r1 : TaskResults.t :=
  sample_result "test_set=wmt22 lang=en-de level=sys" [("metricA", 1%Z); ("metricB", 2%Z)].
Definition sample_r2 : TaskResults.t :=
  sample_result "test_set=wmt22 lang=de-en level=sys" [("metricB", 1%Z); ("metricA", 3%Z)].
Definition sample_r3 : TaskResults.t :=
  sample_result "test_set=wmt22 lang=en-de level=seg" [("metricA", 2%Z); ("metricC", 1%Z)].

(** ** Vocabulary of the statements *)

(** Every character of [s] satisfies [p]. *)
Fixpoint str_forallb (p : ascii → bool) (s : string) : bool :=
  match s with
  | "" => true
  | String c s' => p c && str_forallb p s'
  end.

(** [s] holds no whitespace character. *)
Definition no_space (s : string) : bool := str_forallb (λ c, negb (py_isspace c)) s.

(** [s] holds no equals sign. *)
Definition no_equals (s : string) : bool := negb (str_mem "=" s).

Global Instance exn_eq_dec : EqDecision exn.
Proof. solve_decision. Defined.

Global Instance result_eq_dec {A} `{!EqDecision A} : EqDecision (result A).
Proof. solve_decision. Defined.

(** The elements of a list in the order of their first occurrence. *)
Fixpoint nub (l : list string) : list string :=
  match l with
  | [] => []
  | x :: l' => x :: filter (λ y, y ≠ x) (nub l')
  end.

(** The values paired with the key [v], in order. *)
Definition sel {R} (v : string) (vrs : list (string * R)) : list R :=
  map snd (filter (λ vr, fst vr = v) vrs).

(** One step of the loops that build a dictionary of lists: the value is
    appended to the list of its key, a new key entering last. *)
Definition group_step {R} (subsets : list (string * list R)) (vr : string * R)
    : list (string * list R) :=
  Dict.set (fst vr) (default [] (Dict.get (fst vr) subsets) ++ [snd vr]) subsets.

(** The dictionary of lists that these loops end with. *)
Definition grouped {R} (vrs : list (string * R)) : list (string * list R) :=
  map (λ v, (v, sel v vrs)) (nub (map fst vrs)).

(** The value that a result's name gives to an attribute. *)
Definition attr_of (attr : string) (r : TaskResults.t) : result string :=
  av ← TaskResults.attr_vals r; Dict.item attr av.

(** The values of an attribute over a list of results. *)
Definition attr_values (attr : string) (rs : list TaskResults.t) : list string :=
  omap (λ r, match attr_of attr r with Ok v => Some v | Err _ => None end) rs.

(** The results that agree with [r] on an attribute. *)
Definition same_attr (attr : string) (r : TaskResults.t)
    (rs : list TaskResults.t) : list TaskResults.t :=
  filter (λ r', attr_of attr r' = attr_of attr r) rs.

(** The weight of one result, read off the hierarchy: at each attribute the
    budget is divided by the number of values the attribute takes among the
    results still grouped with [r], and at the leaf by their number. *)
Fixpoint leaf_weight (attrs : list string) (total_wt : Q)
    (rs : list TaskResults.t) (r : TaskResults.t) : Q :=
  match attrs with
  | [] => (total_wt / Qnat (length rs))%Q
  | a :: attrs' =>
      leaf_weight attrs' (total_wt / Qnat (length (nub (attr_values a rs))))%Q
                  (same_attr a r rs) r
  end.

(** The weight recorded under each name after one more assignment. *)
Definition assign_step (w : TaskResults.t → Q) (f : string → Q)
    (r : TaskResults.t) : string → Q :=
  λ n, if decide (n = TaskResults.name r) then w r else f n.

(** The weights that [AverageRanks] uses when none are supplied. *)
Definition uniform_weights (n : nat) : list Q := replicate n (1 / Qnat n)%Q.

(** What one result, with its weight, appends to the ranks of each of its
    metrics. *)
Definition rank_entries (rw : TaskResults.t * Q) : list (string * Q) :=
  map (λ me, (fst me, (inject_Z (TaskResults.rank (snd me)) * snd rw)%Q))
      (TaskResults.corr_ranks (fst rw)).

(** What one result, with its weight, appends to the ranks of the metric [m]. *)
Definition contribution (m : string) (rw : TaskResults.t * Q) : list Q :=
  match Dict.get m (TaskResults.corr_ranks (fst rw)) with
  | Some e => [(inject_Z (TaskResults.rank e) * snd rw)%Q]
  | None => []
  end.

(** Only the last axis of a shape may have length zero: nested lists do not
    record the lengths of the axes below an empty one. *)
Fixpoint shape_ok (sh : list nat) : bool :=
  match sh with
  | [] => true
  | n :: sh' =>
      match sh' with
      | [] => true
      | _ => negb (Nat.eqb n 0) && shape_ok sh'
      end
  end.

(** The array holds as many elements as its shape says. *)
Definition array_wf (a : ndarray) : Prop := length (flat a) = dims_size (shape a).

(** A float that is a number. *)
Definition is_number (f : pyfloat) : Prop := f ≠ FNaN.

(** The entry as [json.load] gives it back: in a list. *)
Definition as_list (e : TaskResults.entry) : TaskResults.entry :=
  TaskResults.Entry TaskResults.KList (TaskResults.corr e) (TaskResults.rank e).

(** Results with one tuple entry and a one-by-one matrix. *)
Definition sample_tuple_result : TaskResults.t :=
  TaskResults.Build "test_set=wmt22 lang=en-de" (FNum (5 # 100))
    [("metricA", TaskResults.Entry TaskResults.KTuple (FNum (1 # 2)) 1%Z)]
    (NdArray [1%nat; 1%nat] [FNum 0]).

(** Results with list entries and a two-by-two matrix. *)
Definition sample_list_result : TaskResults.t :=
  TaskResults.Build "test_set=wmt22 lang=en-de" (FNum (5 # 100))
    [("metricA", TaskResults.Entry TaskResults.KList (FNum (1 # 2)) 1%Z);
     ("metricB", TaskResults.Entry TaskResults.KList (FNum (1 # 4)) 2%Z)]
    (NdArray [2%nat; 2%nat] [FNum 0; FNum (1 # 100); FNum 0; FNum 0]).

(** ** Access by name or by index

    [Corr], [Rank] and [Sig] take a metric by its name or by its index in
    [metrics]; indexing adds one exception to those above. *)

Inductive pyexn :=
| Exn (e : exn)
| IndexError.

Inductive outcome (A : Type) :=
| Done (a : A)
| Raise (e : pyexn).
Arguments Done {A} a.
Arguments Raise {A} e.

Global Instance outcome_ret : MRet outcome := λ A a, Done a.
Global Instance outcome_bind : MBind outcome := λ A B f m,
  match m with Done a => f a | Raise e => Raise e end.
Global Instance outcome_fmap : FMap outcome := λ A B f m,
  match m with Done a => Done (f a) | Raise e => Raise e end.

Definition lift {A} (m : result A) : outcome A :=
  match m with
  | Ok a => Done a
  | Err e => Raise (Exn e)
  end.

(** The position that an int index denotes in a sequence of [n] elements: a
    negative index counts from the end. *)
Definition py_wrap (i : Z) (n : nat) : outcome nat :=
  let j := if (i <? 0)%Z then (i + Z.of_nat n)%Z else i in
  if ((0 <=? j)%Z && (j <? Z.of_nat n)%Z) then Done (Z.to_nat j) else Raise IndexError.

(** [l[i]] *)
Definition py_getitem {A} (l : list A) (i : Z) : outcome A :=
  j ← py_wrap i (length l);
  match l !! j with
  | Some x => Done x
  | None => Raise IndexError
  end.

(** [l.index(x)] *)
Fixpoint py_list_index (x : string) (l : list string) : result nat :=
  match l with
  | [] => Err ValueError
  | y :: l' => if decide (x = y) then Ok 0%nat else S <$> py_list_index x l'
  end.

(** [x < y] on floats: false when either is not a number. *)
Definition float_ltb (x y : pyfloat) : bool :=
  match x, y with
  | FNum a, FNum b => negb (Qle_bool b a)
  | _, _ => false
  end.

(** [a[i, j]]: the part of the array under the first two axes. *)
Definition index2 (a : ndarray) (i j : Z) : outcome ndarray :=
  match shape a with
  | r :: c :: rest =>
      i' ← py_wrap i r;
      j' ← py_wrap j c;
      let sz := dims_size rest in
      Done (NdArray rest (take sz (drop ((i' * c + j') * sz) (flat a))))
  | _ => Raise IndexError
  end.

Module Lookup.

(** A metric, by name or by index. *)
Inductive metric_ref :=
| ByName (s : string)
| ByIndex (i : Z).

(** [if isinstance(metric, int): metric = self.metrics[metric]] *)
Definition to_name (x : TaskResults.t) (metric : metric_ref) : outcome string :=
  match metric with
  | ByName s => Done s
  | ByIndex i => py_getitem (TaskResults.metrics x) i
  end.

(** [if isinstance(m, str): m = self.metrics.index(m)] *)
Definition to_index (x : TaskResults.t) (m : metric_ref) : outcome Z :=
  match m with
  | ByName s => Z.of_nat <$> lift (py_list_index s (TaskResults.metrics x))
  | ByIndex i => Done i
  end.

(** [Corr]: correlation for metric (by name or index). *)
Definition Corr (x : TaskResults.t) (metric : metric_ref) : outcome pyfloat :=
  name ← to_name x metric;
  lift (TaskResults.Corr x name).

(** [Rank]: cluster rank for metric (by name or index). *)
Definition Rank (x : TaskResults.t) (metric : metric_ref) : outcome Z :=
  name ← to_name x metric;
  lift (TaskResults.Rank x name).

(** [Sig]: Corr(m1) - Corr(m2) is significant.  The comparison with the
    threshold is made on every element under [matrix[m1, m2]]: one element,
    and an empty shape, for a matrix of two axes. *)
Definition Sig (x : TaskResults.t) (m1 m2 : metric_ref)
    : outcome (list nat * list bool) :=
  i ← to_index x m1;
  j ← to_index x m2;
  sub ← index2 (TaskResults.matrix x) i j;
  Done (shape sub, map (λ p, float_ltb p (TaskResults.pval x)) (flat sub)).
End Lookup.

(** ** segment_to_document_mtme: merging segments into documents

    The documents file names, for each segment, a domain and a document
    separated by a tab; the segments of a document are joined by newlines. *)

(** A loop whose body may raise an index error as well. *)
Fixpoint foldlO {A B} (f : B → A → outcome B) (l : list A) (b : B) : outcome B :=
  match l with
  | [] => Done b
  | x :: l' => b' ← f b x; foldlO f l' b'
  end.

(** [enumerate(l)] *)
Definition enumerate {A} (l : list A) : list (nat * A) := zip (seq 0 (length l)) l.

(** [s.lstrip()], [s.rstrip()] and [s.strip()] *)
Fixpoint py_lstrip (s : string) : string :=
  match s with
  | "" => ""
  | String c s' => if py_isspace c then py_lstrip s' else s
  end.

Fixpoint py_rstrip (s : string) : string :=
  match s with
  | "" => ""
  | String c s' =>
      match py_rstrip s' with
      | "" => if py_isspace c then "" else String c ""
      | r => String c r
      end
  end.

Definition py_strip (s : string) : string := py_rstrip (py_lstrip s).

(** [x + y] on floats *)
Definition float_add (x y : pyfloat) : pyfloat :=
  match x, y with
  | FNum a, FNum b => FNum (a + b)
  | _, _ => FNaN
  end.

(** A segment score: a float, or the string None. *)
Inductive score :=
| SNone
| SNum (f : pyfloat).

(** [sum(l)] from the running total [acc]: adding the string None to a
    number is a type error. *)
Fixpoint py_sum (acc : pyfloat) (l : list score) : result pyfloat :=
  match l with
  | [] => Ok acc
  | SNone :: _ => Err TypeError
  | SNum f :: l' => py_sum (float_add acc f) l'
  end.

(** The loop that asserts each score to be None and leaves at the first
    that is not: whether it left. *)
Fixpoint has_number (l : list score) : bool :=
  match l with
  | [] => false
  | SNone :: l' => has_number l'
  | SNum _ :: _ => true
  end.

(** [d[k1][k2] = v] on a dictionary whose missing entries start empty. *)
Definition set2 {V} (k1 k2 : string) (v : V) (d : list (string * list (string * V)))
    : list (string * list (string * V)) :=
  Dict.set k1 (Dict.set k2 v (default [] (Dict.get k1 d))) d.


Module SegmentToDocument.

Definition tab : ascii := "009".
Definition newline : ascii := "010".

(** [domain, doc_id = line.split('\t')] followed by the f-string that joins
    the two: unpacking anything but two pieces raises. *)
Definition full_doc_id (line : string) : result string :=
  match py_split tab line with
  | [domain; doc_id] => Ok (domain +:+ "__" +:+ doc_id)
  | _ => Err ValueError
  end.

(** [build_segment_to_doc_map]: the segments of each document, and the
    document of each segment. *)
Definition build_segment_to_doc_map (docs_lines : list string)
    : result (list (string * list nat) * gmap nat string) :=
  foldlM (λ st il,
            full ← full_doc_id (snd il);
            let indices := default [] (Dict.get full (fst st)) in
            Ok (Dict.set full (indices ++ [fst il]) (fst st),
                <[fst il := full]> (snd st)))
         (enumerate docs_lines) ([], ∅).

(** [merge_text_lines_by_map]: the lines of each document joined by
    newlines.  An index is any int: [lines[i]] counts a negative one from
    the end. *)
Definition merge_text_lines_by_map (lines : list string)
    (doc_map : list (string * list Z)) : outcome (list (string * string)) :=
  foldlO (λ merged di,
            ls ← mapM (py_getitem lines) (snd di);
            Done (Dict.set (fst di) (py_join (String newline "") ls) merged))
         doc_map [].

(** The attributes that [main] sets on the function before the call. *)
Record attrs := Attrs {
  seg_counter : nat;
  total_segments : nat;
  seg_to_doc : gmap nat string;
}.

Section Scores.
(** [float(s)], raising [ValueError] on a malformed number. *)
Variable parse_float : string → result pyfloat.

(** [system, score = line.strip().split('\t')] and the conversion of the
    score. *)
Definition parse_score_line (line : string) : result (string * score) :=
  match py_split tab (py_strip line) with
  | [system; sc] =>
      s ← (if decide (sc = "None") then Ok SNone else SNum <$> parse_float sc);
      Ok (system, s)
  | _ => Err ValueError
  end.

(** [merge_scores_by_map]: the scores of each system summed over the
    segments of each document, with the number of documents that defaulted
    to None although they had a number, and the attributes as the call
    leaves them.  The argument [doc_map] is not used. *)
Definition merge_scores_by_map (st : attrs) (score_lines : list string)
    (doc_map : list (string * list nat))
    : result (list (string * list (string * score)) * nat * attrs) :=
  mc ← foldlM (λ mc line,
                 ss ← parse_score_line line;
                 _ ← (if decide (total_segments st = 0%nat)
                      then Err ZeroDivisionError else Ok ());
                 let seg_id := (snd mc mod total_segments st)%nat in
                 doc_id ← match seg_to_doc st !! seg_id with
                          | Some d => Ok d
                          | None => Err KeyError
                          end;
                 let l := default [] (Dict.get doc_id
                                        (default [] (Dict.get (fst ss) (fst mc)))) in
                 Ok (set2 (fst ss) doc_id (l ++ [snd ss]) (fst mc), S (snd mc)))
              score_lines ([], seg_counter st);
  let merged := fst mc in
  let '(merged_scores, count) :=
    fold_left (λ sc si,
                 fold_left (λ sc dl,
                              match py_sum (FNum 0) (snd dl) with
                              | Ok f => (set2 (fst si) (fst dl) (SNum f) (fst sc), snd sc)
                              | Err _ =>
                                  (set2 (fst si) (fst dl) SNone (fst sc),
                                   if has_number (snd dl) then S (snd sc) else snd sc)
                              end)
                           (snd si) sc)
              merged ([], 0%nat) in
  Ok (merged_scores, count, Attrs (snd mc) (total_segments st) (seg_to_doc st)).
End Scores.
End SegmentToDocument.

(** The segments that the identifiers [ids] give to the document [d]. *)
Definition segments_of (d : string) (ids : list string) : list nat :=
  filter (λ i, ids !! i = Some d) (seq 0 (length ids)).

(** The lines at the positions [idxs] that exist. *)
Definition lines_at (lines : list string) (idxs : list nat) : list string :=
  omap (λ i, lines !! i) idxs.

(** A line of the documents file with a domain and a document. *)
Definition two_fields (line : string) : Prop :=
  length (py_split SegmentToDocument.tab line) = 2%nat.

(** Three segments, the first and the last of one document. *)
Definition sample_docs : list string :=
  ["news" +:+ String "009" "doc1"; "news" +:+ String "009" "doc2";
   "news" +:+ String "009" "doc1"].

(** The positions of a document map as the ints that indexing takes. *)
Definition int_indices (doc_map : list (string * list nat)) : list (string * list Z) :=
  map (λ di, (fst di, Z.of_nat <$> snd di)) doc_map.

(** Every index of the map is a position of [lines]. *)
Definition in_range (lines : list string) (doc_map : list (string * list Z)) : Prop :=
  Forall (λ di, Forall (λ i, 0 ≤ i < Z.of_nat (length lines))%Z (snd di)) doc_map.


(** The text of each document: its lines joined. *)
Definition merged_text (lines : list string) (di : string * list Z) : string * string :=
  (fst di, py_join (String SegmentToDocument.newline "")
                   (lines_at lines (Z.to_nat <$> snd di))).

(** The map and the index that [build_segment_to_doc_map] returns for
    [sample_docs], and three lines to merge by them. *)
Definition sample_doc_map : list (string * list nat) :=
  [("news__doc1", [0; 2]%nat); ("news__doc2", [1%nat])].

Definition sample_seg_to_doc : gmap nat string :=
  {[ 0%nat := "news__doc1"; 1%nat := "news__doc2"; 2%nat := "news__doc1" ]}.

Definition sample_lines : list string := ["a"; "b"; "c"].

(** [d[k1][k2]] where both keys are present. *)
Definition get2 {V} (k1 k2 : string) (d : list (string * list (string * V)))
    : option V :=
  Dict.get k1 d ≫= Dict.get k2.

(** The scores of a system on the segments of a document, in the order of
    the lines; a record is a system, the document of its segment and a
    score. *)
Definition scores_of (sys doc : string) (recs : list (string * string * score))
    : list score :=
  map snd (filter (λ r, fst (fst r) = sys ∧ snd (fst r) = doc) recs).

(** What the first loop of [merge_scores_by_map] does with one record. *)
Definition nest_step (m : list (string * list (string * list score)))
    (r : string * string * score) : list (string * list (string * list score)) :=
  set2 (fst (fst r)) (snd (fst r))
       (default [] (get2 (fst (fst r)) (snd (fst r)) m) ++ [snd r]) m.

(** What its second loop stores for a document. *)
Definition doc_total (l : list score) : score :=
  match py_sum (FNum 0) l with
  | Ok f => SNum f
  | Err _ => SNone
  end.

(** Distinct systems, and distinct documents under each. *)
Definition nested_wf {V} (m : list (string * list (string * V))) : Prop :=
  NoDup (Dict.keys m) ∧ Forall (λ si, NoDup (Dict.keys (snd si))) m.

Section ScoresVocabulary.
Variable parse_float : string → result pyfloat.
Variable st : SegmentToDocument.attrs.

(** The lines from position [k] on, parsed, each with the document of its
    segment. *)
Definition parsed_from (k : nat) (lines : list string)
    (recs : list (string * string * score)) : Prop :=
  Forall2 (λ jl r,
             SegmentToDocument.parse_score_line parse_float (snd jl) = Ok (fst (fst r), snd r)
             ∧ SegmentToDocument.seg_to_doc st !! (fst jl mod SegmentToDocument.total_segments st)%nat
               = Some (snd (fst r)))
          (zip (seq k (length lines)) lines) recs.

(** The body of the first loop. *)
Definition scores_step
    (mc : list (string * list (string * list score)) * nat) (line : string)
    : result (list (string * list (string * list score)) * nat) :=
  ss ← SegmentToDocument.parse_score_line parse_float line;
  _ ← (if decide (SegmentToDocument.total_segments st = 0%nat)
       then Err ZeroDivisionError else Ok ());
  let seg_id := (snd mc mod SegmentToDocument.total_segments st)%nat in
  doc_id ← match SegmentToDocument.seg_to_doc st !! seg_id with
           | Some d => Ok d
           | None => Err KeyError
           end;
  let l := default [] (Dict.get doc_id
                         (default [] (Dict.get (fst ss) (fst mc)))) in
  Ok (set2 (fst ss) doc_id (l ++ [snd ss]) (fst mc), S (snd mc)).

End ScoresVocabulary.

(** The second loop, on one system and on all. *)
Definition total_inner (s : string)
    (sc : list (string * list (string * score)) * nat)
    (inner : list (string * list score)) :=
  fold_left (λ sc dl,
               match py_sum (FNum 0) (snd dl) with
               | Ok f => (set2 s (fst dl) (SNum f) (fst sc), snd sc)
               | Err _ =>
                   (set2 s (fst dl) SNone (fst sc),
                    if has_number (snd dl) then S (snd sc) else snd sc)
               end) inner sc.


(** A parser of the numbers 1 and 2, three score lines of one system, the
    second without a score, and the attributes for three segments. *)
Definition sample_parse_float (s : string) : result pyfloat :=
  if decide (s = "1") then Ok (FNum 1)
  else if decide (s = "2") then Ok (FNum 2)
  else Err ValueError.

Definition sample_scores : list string :=
  ["sysA" +:+ String "009" "1"; "sysA" +:+ String "009" "None";
   "sysA" +:+ String "009" "2"].

Definition sample_attrs : SegmentToDocument.attrs :=
  SegmentToDocument.Attrs 0 3 sample_seg_to_doc.

(** ** Equality of values, and the text without spaces *)






(** * Properties *)

(** ** The result monad *)

Lemma bind_Ok {A B} (f : A → result B) (a : A) : (Ok a ≫= f) = f a.
Proof. reflexivity. Qed.

Lemma bind_Err {A B} (f : A → result B) (e : exn) : (Err e ≫= f) = Err e.
Proof. reflexivity. Qed.

Lemma bind_inv_Ok {A B} (f : A → result B) (m : result A) (b : B) :
  (m ≫= f) = Ok b → ∃ a, m = Ok a ∧ f a = Ok b.
Proof. destruct m as [a|e]; simpl; [eauto | discriminate]. Qed.

Lemma fmap_inv_Ok {A B} (f : A → B) (m : result A) (b : B) :
  f <$> m = Ok b → ∃ a, m = Ok a ∧ b = f a.
Proof. destruct m as [a|e]; simpl; [|discriminate]. intros [= <-]. eauto. Qed.

Lemma py_assert_Ok (c : bool) (u : unit) : py_assert c = Ok u → c = true.
Proof. by destruct c. Qed.

Lemma py_assert_false (c : bool) : c = false → py_assert c = Err AssertionError.
Proof. by intros ->. Qed.

Lemma mapM_result_Ok {A B} (f : A → result B) (l : list A) (k : list B) :
  mapM f l = Ok k ↔ Forall2 (λ x y, f x = Ok y) l k.
Proof.
  revert k. induction l as [|x l IH]; intros k; simpl.
  - split; [intros [= <-]; constructor | by inversion 1].
  - split.
    + intros H. apply bind_inv_Ok in H as (y & Hy & H).
      apply bind_inv_Ok in H as (k' & Hk' & [= <-]).
      constructor; [done | by apply IH].
    + inversion 1 as [|? y ? k' Hy Hk']; subst.
      rewrite Hy. simpl. apply IH in Hk'. by rewrite Hk'.
Qed.

Lemma mapM_result_total {A B} (f : A → result B) (g : A → B) (l : list A) :
  Forall (λ x, f x = Ok (g x)) l → mapM f l = Ok (map g l).
Proof.
  intros H. apply mapM_result_Ok. induction H; simpl; by constructor.
Qed.

(** ** Splitting strings *)

Lemma ascii_eqb_sym (a b : ascii) : ascii_eqb a b = ascii_eqb b a.
Proof. unfold ascii_eqb. repeat case_bool_decide; congruence. Qed.

Lemma split_go_no_sep (sep : ascii) (s : string) :
  str_mem sep s = false → split_go sep s = (s, []).
Proof.
  induction s as [|c s IH]; simpl; [done|].
  intros [Hc Hs]%orb_false_elim.
  rewrite (IH Hs), ascii_eqb_sym, Hc. done.
Qed.

Lemma split_length_sep (sep : ascii) (s : string) :
  str_mem sep s = true → (1 < length (py_split sep s))%nat.
Proof.
  unfold py_split. induction s as [|c s IH]; simpl; [done|].
  destruct (split_go sep s) as [cur rest] eqn:E.
  rewrite (ascii_eqb_sym sep c).
  destruct (ascii_eqb c sep); simpl; [lia|].
  intros Hs. specialize (IH Hs). simpl in IH. lia.
Qed.

(** ** Validation at construction *)

(** C7: in standard mode (a correlation function other than accuracy) a
    language field holding a comma-separated list makes the construction of
    the task fail with an assertion error. *)
Theorem standard_mode_rejects_language_list
    (DATA : gmap string (gmap string MetaInfo)) (x : Task.t) :
  Task.corr_fcn x ≠ "accuracy" →
  str_mem "," (Task.lang x) = true →
  Task.post_init DATA x = Err AssertionError.
Proof.
  intros Hstd Hcomma. unfold Task.post_init.
  destruct (bool_decide (is_Some (DATA !! Task.test_set x))); [|done].
  destruct (bool_decide (Task.corr_fcn x ∈ CORRELATION_FUNCTIONS)); [|done].
  simpl. destruct (decide _) as [|_]; [done|].
  unfold Task.post_init_standard.
  apply split_length_sep in Hcomma.
  rewrite py_assert_false; [done|].
  apply bool_decide_eq_false. lia.
Qed.

Lemma standard_mode_rejects_language_list_witness :
  Task.post_init sample_DATA (sample_task "en-de,zh-en" "pearson" "sys" None)
  = Err AssertionError.
Proof.
  apply standard_mode_rejects_language_list; [simpl; discriminate | reflexivity].
Defined.

Lemma accuracy_known : bool_decide ("accuracy" ∈ CORRELATION_FUNCTIONS) = true.
Proof. apply bool_decide_eq_true. unfold CORRELATION_FUNCTIONS. set_solver. Qed.

(** C2, the counterexample: with a table that knows the pair en-de of wmt22,
    an accuracy-mode task whose language field names the single pair en-de is
    constructed without error. *)
Lemma accuracy_mode_accepts_single_pair :
  Task.corr_fcn (sample_task "en-de" "accuracy" "sys" None) = "accuracy"
  ∧ py_split "," (Task.lang (sample_task "en-de" "accuracy" "sys" None)) = ["en-de"]
  ∧ ∃ y, Task.post_init sample_DATA (sample_task "en-de" "accuracy" "sys" None) = Ok y.
Proof. split; [done|]. split; [done|]. eexists. vm_compute. reflexivity. Qed.

(** C2, as amended: in accuracy mode the construction fails with an assertion
    error when the level is not 'sys'; a language field that names exactly one
    language pair is accepted, when the table knows the pair and its standard
    system-level gold, and the unset gold, references and close references
    are filled in as one-element lists. *)
Theorem accuracy_mode_validation
    (DATA : gmap string (gmap string MetaInfo)) (x : Task.t) :
  Task.corr_fcn x = "accuracy" →
  (Task.level x ≠ "sys" → Task.post_init DATA x = Err AssertionError)
  ∧ (∀ ds mi g,
       Task.level x = "sys" →
       str_mem "," (Task.lang x) = false →
       DATA !! Task.test_set x = Some ds →
       ds !! Task.lang x = Some mi →
       std_gold mi !! "sys" = Some g →
       Task.gold x = PNone → Task.refs x = PNone → Task.close_refs x = PNone →
       Task.post_init DATA x
       = Ok (Task.set_corr_fcn_args
               (Some (sorted_items (default [] (Task.corr_fcn_args x))))
               (Task.set_close_refs (PList [PSet []])
                  (Task.set_refs (PList [PSet [PStr (std_ref mi)]])
                     (Task.set_gold (PList [PStr g]) x))))).
Proof.
  intros Hacc. split.
  - intros Hlevel. unfold Task.post_init.
    destruct (bool_decide (is_Some (DATA !! Task.test_set x))); [|done].
    destruct (bool_decide (Task.corr_fcn x ∈ CORRELATION_FUNCTIONS)); [|done].
    simpl. destruct (decide _) as [_|]; [|done].
    unfold Task.post_init_accuracy.
    rewrite py_assert_false; [done|]. by apply bool_decide_eq_false.
  - intros ds mi g Hlevel Hcomma Hds Hmi Hg Hgold Hrefs Hclose.
    unfold Task.post_init. rewrite Hds, Hacc, accuracy_known.
    rewrite bool_decide_eq_true_2 by eauto. simpl.
    unfold Task.post_init_accuracy, py_split.
    rewrite (split_go_no_sep _ _ Hcomma), Hlevel, Hgold, Hrefs, Hclose. simpl.
    unfold Task._StdGold, Task._StdRefs, lookupK. rewrite Hds. simpl.
    rewrite Hmi. simpl. rewrite Hg. simpl.
    destruct x; simpl in *. by subst.
Qed.

Lemma accuracy_mode_validation_witness :
  Task.post_init sample_DATA (sample_task "en-de" "accuracy" "seg" None)
  = Err AssertionError
  ∧ is_Ok (Task.post_init sample_DATA (sample_task "en-de" "accuracy" "sys" None)).
Proof.
  split.
  - apply (accuracy_mode_validation sample_DATA
             (sample_task "en-de" "accuracy" "seg" None)); [reflexivity|].
    simpl. discriminate.
  - eexists.
    apply (accuracy_mode_validation sample_DATA
             (sample_task "en-de" "accuracy" "sys" None) eq_refl)
      with (ds := {[ "en-de" := sample_info; "zh-en" := sample_info ]})
           (mi := sample_info) (g := "mqm"); reflexivity.
Defined.

(** ** Sorting *)

Section SortedFacts.
Context {A : Type} (R : relation A) `{!RelDecision R}.

Lemma sorted_insert_Permutation (x : A) (l : list A) :
  sorted_insert R x l ≡ₚ x :: l.
Proof.
  induction l as [|y l IH]; simpl; [done|].
  destruct (decide (R x y)); [done|].
  rewrite IH. apply Permutation_swap.
Qed.

Lemma py_sorted_Permutation (l : list A) : py_sorted R l ≡ₚ l.
Proof.
  induction l as [|x l IH]; simpl; [done|].
  by rewrite sorted_insert_Permutation, IH.
Qed.

Lemma py_sorted_length (l : list A) : length (py_sorted R l) = length l.
Proof. apply Permutation_length, py_sorted_Permutation. Qed.

Context `{!Transitive R, !Total R}.

Lemma sorted_insert_StronglySorted (x : A) (l : list A) :
  StronglySorted R l → StronglySorted R (sorted_insert R x l).
Proof.
  induction 1 as [|y l Hl IH Hy]; simpl.
  - repeat constructor.
  - destruct (decide (R x y)) as [Hxy|Hxy].
    + constructor; [by constructor|].
      constructor; [done|]. eapply Forall_impl; [exact Hy|].
      intros z Hz. by etrans.
    + constructor; [done|].
      rewrite sorted_insert_Permutation. constructor; [|done].
      by destruct (total R x y).
Qed.

Lemma py_sorted_StronglySorted (l : list A) : StronglySorted R (py_sorted R l).
Proof.
  induction l as [|x l IH]; simpl; [constructor|].
  by apply sorted_insert_StronglySorted.
Qed.
End SortedFacts.

Global Instance item_le_trans : Transitive item_le.
Proof. intros p q r. unfold item_le. apply (transitivity (R := String.le)). Qed.

Global Instance item_le_total : Total item_le.
Proof. intros p q. unfold item_le. apply (total String.le). Qed.

(** ** Dictionaries *)

Section DictFacts.
Context {V : Type}.
Implicit Types d l : list (string * V).

Lemma dict_set_fresh k (v : V) d :
  k ∉ Dict.keys d → Dict.set k v d = d ++ [(k, v)].
Proof.
  induction d as [|[k' v'] d IH]; simpl; [done|].
  intros Hk. apply not_elem_of_cons in Hk as [Hne Hk].
  destruct (decide (k = k')); [done|]. by rewrite IH.
Qed.

Lemma dict_of_list_app d l :
  NoDup (Dict.keys (d ++ l)) →
  fold_left (λ d kv, Dict.set (fst kv) (snd kv) d) l d = d ++ l.
Proof.
  revert d. induction l as [|[k v] l IH]; intros d Hnd; simpl.
  - by rewrite app_nil_r.
  - unfold Dict.keys in Hnd. rewrite dict_set_fresh.
    + rewrite IH; rewrite <-app_assoc; [done|]. exact Hnd.
    + rewrite map_app in Hnd. apply NoDup_app in Hnd as (_ & Hd & _).
      intros Hin. apply (Hd k Hin). simpl. left.
Qed.

Lemma dict_of_list_NoDup l : NoDup (Dict.keys l) → Dict.of_list l = l.
Proof. intros Hnd. unfold Dict.of_list. by rewrite dict_of_list_app. Qed.

Lemma dict_get_Some k (v : V) d : Dict.get k d = Some v → (k, v) ∈ d.
Proof.
  induction d as [|[k' v'] d IH]; simpl; [done|].
  destruct (decide (k = k')) as [->|].
  - intros [= ->]. left.
  - intros H. right. by apply IH.
Qed.

Lemma dict_get_None k d : Dict.get k d = None ↔ k ∉ Dict.keys d.
Proof.
  induction d as [|[k' v'] d IH]; simpl.
  - split; [intros _; apply not_elem_of_nil | done].
  - rewrite not_elem_of_cons. destruct (decide (k = k')) as [->|Hne].
    + split; [done | by intros [? _]].
    + rewrite IH. split; [done | by intros [_ ?]].
Qed.

Lemma dict_get_NoDup k (v : V) d :
  NoDup (Dict.keys d) → (k, v) ∈ d → Dict.get k d = Some v.
Proof.
  induction d as [|[k' v'] d IH]; simpl; [by intros _ ?%elem_of_nil|].
  intros [Hk Hd]%NoDup_cons [[= -> ->]|Hin]%elem_of_cons.
  - by destruct (decide (k' = k')).
  - destruct (decide (k = k')) as [->|]; [|by apply IH].
    exfalso. apply Hk. unfold Dict.keys.
    apply list_elem_of_fmap. by exists (k', v).
Qed.
End DictFacts.


(** ** The canonical name *)

Lemma post_init_branch_args (DATA : gmap string (gmap string MetaInfo))
    (x y : Task.t) (sub_langs : list string) :
  Task.post_init_accuracy DATA x sub_langs = Ok y
  ∨ Task.post_init_standard DATA x sub_langs = Ok y →
  Task.corr_fcn_args y = Task.corr_fcn_args x.
Proof.
  unfold Task.post_init_accuracy, Task.post_init_standard.
  intros [H|H];
    repeat (apply bind_inv_Ok in H as (? & _ & H));
    injection H as <-; reflexivity.
Qed.

Lemma post_init_args (DATA : gmap string (gmap string MetaInfo)) (x y : Task.t) :
  Task.post_init DATA x = Ok y →
  Task.corr_fcn_args y = Some (sorted_items (default [] (Task.corr_fcn_args x))).
Proof.
  unfold Task.post_init. intros H.
  apply bind_inv_Ok in H as (? & _ & H).
  apply bind_inv_Ok in H as (? & _ & H).
  apply bind_inv_Ok in H as (y' & Hy' & H).
  injection H as <-. simpl.
  rewrite (post_init_branch_args DATA x y' (py_split "," (Task.lang x))); [done|].
  destruct (decide _); auto.
Qed.


Lemma name_explicit (float_repr : pyfloat → string) (str_repr : string → string)
    (x : Task.t) :
  Task.name float_repr str_repr x
  = Ok (py_join " "
          (map (λ av, fst av +:+ "=" +:+ remove_spaces (py_str float_repr str_repr (snd av)))
               (Task.fields x))).
Proof. reflexivity. Qed.

Lemma fields_keys (x : Task.t) : Dict.keys (Task.fields x) = Attributes.
Proof. reflexivity. Qed.

(** ** Reading the name back *)

Lemma str_app_cons (c : ascii) (s t : string) : String c s +:+ t = String c (s +:+ t).
Proof. reflexivity. Qed.

Lemma str_app_nil (t : string) : "" +:+ t = t.
Proof. reflexivity. Qed.

Lemma split_go_app (sep : ascii) (a s : string) :
  str_mem sep a = false →
  split_go sep (a +:+ s) = (a +:+ fst (split_go sep s), snd (split_go sep s)).
Proof.
  induction a as [|c a IH]; simpl.
  - intros _. rewrite !str_app_nil. by destruct (split_go sep s).
  - intros [Hc Ha]%orb_false_elim. rewrite !str_app_cons. simpl.
    rewrite (IH Ha). simpl. by rewrite ascii_eqb_sym, Hc.
Qed.

Lemma attr_val_join (a v : string) :
  no_equals a = true → no_equals v = true →
  TaskResults.attr_val (a +:+ "=" +:+ v) = Ok (a, v).
Proof.
  unfold no_equals. intros Ha%negb_true_iff Hv%negb_true_iff.
  unfold TaskResults.attr_val, py_split.
  rewrite (split_go_app _ _ _ Ha).
  change ("=" +:+ v) with (String "=" v). simpl.
  rewrite (split_go_no_sep _ _ Hv). simpl.
  replace (a +:+ "") with a; [done|].
  clear. induction a as [|c a IH]; [done|]. by rewrite str_app_cons, <-IH.
Qed.

Lemma words_go_app (p s : string) :
  no_space p = true →
  words_go (p +:+ s) = (p +:+ fst (words_go s), snd (words_go s)).
Proof.
  unfold no_space. induction p as [|c p IH]; simpl.
  - intros _. rewrite !str_app_nil. by destruct (words_go s).
  - intros [Hc Hp]%andb_true_iff. rewrite !str_app_cons. simpl.
    rewrite (IH Hp). simpl. apply negb_true_iff in Hc. by rewrite Hc.
Qed.

Lemma str_app_empty_r (a : string) : a +:+ "" = a.
Proof. induction a as [|c a IH]; [done|]. by rewrite str_app_cons, IH. Qed.

Lemma words_no_space (p : string) :
  no_space p = true → p ≠ "" → py_words p = [p].
Proof.
  intros Hp Hne. unfold py_words.
  rewrite <-(str_app_empty_r p) at 1. rewrite (words_go_app _ _ Hp). simpl.
  rewrite str_app_empty_r. unfold cons_word. by destruct (decide (p = "")).
Qed.

Lemma words_cons (p s : string) :
  no_space p = true → p ≠ "" →
  py_words (p +:+ " " +:+ s) = p :: py_words s.
Proof.
  intros Hp Hne. unfold py_words at 1. rewrite (words_go_app _ _ Hp).
  change (" " +:+ s) with (String " " s). simpl.
  fold (py_words s). unfold py_words.
  destruct (words_go s) as [cur rest]. simpl.
  rewrite str_app_empty_r. unfold cons_word at 1. by destruct (decide (p = "")).
Qed.

Lemma words_join (parts : list string) :
  Forall (λ p, no_space p = true ∧ p ≠ "") parts →
  py_words (py_join " " parts) = parts.
Proof.
  induction 1 as [|p parts [Hp Hne] Hparts IH]; [done|].
  unfold py_join in *. simpl. destruct parts as [|q parts].
  - by apply words_no_space.
  - rewrite words_cons by done. by rewrite IH.
Qed.

Lemma str_forallb_app (p : ascii → bool) (s t : string) :
  str_forallb p (s +:+ t) = str_forallb p s && str_forallb p t.
Proof.
  induction s as [|c s IH]; [done|].
  rewrite str_app_cons. simpl. by rewrite IH, andb_assoc.
Qed.

Lemma attr_vals_join (kvs : list (string * string)) :
  Forall (λ kv, (no_equals (fst kv) = true ∧ no_space (fst kv) = true)
                ∧ no_equals (snd kv) = true ∧ no_space (snd kv) = true) kvs →
  mapM TaskResults.attr_val
       (py_words (py_join " " (map (λ kv, fst kv +:+ "=" +:+ snd kv) kvs)))
  = Ok kvs.
Proof.
  intros Hgood. rewrite words_join.
  - apply mapM_result_Ok. induction Hgood as [|[a v] kvs [[Ha _] [Hv _]] _ IH]; simpl.
    + constructor.
    + constructor; [by apply attr_val_join | done].
  - apply Forall_fmap. eapply Forall_impl; [exact Hgood|].
    intros [a v] [[_ Ha] [_ Hv]]. simpl in *. split.
    + unfold no_space in *. rewrite !str_forallb_app, Ha, Hv. done.
    + destruct a; [|done]. done.
Qed.

Lemma Attributes_NoDup : NoDup Attributes.
Proof. apply (bool_decide_unpack _). vm_compute. exact I. Qed.

Lemma Attributes_clean :
  Forall (λ a, no_equals a = true ∧ no_space a = true) Attributes.
Proof. unfold Attributes. repeat constructor. Qed.

Lemma StrVal_fields (float_repr : pyfloat → string) (str_repr : string → string)
    (x : Task.t) (a : string) (v : pyval) :
  (a, v) ∈ Task.fields x →
  Task.StrVal float_repr str_repr x a
  = Ok (remove_spaces (py_str float_repr str_repr v)).
Proof.
  intros Hin. unfold Task.StrVal, Task.getattr.
  rewrite (dict_get_NoDup a v); [done| |done].
  rewrite fields_keys. apply Attributes_NoDup.
Qed.

(** C9, as amended: when the stripped textual value of every attribute holds
    neither an equals sign nor a whitespace character, the attribute values
    read back from the name of the results of a task are the task's stripped
    values, for every attribute of the canonical list. *)
Theorem attr_vals_recover_StrVal
    (float_repr : pyfloat → string) (str_repr : string → string)
    (x : Task.t) (res : list (string * TaskResults.entry) * ndarray) :
  (∀ a sv, a ∈ Attributes → Task.StrVal float_repr str_repr x a = Ok sv →
           no_equals sv = true ∧ no_space sv = true) →
  ∃ tr av,
    TaskResults.init float_repr str_repr (Some x) res = Ok tr
    ∧ TaskResults.attr_vals tr = Ok av
    ∧ ∀ a, a ∈ Attributes →
           ∃ sv, Task.StrVal float_repr str_repr x a = Ok sv ∧ Dict.item a av = Ok sv.
Proof.
  intros Hclean.
  set (kvs := map (λ av, (fst av, remove_spaces (py_str float_repr str_repr (snd av))))
                  (Task.fields x)).
  assert (Hkeys : Dict.keys kvs = Attributes).
  { unfold kvs, Dict.keys. rewrite <-list_fmap_compose. apply fields_keys. }
  assert (Hname : Task.name float_repr str_repr x
                  = Ok (py_join " " (map (λ kv, fst kv +:+ "=" +:+ snd kv) kvs))).
  { rewrite name_explicit. unfold kvs. by rewrite <-list_fmap_compose. }
  assert (Hgood : Forall (λ kv, (no_equals (fst kv) = true ∧ no_space (fst kv) = true)
                    ∧ no_equals (snd kv) = true ∧ no_space (snd kv) = true) kvs).
  { unfold kvs. apply Forall_fmap, Forall_forall. intros [a v] Hin. simpl. split.
    - pose proof Attributes_clean as Hc. rewrite Forall_forall in Hc. apply Hc.
      rewrite <-(fields_keys x). apply list_elem_of_fmap. by exists (a, v).
    - apply (Hclean a); [|by apply StrVal_fields].
      rewrite <-(fields_keys x). apply list_elem_of_fmap. by exists (a, v). }
  exists (TaskResults.Build (py_join " " (map (λ kv, fst kv +:+ "=" +:+ snd kv) kvs))
            (Task.pval x) (fst res) (snd res)), kvs.
  split; [|split].
  - unfold TaskResults.init. by rewrite Hname.
  - unfold TaskResults.attr_vals. cbn [TaskResults.name].
    rewrite (attr_vals_join _ Hgood), bind_Ok.
    rewrite dict_of_list_NoDup; [done|]. rewrite Hkeys. apply Attributes_NoDup.
  - intros a Ha. rewrite <-(fields_keys x) in Ha.
    apply list_elem_of_fmap in Ha as ([a' v] & -> & Hin). simpl.
    eexists. split; [by apply StrVal_fields|].
    unfold Dict.item. rewrite (dict_get_NoDup a' (remove_spaces (py_str float_repr str_repr v))).
    + done.
    + rewrite Hkeys. apply Attributes_NoDup.
    + unfold kvs. apply list_elem_of_fmap. by exists (a', v).
Qed.

Lemma sample_built_constructed :
  Task.post_init sample_DATA (sample_task "en-de" "pearson" "sys" None) = Ok sample_built.
Proof. vm_compute. reflexivity. Qed.

Lemma StrVal_clean_check
    (float_repr : pyfloat → string) (str_repr : string → string) (x : Task.t) :
  forallb (λ a, match Task.StrVal float_repr str_repr x a with
                | Ok sv => no_equals sv && no_space sv
                | Err _ => true
                end) Attributes = true →
  ∀ a sv, a ∈ Attributes → Task.StrVal float_repr str_repr x a = Ok sv →
          no_equals sv = true ∧ no_space sv = true.
Proof.
  intros Hall a sv Ha Hsv. rewrite forallb_forall in Hall.
  apply list_elem_of_In in Ha. specialize (Hall a Ha). rewrite Hsv in Hall.
  by apply andb_true_iff.
Qed.

Lemma attr_vals_recover_StrVal_witness :
  ∃ tr av,
    TaskResults.init sample_float_repr sample_str_repr (Some sample_built)
      ([], NdArray [0%nat] []) = Ok tr
    ∧ TaskResults.attr_vals tr = Ok av
    ∧ ∀ a, a ∈ Attributes →
           ∃ sv, Task.StrVal sample_float_repr sample_str_repr sample_built a = Ok sv
                 ∧ Dict.item a av = Ok sv.
Proof.
  apply (attr_vals_recover_StrVal sample_float_repr sample_str_repr sample_built).
  apply StrVal_clean_check. vm_compute. reflexivity.
Defined.

(** C9, the counterexample: a task whose domain holds a tab character is
    constructed, none of its stripped values holds an equals sign, and yet
    the attribute values cannot be read back from the name of its results:
    the name splits at the tab, and a piece without an equals sign makes
    [attr_vals] raise. *)
Lemma attr_vals_breaks_on_whitespace :
  ∃ y tr,
    Task.post_init sample_DATA (sample_task "en-de" "pearson" "sys" (Some tab_domain)) = Ok y
    ∧ forallb (λ a, match Task.StrVal sample_float_repr sample_str_repr y a with
                    | Ok sv => no_equals sv
                    | Err _ => false
                    end) Attributes = true
    ∧ TaskResults.init sample_float_repr sample_str_repr (Some y)
        ([], NdArray [0%nat] []) = Ok tr
    ∧ TaskResults.attr_vals tr = Err ValueError.
Proof.
  eexists _, _. split; [vm_compute; reflexivity|].
  split; [vm_compute; reflexivity|].
  split; [vm_compute; reflexivity|].
  vm_compute. reflexivity.
Qed.

(** ** Grouping by key

    [SplitByAttr] and the gathering loop of [AverageRanks] build the same
    dictionary of lists: a key enters at its first occurrence, and each value
    is appended to the list of its key. *)

Lemma filter_none {A} (P : A → Prop) `{!∀ x, Decision (P x)} (l : list A) :
  Forall (λ x, ¬ P x) l → filter P l = [].
Proof.
  induction 1 as [|x l Hx _ IH]; [done|]. by rewrite filter_cons_False.
Qed.

Lemma filter_ext_Forall {A} (P Q : A → Prop)
    `{!∀ x, Decision (P x), !∀ x, Decision (Q x)} (l : list A) :
  Forall (λ x, P x ↔ Q x) l → filter P l = filter Q l.
Proof.
  induction 1 as [|x l Hx _ IH]; [done|].
  rewrite !filter_cons, IH. destruct (decide (P x)), (decide (Q x)); naive_solver.
Qed.

Section Grouping.
Context {R : Type}.
Implicit Types vrs : list (string * R).

Lemma nub_elem_of (l : list string) (x : string) : x ∈ nub l ↔ x ∈ l.
Proof.
  induction l as [|y l IH]; simpl; [done|].
  rewrite !elem_of_cons, list_elem_of_filter, IH.
  destruct (decide (x = y)); naive_solver.
Qed.

Lemma nub_NoDup (l : list string) : NoDup (nub l).
Proof.
  induction l as [|y l IH]; simpl; [constructor|].
  constructor; [|by apply NoDup_filter].
  rewrite list_elem_of_filter. naive_solver.
Qed.

Lemma nub_snoc (l : list string) (v : string) :
  nub (l ++ [v]) = if decide (v ∈ l) then nub l else nub l ++ [v].
Proof.
  induction l as [|x l IH]; simpl; [done|].
  rewrite IH. destruct (decide (v ∈ l)) as [Hin|Hin].
  - rewrite decide_True by (by right). done.
  - rewrite filter_app, filter_cons, filter_nil.
    destruct (decide (v = x)) as [->|Hne].
    + rewrite (decide_True (P := x ∈ x :: l)) by left.
      rewrite (decide_False (P := x ≠ x)) by naive_solver.
      by rewrite app_nil_r.
    + rewrite (decide_False (P := v ∈ x :: l))
        by (rewrite elem_of_cons; naive_solver).
      by rewrite (decide_True (P := v ≠ x)).
Qed.

Lemma sel_snoc (v : string) vrs (vr : string * R) :
  sel v (vrs ++ [vr]) = sel v vrs ++ (if decide (fst vr = v) then [snd vr] else []).
Proof.
  unfold sel. rewrite filter_app, map_app, filter_cons, filter_nil. f_equal.
  by destruct (decide (fst vr = v)).
Qed.

Lemma dict_get_map_keyed {V} (f : string → V) (ks : list string) (k : string) :
  Dict.get k (map (λ v, (v, f v)) ks) = if decide (k ∈ ks) then Some (f k) else None.
Proof.
  induction ks as [|k' ks IH]; simpl; [done|].
  destruct (decide (k = k')) as [->|Hne].
  - by rewrite decide_True by left.
  - rewrite IH. destruct (decide (k ∈ ks)) as [Hin|Hin].
    + by rewrite decide_True by (by right).
    + by rewrite decide_False by (rewrite elem_of_cons; naive_solver).
Qed.

Lemma dict_set_map_keyed {V} (f : string → V) (ks : list string) (k : string) (x : V) :
  NoDup ks → k ∈ ks →
  Dict.set k x (map (λ v, (v, f v)) ks)
  = map (λ v, (v, if decide (v = k) then x else f v)) ks.
Proof.
  induction 1 as [|k' ks Hk' Hnd IH]; simpl; [by intros ?%elem_of_nil|].
  intros Hin. destruct (decide (k = k')) as [->|Hne].
  - rewrite decide_True by done. f_equal.
    apply map_ext_in. intros v Hv%list_elem_of_In.
    rewrite decide_False; [done|]. by intros ->.
  - rewrite decide_False by done. f_equal. apply IH.
    apply elem_of_cons in Hin as [|]; [done|done].
Qed.

Lemma dict_keys_map_keyed {V} (f : string → V) (ks : list string) :
  Dict.keys (map (λ v, (v, f v)) ks) = ks.
Proof. unfold Dict.keys. rewrite <-list_fmap_compose. apply list_fmap_id. Qed.

Lemma group_step_grouped vrs (vr : string * R) :
  group_step (grouped vrs) vr = grouped (vrs ++ [vr]).
Proof.
  unfold group_step, grouped. destruct vr as [v r]. simpl.
  rewrite dict_get_map_keyed, map_app. simpl (map fst [_]). rewrite nub_snoc.
  destruct (decide (v ∈ nub (map fst vrs))) as [Hin|Hin].
  - rewrite decide_True by (by apply nub_elem_of). simpl.
    rewrite dict_set_map_keyed by (by auto using nub_NoDup).
    apply map_ext. intros v'. rewrite sel_snoc. simpl.
    destruct (decide (v' = v)) as [->|Hne].
    + by rewrite decide_True.
    + rewrite decide_False by done. by rewrite app_nil_r.
  - rewrite decide_False by (by rewrite <-nub_elem_of). simpl.
    rewrite dict_set_fresh by (by rewrite dict_keys_map_keyed).
    rewrite map_app. simpl. f_equal.
    + apply map_ext_in. intros v' Hv'%list_elem_of_In. rewrite sel_snoc. simpl.
      rewrite decide_False; [by rewrite app_nil_r|]. by intros ->.
    + rewrite sel_snoc. simpl. rewrite decide_True by done.
      f_equal. f_equal. unfold sel.
      rewrite nub_elem_of in Hin.
      replace (filter (λ vr, fst vr = v) vrs) with (@nil (string * R)); [done|].
      symmetry. apply filter_none, Forall_forall. intros [v' r'] Hvr Heq. simpl in Heq. subst.
      apply Hin. apply list_elem_of_fmap. by exists (v, r').
Qed.

Lemma fold_group_step vrs : fold_left group_step vrs [] = grouped vrs.
Proof.
  induction vrs as [|vr vrs IH] using rev_ind; [done|].
  by rewrite fold_left_app, IH; simpl; rewrite group_step_grouped.
Qed.
End Grouping.

(** ** Partition by attribute *)

Lemma SplitByAttr_fold (attr : string) (rs : list TaskResults.t) (vals : list string)
    (acc : list (string * list TaskResults.t)) :
  mapM (attr_of attr) rs = Ok vals →
  foldlM (λ subsets r,
            av ← TaskResults.attr_vals r;
            val ← Dict.item attr av;
            let subset := default [] (Dict.get val subsets) in
            Ok (Dict.set val (subset ++ [r]) subsets)) rs acc
  = Ok (fold_left group_step (zip vals rs) acc).
Proof.
  revert vals acc. induction rs as [|r rs IH]; intros vals acc Hvals.
  - apply mapM_result_Ok in Hvals. by inversion Hvals.
  - apply mapM_result_Ok in Hvals.
    inversion Hvals as [|? v ? vals' Hv Hvals']; subst.
    apply mapM_result_Ok in Hvals'. cbn [foldlM zip zip_with fold_left].
    unfold attr_of in Hv. apply bind_inv_Ok in Hv as (av & Hav & Hitem).
    rewrite Hav, bind_Ok, Hitem, !bind_Ok.
    by rewrite (IH vals').
Qed.

Lemma attr_values_mapM (attr : string) (rs : list TaskResults.t) (vals : list string) :
  mapM (attr_of attr) rs = Ok vals → attr_values attr rs = vals.
Proof.
  intros H%mapM_result_Ok. unfold attr_values.
  induction H as [|r v rs vals Hv _ IH]; simpl; [done|].
  rewrite Hv. simpl. by f_equal.
Qed.

Lemma mapM_attr_of_total (attr : string) (rs : list TaskResults.t) :
  Forall (λ r, is_Ok (attr_of attr r)) rs →
  ∃ vals, mapM (attr_of attr) rs = Ok vals.
Proof.
  induction 1 as [|r rs [v Hv] _ [vals IH]]; [by exists []|].
  exists (v :: vals). simpl. by rewrite Hv, IH.
Qed.

Lemma zip_mapM_fst (attr : string) (rs : list TaskResults.t) (vals : list string) :
  mapM (attr_of attr) rs = Ok vals → map fst (zip vals rs) = vals.
Proof.
  intros H%mapM_result_Ok. induction H; simpl; [done|]. by f_equal.
Qed.

Lemma sel_zip_mapM (attr v : string) (rs : list TaskResults.t) (vals : list string) :
  mapM (attr_of attr) rs = Ok vals →
  sel v (zip vals rs) = filter (λ r, attr_of attr r = Ok v) rs.
Proof.
  intros H%mapM_result_Ok. unfold sel.
  induction H as [|r v' rs vals Hv _ IH]; simpl; [done|].
  rewrite !filter_cons. simpl. rewrite Hv.
  destruct (decide (v' = v)) as [->|Hne].
  - rewrite decide_True by done. simpl. by f_equal.
  - rewrite decide_False by congruence. done.
Qed.

Lemma SplitByAttr_spec (attr : string) (rs : list TaskResults.t) :
  Forall (λ r, is_Ok (attr_of attr r)) rs →
  TaskSetResults.SplitByAttr attr rs
  = Ok (map (λ v, (v, filter (λ r, attr_of attr r = Ok v) rs))
            (nub (attr_values attr rs))).
Proof.
  intros Hok. destruct (mapM_attr_of_total _ _ Hok) as [vals Hvals].
  unfold TaskSetResults.SplitByAttr.
  rewrite (SplitByAttr_fold _ _ vals) by done.
  rewrite fold_group_step. unfold grouped. f_equal.
  rewrite (zip_mapM_fst _ _ _ Hvals), (attr_values_mapM _ _ _ Hvals).
  apply map_ext. intros v. f_equal. by apply sel_zip_mapM.
Qed.

(** Every element lies in the group of its key. *)
Lemma concat_filter_Permutation {A} (key : A → string) (ks : list string) (l : list A) :
  NoDup ks → Forall (λ x, key x ∈ ks) l →
  concat (map (λ v, filter (λ x, key x = v) l) ks) ≡ₚ l.
Proof.
  intros Hnd. revert l. induction Hnd as [|k ks Hk Hnd IH]; intros l Hl; simpl.
  - destruct Hl as [|x l Hx _]; [done|]. by apply elem_of_nil in Hx.
  - etrans; [|apply (filter_app_complement (λ x, key x = k))].
    apply Permutation_app_head.
    rewrite <-(IH (filter (λ x, ¬ key x = k) l)).
    + apply reflexive_eq. f_equal.
      apply map_ext_in. intros v Hv%list_elem_of_In.
      rewrite list_filter_filter_l; [done|].
      intros x Hxv Hxk. apply Hk. by rewrite <-Hxk, Hxv.
    + apply Forall_forall. intros x [Hne Hx]%list_elem_of_filter.
      rewrite Forall_forall in Hl. specialize (Hl x Hx).
      apply elem_of_cons in Hl as [|]; done.
Qed.

Lemma attr_values_elem_of (attr : string) (rs : list TaskResults.t) (r : TaskResults.t)
    (v : string) :
  r ∈ rs → attr_of attr r = Ok v → v ∈ attr_values attr rs.
Proof.
  intros Hr Hv. unfold attr_values. apply list_elem_of_omap.
  exists r. by rewrite Hv.
Qed.

Lemma SplitByAttr_Permutation (attr : string) (rs : list TaskResults.t) :
  Forall (λ r, is_Ok (attr_of attr r)) rs →
  concat (map (λ v, filter (λ r, attr_of attr r = Ok v) rs)
              (nub (attr_values attr rs))) ≡ₚ rs.
Proof.
  intros Hok.
  set (key := λ r, match attr_of attr r with Ok v => v | Err _ => "" end).
  rewrite <-(concat_filter_Permutation key (nub (attr_values attr rs)) rs) at 2.
  - apply reflexive_eq. f_equal. apply map_ext. intros v.
    apply filter_ext_Forall. eapply Forall_impl; [exact Hok|].
    intros r [v' Hv']. unfold key. rewrite Hv'. naive_solver.
  - apply nub_NoDup.
  - apply Forall_forall. intros r Hr. rewrite Forall_forall in Hok.
    destruct (Hok r Hr) as [v Hv]. unfold key. rewrite Hv.
    apply nub_elem_of. by eapply attr_values_elem_of.
Qed.

(** C8: [SplitByAttr] partitions the results into groups keyed by the value
    that each result's name gives to the attribute: the keys are the values
    in the order of their first occurrence, each group holds the results with
    that value in their original order, and every result lies in one group.
    In particular two results whose names give lang the values en-de and
    de-en are split into exactly these two keys, one result each. *)
Theorem SplitByAttr_partitions :
  (∀ attr rs,
     Forall (λ r, is_Ok (attr_of attr r)) rs →
     ∃ subsets,
       TaskSetResults.SplitByAttr attr rs = Ok subsets
       ∧ subsets = map (λ v, (v, filter (λ r, attr_of attr r = Ok v) rs))
                       (nub (attr_values attr rs))
       ∧ concat (Dict.values subsets) ≡ₚ rs)
  ∧ (∀ r1 r2,
       attr_of "lang" r1 = Ok "en-de" →
       attr_of "lang" r2 = Ok "de-en" →
       TaskSetResults.SplitByAttr "lang" [r1; r2]
       = Ok [("en-de", [r1]); ("de-en", [r2])]).
Proof.
  split.
  - intros attr rs Hok. eexists. split; [by apply SplitByAttr_spec|].
    split; [done|]. unfold Dict.values. rewrite <-list_fmap_compose.
    by apply SplitByAttr_Permutation.
  - intros r1 r2 H1 H2. rewrite SplitByAttr_spec.
    + unfold attr_values. simpl. rewrite H1, H2. simpl.
      rewrite !filter_cons, !filter_nil, H1, H2. done.
    + repeat constructor; eexists; eauto.
Qed.

Lemma SplitByAttr_partitions_witness :
  TaskSetResults.SplitByAttr "level" [sample_r1; sample_r3; sample_r2]
  = Ok [("sys", [sample_r1; sample_r2]); ("seg", [sample_r3])]
  ∧ TaskSetResults.SplitByAttr "lang" [sample_r1; sample_r2]
    = Ok [("en-de", [sample_r1]); ("de-en", [sample_r2])].
Proof.
  split.
  - destruct (proj1 SplitByAttr_partitions "level" [sample_r1; sample_r3; sample_r2])
      as (subsets & -> & -> & _).
    + repeat constructor; eexists; vm_compute; reflexivity.
    + vm_compute. reflexivity.
  - apply (proj2 SplitByAttr_partitions sample_r1 sample_r2); vm_compute; reflexivity.
Defined.

(** ** Sums of weights *)

Lemma Qsum_fold (l : list Q) (a : Q) : (fold_left Qplus l a == a + Qsum l)%Q.
Proof.
  unfold Qsum. revert a. induction l as [|x l IH]; intros a; simpl.
  - ring.
  - rewrite (IH (a + x)%Q), (IH (0 + x)%Q). ring.
Qed.

Lemma Qsum_cons (x : Q) (l : list Q) : (Qsum (x :: l) == x + Qsum l)%Q.
Proof. unfold Qsum at 1. simpl. rewrite Qsum_fold. ring. Qed.

Lemma Qsum_app (l1 l2 : list Q) : (Qsum (l1 ++ l2) == Qsum l1 + Qsum l2)%Q.
Proof.
  induction l1 as [|x l1 IH]; simpl.
  - unfold Qsum at 2. simpl. ring.
  - rewrite !Qsum_cons, IH. ring.
Qed.

Lemma Qsum_Permutation (l1 l2 : list Q) : l1 ≡ₚ l2 → (Qsum l1 == Qsum l2)%Q.
Proof.
  induction 1 as [|x l1 l2 _ IH|x y l|l1 l2 l3 _ IH1 _ IH2].
  - reflexivity.
  - by rewrite !Qsum_cons, IH.
  - rewrite !Qsum_cons. ring.
  - by rewrite IH1.
Qed.

Lemma Qnat_S (n : nat) : (Qnat (S n) == Qnat n + 1)%Q.
Proof.
  unfold Qnat. rewrite Nat2Z.inj_succ. unfold Z.succ.
  by rewrite inject_Z_plus.
Qed.

Lemma Qnat_nonzero (n : nat) : n ≠ 0%nat → ¬ (Qnat n == 0)%Q.
Proof.
  intros Hn Heq. unfold Qnat, Qeq in Heq. simpl in Heq. lia.
Qed.

Lemma Qsum_replicate (n : nat) (x : Q) : (Qsum (replicate n x) == Qnat n * x)%Q.
Proof.
  induction n as [|n IH]; simpl.
  - unfold Qsum, Qnat. simpl. ring.
  - rewrite Qsum_cons, IH, Qnat_S. ring.
Qed.

Lemma Qsum_concat_const (ls : list (list Q)) (c : Q) :
  Forall (λ l, Qsum l == c)%Q ls → (Qsum (concat ls) == Qnat (length ls) * c)%Q.
Proof.
  induction 1 as [|l ls Hl _ IH]; simpl.
  - unfold Qsum, Qnat. simpl. ring.
  - rewrite Qsum_app, Hl, IH, Qnat_S. ring.
Qed.

Lemma Qsum_share (n : nat) (W : Q) :
  n ≠ 0%nat → (Qnat n * (W / Qnat n) == W)%Q.
Proof. intros Hn. field. by apply Qnat_nonzero. Qed.

(** ** The weights dictionary of [AssignWeights] *)

Lemma zip_map_self {A B} (f : A → B) (l : list A) :
  zip l (map f l) = map (λ x, (x, f x)) l.
Proof. induction l as [|x l IH]; simpl; [done|]. by f_equal. Qed.

Lemma NoDup_fmap_elem {A B} (f : A → B) (l : list A) (x y : A) :
  NoDup (map f l) → x ∈ l → y ∈ l → f x = f y → x = y.
Proof.
  induction l as [|z l IH]; simpl; [by intros _ ?%elem_of_nil|].
  intros [Hz Hnd]%NoDup_cons [->|Hx]%elem_of_cons [->|Hy]%elem_of_cons Heq.
  - done.
  - exfalso. apply Hz. rewrite Heq. apply list_elem_of_fmap. by exists y.
  - exfalso. apply Hz. rewrite <-Heq. apply list_elem_of_fmap. by exists x.
  - by apply IH.
Qed.

Lemma fold_upd_keyed (w : TaskResults.t → Q) (ns : list string)
    (P : list TaskResults.t) (f : string → Q) :
  NoDup ns → Forall (λ r, TaskResults.name r ∈ ns) P →
  fold_left (λ d rw, Dict.set (TaskResults.name (fst rw)) (snd rw) d)
            (map (λ r, (r, w r)) P) (map (λ n, (n, f n)) ns)
  = map (λ n, (n, fold_left (assign_step w) P f n)) ns.
Proof.
  intros Hnd HP. revert f. induction HP as [|r P Hr _ IH]; intros f; simpl; [done|].
  rewrite dict_set_map_keyed by done. apply (IH (assign_step w f r)).
Qed.

Lemma assigned_value (w : TaskResults.t → Q) (P : list TaskResults.t)
    (f : string → Q) (r : TaskResults.t) :
  NoDup (map TaskResults.name P) → r ∈ P →
  fold_left (assign_step w) P f (TaskResults.name r) = w r.
Proof.
  revert r. induction P as [|r' P IH] using rev_ind; intros r Hnd Hr.
  - by apply elem_of_nil in Hr.
  - rewrite fold_left_app. simpl. unfold assign_step at 1.
    destruct (decide (TaskResults.name r = TaskResults.name r')) as [Heq|Hne].
    + f_equal. symmetry. eapply NoDup_fmap_elem; [exact Hnd|done| |done].
      apply elem_of_app. right. left.
    + apply IH.
      * rewrite map_app in Hnd. by apply NoDup_app in Hnd as [? _].
      * apply elem_of_app in Hr as [|Hr]; [done|].
        apply list_elem_of_singleton in Hr. by subst.
Qed.

Lemma foldlM_groups (aw : list TaskResults.t → result (list Q))
    (lw : list TaskResults.t → TaskResults.t → Q)
    (gs : list (list TaskResults.t)) (d : list (string * Q)) :
  Forall (λ g, aw g = Ok (map (lw g) g)) gs →
  foldlM (λ weights subset,
            subweights ← aw subset;
            Ok (fold_left (λ w rw, Dict.set (TaskResults.name (fst rw)) (snd rw) w)
                          (zip subset subweights) weights)) gs d
  = Ok (fold_left (λ w rw, Dict.set (TaskResults.name (fst rw)) (snd rw) w)
                  (concat (map (λ g, map (λ r, (r, lw g r)) g) gs)) d).
Proof.
  intros Hgs. revert d. induction Hgs as [|g gs Hg _ IH]; intros d; [done|].
  cbn [foldlM map concat].
  rewrite Hg, !bind_Ok, IH, fold_left_app, zip_map_self. done.
Qed.

Lemma concat_map_map {A B} (f : A → B) (ls : list (list A)) :
  concat (map (map f) ls) = map f (concat ls).
Proof.
  induction ls as [|l ls IH]; simpl; [done|]. by rewrite map_app, IH.
Qed.

Lemma map_const_replicate {A B} (x : B) (l : list A) :
  map (λ _, x) l = replicate (length l) x.
Proof. induction l as [|y l IH]; simpl; [done|]. by f_equal. Qed.

Lemma same_attr_group (a v : string) (r : TaskResults.t) (rs : list TaskResults.t) :
  attr_of a r = Ok v →
  same_attr a r rs = filter (λ r', attr_of a r' = Ok v) rs.
Proof. intros Hv. unfold same_attr. by rewrite Hv. Qed.

Lemma group_nonempty (a v : string) (rs : list TaskResults.t) :
  v ∈ nub (attr_values a rs) → filter (λ r, attr_of a r = Ok v) rs ≠ [].
Proof.
  rewrite nub_elem_of. unfold attr_values.
  intros (r & Hr & Hv)%list_elem_of_omap Hnil.
  destruct (attr_of a r) as [v'|] eqn:E; [|done]. injection Hv as ->.
  assert (Hin : r ∈ filter (λ r, attr_of a r = Ok v) rs)
    by (by apply list_elem_of_filter).
  rewrite Hnil in Hin. by apply elem_of_nil in Hin.
Qed.

Lemma NoDup_names_filter (P : TaskResults.t → Prop) `{!∀ r, Decision (P r)}
    (rs : list TaskResults.t) :
  NoDup (map TaskResults.name rs) → NoDup (map TaskResults.name (filter P rs)).
Proof.
  intros Hnd. eapply sublist_NoDup; [exact Hnd|].
  apply (fmap_sublist TaskResults.name), sublist_filter.
Qed.

Lemma AssignWeights_leaf_weight (attrs : list string) :
  ∀ (W : Q) (rs : list TaskResults.t),
    rs ≠ [] →
    NoDup (map TaskResults.name rs) →
    Forall (λ a, Forall (λ r, is_Ok (attr_of a r)) rs) attrs →
    TaskSetResults.AssignWeights attrs W rs = Ok (map (leaf_weight attrs W rs) rs)
    ∧ (Qsum (map (leaf_weight attrs W rs) rs) == W)%Q.
Proof.
  induction attrs as [|a attrs IH]; intros W rs Hne Hnd Hattrs.
  - simpl. assert (Hlen : length rs ≠ 0%nat) by (by destruct rs).
    rewrite decide_False by done. rewrite map_const_replicate. split; [done|].
    rewrite Qsum_replicate. by apply Qsum_share.
  - apply Forall_cons in Hattrs as [Ha Hattrs].
    set (ks := nub (attr_values a rs)).
    set (G := λ v, filter (λ r, attr_of a r = Ok v) rs).
    set (W' := (W / Qnat (length ks))%Q).
    set (w := leaf_weight (a :: attrs) W rs).
    assert (Hks : length ks ≠ 0%nat).
    { destruct rs as [|r rs]; [done|]. apply Forall_cons in Ha as [[v Hv] _].
      assert (Hin : v ∈ ks).
      { apply nub_elem_of. eapply attr_values_elem_of; [left|done]. }
      destruct ks; [by apply elem_of_nil in Hin | done]. }
    assert (HIH : Forall (λ g, TaskSetResults.AssignWeights attrs W' g
                               = Ok (map (leaf_weight attrs W' g) g)
                               ∧ (Qsum (map (leaf_weight attrs W' g) g) == W')%Q)
                         (map G ks)).
    { apply Forall_fmap, Forall_forall. intros v Hv. apply IH.
      - by apply group_nonempty.
      - by apply NoDup_names_filter.
      - eapply Forall_impl; [exact Hattrs|]. intros a' Ha'.
        apply Forall_forall. intros r [_ Hr]%list_elem_of_filter.
        rewrite Forall_forall in Ha'. by apply Ha'. }
    assert (Hw : Forall (λ g, map (leaf_weight attrs W' g) g = map w g) (map G ks)).
    { apply Forall_fmap, Forall_forall. intros v Hv. simpl.
      apply map_ext_in. intros r Hr%list_elem_of_In.
      apply list_elem_of_filter in Hr as [Hr _].
      unfold w. simpl. by rewrite (same_attr_group a v r rs Hr). }
    assert (Hperm : concat (map G ks) ≡ₚ rs) by (by apply SplitByAttr_Permutation).
    split.
    + assert (Hsplit : TaskSetResults.SplitByAttr a rs = Ok (map (λ v, (v, G v)) ks))
        by (by apply SplitByAttr_spec).
      assert (Hvals : Dict.values (map (λ v, (v, G v)) ks) = map G ks)
        by (unfold Dict.values; by rewrite <-list_fmap_compose).
      cbn [TaskSetResults.AssignWeights].
      rewrite Hsplit, bind_Ok, Hvals, length_map. fold W'.
      rewrite (foldlM_groups _ (leaf_weight attrs W'))
        by (eapply Forall_impl; [exact HIH|]; by intros g [? _]).
      rewrite bind_Ok. f_equal.
      replace (concat (map (λ g, map (λ r, (r, leaf_weight attrs W' g r)) g) (map G ks)))
        with (map (λ r, (r, w r)) (concat (map G ks))).
      2:{ rewrite <-concat_map_map. f_equal. rewrite <-!list_fmap_compose.
          apply map_ext_in. intros v Hv%list_elem_of_In. simpl.
          rewrite Forall_fmap, Forall_forall in Hw. specialize (Hw v Hv). simpl in Hw.
          rewrite <-(zip_map_self w), <-Hw, zip_map_self. done. }
      rewrite dict_of_list_NoDup.
      2:{ unfold Dict.keys. rewrite <-list_fmap_compose. exact Hnd. }
      replace (map (λ r, (TaskResults.name r, 0%Q)) rs)
        with (map (λ n, (n, (λ _ : string, 0%Q) n)) (map TaskResults.name rs))
        by (by rewrite <-list_fmap_compose).
      rewrite (fold_upd_keyed w (map TaskResults.name rs) (concat (map G ks))
                 (λ _, 0%Q)).
      * unfold Dict.values. rewrite <-!list_fmap_compose.
        apply map_ext_in. intros r Hr%list_elem_of_In. simpl.
        apply assigned_value; by rewrite Hperm.
      * done.
      * apply Forall_forall. intros r Hr. rewrite Hperm in Hr.
        apply list_elem_of_fmap. by exists r.
    + rewrite <-(Qsum_Permutation (map w (concat (map G ks))))
        by (by rewrite Hperm).
      rewrite <-concat_map_map, (Qsum_concat_const _ W').
      * rewrite !length_map. by apply Qsum_share.
      * rewrite Forall_fmap. rewrite Forall_forall in HIH, Hw.
        apply Forall_forall. intros g Hg. simpl.
        destruct (HIH g Hg) as [_ Hsum]. by rewrite <-(Hw g Hg).
Qed.

(** C3, the counterexample: on the empty set of results, with an attribute
    to split by, [AssignWeights] returns the empty list, whose sum is not the
    total weight 1. *)
Lemma AssignWeights_empty_set :
  ∃ ws, TaskSetResults.AssignWeights ["lang"] 1%Q [] = Ok ws
        ∧ ws = []
        ∧ ¬ (Qsum ws == 1)%Q.
Proof. exists []. split; [reflexivity|]. split; [reflexivity|]. by intros H. Qed.

(** Two results of the same name share one entry of the weights dictionary:
    the list returned is shorter than the results and sums to less than the
    total weight. *)
Lemma AssignWeights_repeated_name :
  ∃ ws, TaskSetResults.AssignWeights ["lang"] 1%Q [sample_r1; sample_r1] = Ok ws
        ∧ length ws = 1%nat
        ∧ (Qsum ws == 1 # 2)%Q.
Proof. eexists. split; [vm_compute; reflexivity|]. split; reflexivity. Qed.

(** C3, as amended: for a non-empty set of results with pairwise distinct
    names, each name giving a value to every attribute of [attrs],
    [AssignWeights] returns one weight per result, in the order of the
    results (the weight of each result being its share down the hierarchy of
    partitions), and the weights sum to the total weight, in exact
    arithmetic; with no attribute every result gets the total weight divided
    by the number of results. *)
Theorem AssignWeights_distributes
    (attrs : list string) (W : Q) (rs : list TaskResults.t) :
  rs ≠ [] →
  NoDup (map TaskResults.name rs) →
  Forall (λ a, Forall (λ r, is_Ok (attr_of a r)) rs) attrs →
  ∃ ws,
    TaskSetResults.AssignWeights attrs W rs = Ok ws
    ∧ ws = map (leaf_weight attrs W rs) rs
    ∧ length ws = length rs
    ∧ (Qsum ws == W)%Q
    ∧ (attrs = [] → ws = replicate (length rs) (W / Qnat (length rs))%Q).
Proof.
  intros Hne Hnd Hattrs.
  destruct (AssignWeights_leaf_weight attrs W rs Hne Hnd Hattrs) as [Haw Hsum].
  eexists. split; [exact Haw|]. split; [done|]. split; [by rewrite length_map|].
  split; [done|]. intros ->. simpl. apply map_const_replicate.
Qed.

Lemma AssignWeights_distributes_witness :
  ∃ ws,
    TaskSetResults.AssignWeights ["lang"; "level"] 1%Q [sample_r1; sample_r3; sample_r2]
    = Ok ws
    ∧ ws = map (leaf_weight ["lang"; "level"] 1%Q [sample_r1; sample_r3; sample_r2])
               [sample_r1; sample_r3; sample_r2]
    ∧ length ws = 3%nat
    ∧ (Qsum ws == 1)%Q
    ∧ (["lang"; "level"] = [] →
       ws = replicate 3 (1 / Qnat 3)%Q).
Proof.
  apply (AssignWeights_distributes ["lang"; "level"] 1%Q
           [sample_r1; sample_r3; sample_r2]).
  - discriminate.
  - apply (bool_decide_unpack _). vm_compute. exact I.
  - repeat constructor; eexists; vm_compute; reflexivity.
Defined.

(** ** Gathering the ranks *)

Lemma gather_inner (res : TaskResults.t) (w : Q)
    (es : list (string * TaskResults.entry)) (acc : list (string * list Q)) :
  Forall (λ me, TaskResults.Rank res (fst me) = Ok (TaskResults.rank (snd me))) es →
  foldlM (λ ranks metric,
            rk ← TaskResults.Rank res metric;
            Ok (Dict.set metric
                  (default [] (Dict.get metric ranks) ++ [(inject_Z rk * w)%Q]) ranks))
         (map fst es) acc
  = Ok (fold_left group_step
          (map (λ me, (fst me, (inject_Z (TaskResults.rank (snd me)) * w)%Q)) es) acc).
Proof.
  intros Hes. revert acc. induction Hes as [|[m e] es Hme _ IH]; intros acc; [done|].
  cbn [map foldlM fold_left fst snd] in *. rewrite Hme, !bind_Ok. apply IH.
Qed.

Lemma Rank_NoDup (res : TaskResults.t) :
  NoDup (TaskResults.metrics res) →
  Forall (λ me, TaskResults.Rank res (fst me) = Ok (TaskResults.rank (snd me)))
         (TaskResults.corr_ranks res).
Proof.
  intros Hnd. apply Forall_forall. intros [m e] Hin.
  unfold TaskResults.Rank, Dict.item. simpl.
  by rewrite (dict_get_NoDup m e _ Hnd Hin).
Qed.

Lemma gather_ranks_grouped (rs : list TaskResults.t) (ws : list Q) :
  Forall (λ r, NoDup (TaskResults.metrics r)) rs →
  TaskSetResults.gather_ranks rs ws
  = Ok (grouped (concat (map rank_entries (zip rs ws)))).
Proof.
  intros Hnd. unfold TaskSetResults.gather_ranks. rewrite <-fold_group_step.
  generalize (@nil (string * list Q)) as acc.
  revert ws. induction Hnd as [|r rs Hr _ IH]; intros ws acc; [done|].
  destruct ws as [|w ws]; [done|].
  cbn [zip zip_with foldlM map concat fst snd].
  unfold TaskResults.metrics, Dict.keys in *.
  rewrite (gather_inner r w _ acc (Rank_NoDup r Hr)), bind_Ok, fold_left_app.
  apply IH.
Qed.

Lemma sel_app {R} (m : string) (l1 l2 : list (string * R)) :
  sel m (l1 ++ l2) = sel m l1 ++ sel m l2.
Proof. unfold sel. by rewrite filter_app, map_app. Qed.

Lemma sel_concat {R} (m : string) (ls : list (list (string * R))) :
  sel m (concat ls) = concat (map (sel m) ls).
Proof.
  induction ls as [|l ls IH]; simpl; [done|]. by rewrite sel_app, IH.
Qed.

Lemma sel_keyed {V R} (g : V → R) (m : string) (d : list (string * V)) :
  NoDup (Dict.keys d) →
  sel m (map (λ me, (fst me, g (snd me))) d)
  = match Dict.get m d with Some e => [g e] | None => [] end.
Proof.
  unfold sel. induction d as [|[k e] d IH]; simpl; [done|].
  intros [Hk Hnd]%NoDup_cons. rewrite filter_cons. simpl.
  destruct (decide (k = m)) as [->|Hne].
  - rewrite decide_True by done. simpl. f_equal.
    rewrite filter_none; [done|]. apply Forall_forall.
    intros [k' v'] [[k'' e''] [[= -> ->] Hin]]%list_elem_of_fmap. simpl.
    intros ->. apply Hk. apply list_elem_of_fmap. by exists (m, e'').
  - rewrite decide_False by done. by apply IH.
Qed.

Lemma sel_rank_entries (m : string) (rs : list TaskResults.t) (ws : list Q) :
  Forall (λ r, NoDup (TaskResults.metrics r)) rs →
  sel m (concat (map rank_entries (zip rs ws)))
  = concat (map (contribution m) (zip rs ws)).
Proof.
  intros Hnd. rewrite sel_concat, <-list_fmap_compose. f_equal.
  apply map_ext_in. intros [r w] Hin%list_elem_of_In. simpl.
  unfold rank_entries, contribution. simpl.
  apply (sel_keyed (λ e, (inject_Z (TaskResults.rank e) * w)%Q)).
  rewrite Forall_forall in Hnd. apply Hnd.
  apply elem_of_zip_l in Hin. done.
Qed.

Lemma sel_nonempty_key {R} (m : string) (l : list (string * R)) :
  sel m l ≠ [] → m ∈ map fst l.
Proof.
  unfold sel. intros Hne.
  destruct (filter (λ vr, fst vr = m) l) as [|[k v] l'] eqn:E; [done|].
  assert (Hin : (k, v) ∈ filter (λ vr : string * R, fst vr = m) l)
    by (rewrite E; left).
  apply list_elem_of_filter in Hin as [Hk Hin]. simpl in Hk. subst.
  apply list_elem_of_fmap. by exists (m, v).
Qed.

Global Instance rank_le_trans : Transitive rank_le.
Proof. intros p q r. unfold rank_le. apply Qle_trans. Qed.

Global Instance rank_le_total : Total rank_le.
Proof.
  intros p q. unfold rank_le.
  destruct (Qlt_le_dec (snd q) (snd p)) as [H|H]; [right|left]; [|done].
  by apply Qlt_le_weak.
Qed.

Lemma contribution_length (m : string) (rw : TaskResults.t * Q) :
  (length (contribution m rw) ≤ 1)%nat.
Proof. unfold contribution. destruct (Dict.get _ _); simpl; lia. Qed.

Lemma contribution_one (m : string) (rw : TaskResults.t * Q) :
  length (contribution m rw) = 1%nat ↔ m ∈ TaskResults.metrics (fst rw).
Proof.
  unfold contribution, TaskResults.metrics.
  destruct (Dict.get m (TaskResults.corr_ranks (fst rw))) as [e|] eqn:E; simpl.
  - split; [intros _|done]. apply dict_get_Some in E.
    apply list_elem_of_fmap. by exists (m, e).
  - split; [done|]. intros Hin. by apply dict_get_None in E.
Qed.

Lemma concat_length_all {A B} (f : A → list B) (l : list A) :
  Forall (λ x, (length (f x) ≤ 1)%nat) l →
  length (concat (map f l)) = length l ↔ Forall (λ x, length (f x) = 1%nat) l.
Proof.
  intros Hle.
  assert (Hbound : (length (concat (map f l)) ≤ length l)%nat).
  { induction Hle as [|x l Hx _ IH]; simpl; [done|]. rewrite length_app. lia. }
  induction Hle as [|x l Hx Hl IH]; simpl in *.
  - split; [constructor | done].
  - rewrite length_app in *.
    assert (Hb : (length (concat (map f l)) ≤ length l)%nat).
    { clear -Hl. induction Hl as [|y l Hy _ IH]; simpl; [done|].
      rewrite length_app. lia. }
    rewrite Forall_cons, <-(IH Hb). lia.
Qed.

Lemma filter_map_keyed {A B} (P : A → Prop) `{!∀ x, Decision (P x)} (g : A → B)
    (l : list (string * A)) :
  omap (λ ml, if decide (P (snd ml)) then Some (fst ml, g (snd ml)) else None) l
  = map (λ ml, (fst ml, g (snd ml))) (filter (λ ml, P (snd ml)) l).
Proof.
  induction l as [|[k v] l IH]; [done|].
  rewrite filter_cons. cbn [omap list_omap fst snd]. rewrite IH.
  by destruct (decide (P v)).
Qed.

Lemma zip_elem_of_l {A B} (l : list A) (k : list B) (x : A) :
  length l = length k → x ∈ l → ∃ y, (x, y) ∈ zip l k.
Proof.
  revert k. induction l as [|a l IH]; intros [|b k] Hlen Hx; simplify_eq/=.
  - by apply elem_of_nil in Hx.
  - apply elem_of_cons in Hx as [->|Hx].
    + exists b. left.
    + destruct (IH k Hlen Hx) as [y Hy]. exists y. by right.
Qed.

Lemma contribution_weighted (m : string) (rs : list TaskResults.t) :
  Forall (λ r, m ∈ TaskResults.metrics r) rs →
  ∃ zs, mapM (λ r, TaskResults.Rank r m) rs = Ok zs
        ∧ ∀ ws, concat (map (contribution m) (zip rs ws))
                = zip_with (λ z w, (inject_Z z * w)%Q) zs ws.
Proof.
  induction 1 as [|r rs Hr _ (zs & Hzs & IH)].
  - by exists [].
  - unfold TaskResults.metrics in Hr.
    destruct (Dict.get m (TaskResults.corr_ranks r)) as [e|] eqn:E;
      [|by apply dict_get_None in E].
    exists (TaskResults.rank e :: zs). split.
    + apply mapM_result_Ok. constructor; [|by apply mapM_result_Ok].
      unfold TaskResults.Rank, Dict.item. by rewrite E.
    + intros [|w ws]; [done|]. cbn [zip zip_with map concat].
      rewrite <-IH. unfold contribution at 1. simpl. by rewrite E.
Qed.

Lemma sums_elem_of (n : nat) (U : list (string * Q)) (m : string) (q : Q) :
  (m, q) ∈ map (λ ml, (fst ml, Qsum (snd ml)))
               (filter (λ ml : string * list Q, length (snd ml) = n) (grouped U))
  ↔ m ∈ map fst U ∧ length (sel m U) = n ∧ q = Qsum (sel m U).
Proof.
  rewrite list_elem_of_fmap. unfold grouped. split.
  - intros ([k l] & Heq & [Hlen Hin]%list_elem_of_filter). simpl in *.
    injection Heq as -> ->.
    apply list_elem_of_fmap in Hin as (k' & Heq & Hk'). simpl in Heq.
    injection Heq as -> ->.
    split; [by apply nub_elem_of|]. split; [exact Hlen|reflexivity].
  - intros (Hm & Hlen & ->). exists (m, sel m U). split; [done|].
    apply list_elem_of_filter. split; [done|].
    apply list_elem_of_fmap. exists m. split; [done|]. by apply nub_elem_of.
Qed.

Lemma sums_keys_NoDup (n : nat) (U : list (string * Q)) :
  NoDup (Dict.keys (map (λ ml, (fst ml, Qsum (snd ml)))
           (filter (λ ml : string * list Q, length (snd ml) = n) (grouped U)))).
Proof.
  unfold Dict.keys. rewrite <-list_fmap_compose.
  eapply (sublist_NoDup _ (map fst (grouped U))).
  - unfold grouped. rewrite <-list_fmap_compose.
    rewrite (map_ext _ id) by done. rewrite map_id. apply nub_NoDup.
  - apply (fmap_sublist fst), sublist_filter.
Qed.

Lemma AverageRanks_supplied (ws : list Q) (rs : list TaskResults.t) :
  rs ≠ [] →
  Forall (λ r, NoDup (TaskResults.metrics r)) rs →
  length ws = length rs →
  ∃ out,
    TaskSetResults.AverageRanks (Some ws) rs = Ok out
    ∧ (∀ m, m ∈ Dict.keys out ↔ ∀ r, r ∈ rs → m ∈ TaskResults.metrics r)
    ∧ (∀ m, m ∈ Dict.keys out →
         ∃ zs, mapM (λ r, TaskResults.Rank r m) rs = Ok zs
               ∧ Dict.get m out
                 = Some (Qsum (zip_with (λ z w, (inject_Z z * w)%Q) zs ws)))
    ∧ StronglySorted rank_le out.
Proof.
  intros Hne Hnd Hlen.
  set (U := concat (map rank_entries (zip rs ws))).
  set (sums := map (λ ml, (fst ml, Qsum (snd ml)))
                 (filter (λ ml : string * list Q, length (snd ml) = length rs)
                         (grouped U))).
  assert (Hsel : ∀ m, sel m U = concat (map (contribution m) (zip rs ws)))
    by (intros m; by apply sel_rank_entries).
  assert (Hzip : length (zip rs ws) = length rs)
    by (rewrite length_zip; lia).
  assert (Hall : ∀ m, length (sel m U) = length rs
                      ↔ ∀ r, r ∈ rs → m ∈ TaskResults.metrics r).
  { intros m. rewrite Hsel, <-Hzip.
    rewrite concat_length_all
      by (apply Forall_forall; intros; apply contribution_length).
    rewrite Forall_forall. split.
    - intros H r Hr. destruct (zip_elem_of_l rs ws r (eq_sym Hlen) Hr) as [w Hw].
      by apply (contribution_one m (r, w)), H.
    - intros H [r w] Hrw. apply contribution_one. simpl.
      apply H. by apply elem_of_zip_l in Hrw. }
  assert (Hout : Dict.of_list (py_sorted rank_le sums) = py_sorted rank_le sums).
  { apply dict_of_list_NoDup. unfold Dict.keys.
    rewrite py_sorted_Permutation. apply sums_keys_NoDup. }
  assert (Hkeys : ∀ m, m ∈ Dict.keys (py_sorted rank_le sums)
                       ↔ ∀ r, r ∈ rs → m ∈ TaskResults.metrics r).
  { intros m. unfold Dict.keys. rewrite py_sorted_Permutation. split.
    - intros ([m' q] & -> & Hin)%list_elem_of_fmap.
      apply sums_elem_of in Hin as (_ & Hl & _). by apply Hall.
    - intros Hm. apply list_elem_of_fmap. exists (m, Qsum (sel m U)).
      split; [done|]. apply sums_elem_of. split; [|split; [by apply Hall|done]].
      apply sel_nonempty_key. intros Hnil.
      apply Hall in Hm. rewrite Hnil in Hm. by destruct rs. }
  exists (py_sorted rank_le sums). split; [|split; [done|split]].
  - unfold TaskSetResults.AverageRanks. rewrite bind_Ok.
    rewrite gather_ranks_grouped by done. rewrite bind_Ok. fold U.
    cbv zeta. rewrite <-Hout. do 3 f_equal. unfold sums.
    exact (filter_map_keyed (λ l : list Q, length l = length rs) Qsum (grouped U)).
  - intros m Hm. pose proof (proj1 (Hkeys m) Hm) as Hmr.
    destruct (contribution_weighted m rs) as (zs & Hzs & Hws).
    { by apply Forall_forall. }
    exists zs. split; [done|].
    apply dict_get_NoDup.
    + unfold Dict.keys. rewrite py_sorted_Permutation. apply sums_keys_NoDup.
    + rewrite py_sorted_Permutation. apply sums_elem_of.
      rewrite <-Hws, <-Hsel. apply Hall in Hmr.
      split; [|split; [done|done]].
      apply sel_nonempty_key. intros Hnil.
      rewrite Hnil in Hmr. by destruct rs.
  - apply py_sorted_StronglySorted; apply _.
Qed.

Lemma AverageRanks_default (rs : list TaskResults.t) :
  rs ≠ [] →
  TaskSetResults.AverageRanks None rs
  = TaskSetResults.AverageRanks (Some (uniform_weights (length rs))) rs.
Proof.
  intros Hne. unfold TaskSetResults.AverageRanks, uniform_weights.
  rewrite decide_False; [done|]. by destruct rs.
Qed.

(** C6, the counterexample: on the empty set of results every metric appears
    in every result, yet [AverageRanks] returns no mapping when no weights
    are supplied (it raises on the division by the number of results), and
    an empty mapping when the empty list of weights is supplied. *)
Lemma AverageRanks_empty_set :
  (∀ r, r ∈ @nil TaskResults.t → "metricA" ∈ TaskResults.metrics r)
  ∧ TaskSetResults.AverageRanks None [] = Err ZeroDivisionError
  ∧ TaskSetResults.AverageRanks (Some []) [] = Ok [].
Proof.
  split; [by intros r ?%elem_of_nil|]. split; reflexivity.
Qed.

(** C6, as amended: for a non-empty set of results, with no weights supplied
    or one weight per result, [AverageRanks] returns a mapping that includes
    a metric if and only if the metric appears in every result; each metric
    included maps to the sum over all results of its rank times the weight
    of the result (the weights being 1/count when none are supplied), and
    the mapping is ordered by ascending value. *)
Theorem AverageRanks_intersection
    (weights : option (list Q)) (rs : list TaskResults.t) :
  rs ≠ [] →
  Forall (λ r, NoDup (TaskResults.metrics r)) rs →
  (∀ ws, weights = Some ws → length ws = length rs) →
  ∃ out,
    TaskSetResults.AverageRanks weights rs = Ok out
    ∧ (∀ m, m ∈ Dict.keys out ↔ ∀ r, r ∈ rs → m ∈ TaskResults.metrics r)
    ∧ (∀ m, m ∈ Dict.keys out →
         ∃ zs, mapM (λ r, TaskResults.Rank r m) rs = Ok zs
               ∧ Dict.get m out
                 = Some (Qsum (zip_with (λ z w, (inject_Z z * w)%Q) zs
                                 (default (uniform_weights (length rs)) weights))))
    ∧ StronglySorted rank_le out.
Proof.
  intros Hne Hnd Hlen. destruct weights as [ws|]; simpl.
  - apply AverageRanks_supplied; auto.
  - rewrite AverageRanks_default by done.
    apply AverageRanks_supplied; [done|done|].
    unfold uniform_weights. apply length_replicate.
Qed.

Lemma AverageRanks_intersection_witness :
  ∃ out,
    TaskSetResults.AverageRanks None [sample_r1; sample_r2; sample_r3] = Ok out
    ∧ (∀ m, m ∈ Dict.keys out
            ↔ ∀ r, r ∈ [sample_r1; sample_r2; sample_r3] → m ∈ TaskResults.metrics r)
    ∧ (∀ m, m ∈ Dict.keys out →
         ∃ zs, mapM (λ r, TaskResults.Rank r m) [sample_r1; sample_r2; sample_r3] = Ok zs
               ∧ Dict.get m out
                 = Some (Qsum (zip_with (λ z w, (inject_Z z * w)%Q) zs
                                 (uniform_weights 3))))
    ∧ StronglySorted rank_le out.
Proof.
  apply (AverageRanks_intersection None [sample_r1; sample_r2; sample_r3]).
  - discriminate.
  - repeat constructor; apply (bool_decide_unpack _); vm_compute; exact I.
  - intros ws Hws. discriminate Hws.
Defined.

(** ** The divisions by the number of results *)

Lemma foldlM_total {A B} (f : B → A → result B) (l : list A) (b : B) :
  (∀ b x, x ∈ l → is_Ok (f b x)) → is_Ok (foldlM f l b).
Proof.
  revert b. induction l as [|x l IH]; intros b Hf; simpl; [by eexists|].
  destruct (Hf b x) as [b' Hb']; [left|]. rewrite Hb', bind_Ok.
  apply IH. intros b'' y Hy. apply Hf. by right.
Qed.

Lemma gather_ranks_total (rs : list TaskResults.t) (ws : list Q) :
  is_Ok (TaskSetResults.gather_ranks rs ws).
Proof.
  unfold TaskSetResults.gather_ranks. apply foldlM_total.
  intros ranks [r w] _. apply foldlM_total. intros ranks' m Hm. simpl.
  unfold TaskResults.Rank, Dict.item.
  destruct (Dict.get m (TaskResults.corr_ranks r)) as [e|] eqn:E.
  - simpl. by eexists.
  - by apply dict_get_None in E.
Qed.

(** C10: on a set of zero results [AssignWeights] with no attribute and
    [AverageRanks] with no weights both raise a division-by-zero error; on
    every non-empty set the divisor is not zero, [AssignWeights] with no
    attribute returns the uniform weights and [AverageRanks] with no weights
    returns a mapping, the one it returns for the weights 1/count. *)
Theorem uniform_branches_need_results :
  (∀ W, TaskSetResults.AssignWeights [] W [] = Err ZeroDivisionError)
  ∧ TaskSetResults.AverageRanks None [] = Err ZeroDivisionError
  ∧ (∀ W rs, rs ≠ [] →
       ¬ (Qnat (length rs) == 0)%Q
       ∧ TaskSetResults.AssignWeights [] W rs
         = Ok (replicate (length rs) (W / Qnat (length rs))%Q)
       ∧ is_Ok (TaskSetResults.AverageRanks None rs)
       ∧ TaskSetResults.AverageRanks None rs
         = TaskSetResults.AverageRanks (Some (uniform_weights (length rs))) rs).
Proof.
  split; [done|]. split; [done|]. intros W rs Hne.
  assert (Hlen : length rs ≠ 0%nat) by (by destruct rs).
  split; [by apply Qnat_nonzero|]. split; [|split].
  - simpl. by rewrite decide_False.
  - unfold TaskSetResults.AverageRanks. rewrite decide_False by done.
    rewrite bind_Ok.
    destruct (gather_ranks_total rs (replicate (length rs) (1 / Qnat (length rs))%Q))
      as [ranks ->].
    by eexists.
  - by apply AverageRanks_default.
Qed.

Lemma uniform_branches_need_results_witness :
  ¬ (Qnat (length [sample_r1; sample_r2]) == 0)%Q
  ∧ TaskSetResults.AssignWeights [] 1%Q [sample_r1; sample_r2]
    = Ok (replicate 2 (1 / Qnat 2)%Q)
  ∧ is_Ok (TaskSetResults.AverageRanks None [sample_r1; sample_r2])
  ∧ TaskSetResults.AverageRanks None [sample_r1; sample_r2]
    = TaskSetResults.AverageRanks (Some (uniform_weights 2)) [sample_r1; sample_r2].
Proof.
  apply (proj2 (proj2 uniform_branches_need_results) 1%Q [sample_r1; sample_r2]).
  discriminate.
Defined.

(** ** The cartesian product of a task set *)

Lemma product_length {A} (ls : list (list A)) :
  length (TaskSet.product ls) = foldr Nat.mul 1%nat (map length ls).
Proof.
  induction ls as [|l ls IH]; [done|]. cbn [TaskSet.product map foldr].
  rewrite <-IH. generalize (TaskSet.product ls) as ps. intros ps.
  induction l as [|x l IHl]; [done|].
  rewrite bind_cons, length_app, length_fmap, IHl. simpl. lia.
Qed.

Lemma product_elem_length {A} (ls : list (list A)) (vals : list A) :
  vals ∈ TaskSet.product ls → length vals = length ls.
Proof.
  revert vals. induction ls as [|l ls IH]; intros vals; cbn [TaskSet.product].
  - intros ->%list_elem_of_singleton. done.
  - intros (x & (ys & -> & Hys)%list_elem_of_fmap & _)%list_elem_of_bind.
    simpl. f_equal. by apply IH.
Qed.

Lemma product_NoDup {A} (ls : list (list A)) :
  Forall NoDup ls → NoDup (TaskSet.product ls).
Proof.
  induction 1 as [|l ls Hl _ IH]; cbn [TaskSet.product].
  - apply NoDup_singleton.
  - apply NoDup_bind; [| |done].
    + intros x1 x2 ys _ _ (? & -> & _)%list_elem_of_fmap (? & [= -> _] & _)%list_elem_of_fmap.
      done.
    + intros x _. apply NoDup_fmap_2_strong; [|done]. by intros ?? _ _ [= ->].
Qed.

Lemma zip_inj {A B} (ks : list A) (v1 v2 : list B) :
  length v1 = length ks → length v2 = length ks →
  zip ks v1 = zip ks v2 → v1 = v2.
Proof.
  revert v1 v2. induction ks as [|k ks IH]; intros [|x v1] [|y v2] H1 H2 Heq;
    simplify_eq/=; [done|].
  f_equal. by apply IH.
Qed.

Lemma comb_zip (combs : list (string * list pyval)) (vals : list pyval) :
  NoDup (Dict.keys combs) →
  TaskSet.comb combs vals = zip (Dict.keys combs) vals.
Proof.
  intros Hnd. unfold TaskSet.comb. apply dict_of_list_NoDup.
  unfold Dict.keys at 1. eapply sublist_NoDup; [exact Hnd|].
  generalize (Dict.keys combs) as ks. intros ks. revert vals.
  induction ks as [|k ks IH]; intros [|v vals]; simpl;
    [constructor|constructor|apply sublist_nil_l|].
  apply sublist_skip, IH.
Qed.

(** C5, the counterexample: a value list that repeats a value yields two
    tasks built from one and the same combination. *)
Lemma TaskSet_repeated_value :
  ∃ ts c,
    TaskSet.init sample_DATA (Some [("lang", [PStr "en-de"; PStr "en-de"])]) [] = Ok ts
    ∧ length (TaskSet.tasks ts) = 2%nat
    ∧ map (TaskSet.comb [("lang", [PStr "en-de"; PStr "en-de"])])
          (TaskSet.product (Dict.values [("lang", [PStr "en-de"; PStr "en-de"])]))
      = [c; c]
    ∧ TaskSet.tasks ts = [sample_built; sample_built].
Proof.
  eexists _, _. split; [vm_compute; reflexivity|].
  split; [reflexivity|]. split; [vm_compute; reflexivity|]. reflexivity.
Qed.

(** C5, as amended: an absent or empty mapping produces zero tasks; from a
    non-empty mapping whose every combination passes the construction of its
    task, the set holds one task per element of the cartesian product of the
    value lists, in the order of the product and with the fixed attributes
    merged in, so their number is the product of the lengths of the lists;
    the combinations are pairwise distinct when no list repeats a value. *)
Theorem TaskSet_init_product
    (DATA : gmap string (gmap string MetaInfo))
    (combs : list (string * list pyval)) (attrs : list (string * pyval)) :
  TaskSet.init DATA None attrs = Ok (TaskSet.Build [])
  ∧ TaskSet.init DATA (Some []) attrs = Ok (TaskSet.Build [])
  ∧ (combs ≠ [] →
     NoDup (Dict.keys combs) →
     (∀ vals, vals ∈ TaskSet.product (Dict.values combs) →
              is_Ok (Task.init2 DATA (TaskSet.comb combs vals) attrs)) →
     ∃ ts,
       TaskSet.init DATA (Some combs) attrs = Ok ts
       ∧ length (TaskSet.tasks ts)
         = foldr Nat.mul 1%nat (map length (Dict.values combs))
       ∧ Forall2 (λ vals x, Task.init2 DATA (TaskSet.comb combs vals) attrs = Ok x)
                 (TaskSet.product (Dict.values combs)) (TaskSet.tasks ts)
       ∧ (Forall NoDup (Dict.values combs) →
          NoDup (map (TaskSet.comb combs) (TaskSet.product (Dict.values combs))))).
Proof.
  split; [done|]. split; [done|]. intros Hne Hnd Hok.
  assert (Hall : ∃ xs, Forall2 (λ vals x, Task.init2 DATA (TaskSet.comb combs vals) attrs = Ok x)
                         (TaskSet.product (Dict.values combs)) xs).
  { revert Hok. generalize (TaskSet.product (Dict.values combs)) as ps.
    induction ps as [|vals ps IH]; intros Hok; [by exists []|].
    destruct (Hok vals) as [x Hx]; [left|].
    destruct IH as [xs Hxs]; [intros v Hv; apply Hok; by right|].
    exists (x :: xs). by constructor. }
  destruct Hall as [xs Hxs]. exists (TaskSet.Build xs).
  split; [|split; [|split]].
  - unfold TaskSet.init. destruct combs as [|c combs]; [done|].
    apply mapM_result_Ok in Hxs. by rewrite Hxs.
  - simpl. rewrite <-(Forall2_length _ _ _ Hxs). apply product_length.
  - done.
  - intros Hvals. apply NoDup_fmap_2_strong; [|by apply product_NoDup].
    intros v1 v2 H1 H2. rewrite !comb_zip by done.
    apply product_elem_length in H1, H2. unfold Dict.values in H1, H2.
    rewrite length_map in H1, H2.
    apply zip_inj; unfold Dict.keys; rewrite length_map; done.
Qed.

Lemma TaskSet_init_product_witness :
  ∃ ts,
    TaskSet.init sample_DATA
      (Some [("lang", [PStr "en-de"; PStr "zh-en"]);
             ("level", [PStr "sys"; PStr "seg"])]) [("k", PInt 10)] = Ok ts
    ∧ length (TaskSet.tasks ts) = 4%nat.
Proof.
  destruct (proj2 (proj2 (TaskSet_init_product sample_DATA
      [("lang", [PStr "en-de"; PStr "zh-en"]); ("level", [PStr "sys"; PStr "seg"])]
      [("k", PInt 10)]))) as (ts & Hts & Hlen & _).
  - discriminate.
  - apply (bool_decide_unpack _). vm_compute. exact I.
  - intros vals Hvals. simpl in Hvals.
    repeat (apply elem_of_cons in Hvals as [->|Hvals];
            [eexists; vm_compute; reflexivity|]).
    by apply elem_of_nil in Hvals.
  - exists ts. split; [exact Hts | exact Hlen].
Defined.

(** ** Writing and reading results *)

Lemma chunks_concat {A} (n size : nat) (l : list A) :
  length l = (n * size)%nat → concat (chunks n size l) = l.
Proof.
  revert l. induction n as [|n IH]; intros l Hl; simpl in *.
  - by destruct l.
  - rewrite IH; [apply take_drop|]. rewrite length_drop. lia.
Qed.

Lemma chunks_Forall_length {A} (n size : nat) (l : list A) :
  length l = (n * size)%nat → Forall (λ c, length c = size) (chunks n size l).
Proof.
  revert l. induction n as [|n IH]; intros l Hl; simpl in *; [constructor|].
  constructor.
  - rewrite length_take. lia.
  - apply IH. rewrite length_drop. lia.
Qed.

Lemma chunks_length {A} (n size : nat) (l : list A) : length (chunks n size l) = n.
Proof. revert l. induction n as [|n IH]; intros l; simpl; [done|]. by rewrite IH. Qed.

Lemma asarray_JArr (l : list json) :
  asarray (JArr l)
  = subs ← mapM asarray l;
    match subs with
    | [] => Ok (NdArray [0%nat] [])
    | a :: rest =>
        if forallb (λ b, bool_decide (shape b = shape a)) rest
        then Ok (NdArray (length subs :: shape a) (concat (map flat subs)))
        else Err ValueError
    end.
Proof. reflexivity. Qed.

Lemma shape_ok_tail (n : nat) (sh : list nat) : shape_ok (n :: sh) = true → shape_ok sh = true.
Proof.
  simpl. destruct sh as [|m sh]; [done|]. by intros [_ ?]%andb_true_iff.
Qed.

Lemma flat_NdArray (sh : list nat) (cs : list (list pyfloat)) :
  map flat (map (NdArray sh) cs) = cs.
Proof. induction cs as [|c cs IH]; simpl; [done|]. by f_equal. Qed.

Lemma asarray_tolist (sh : list nat) :
  ∀ fl, length fl = dims_size sh → shape_ok sh = true →
        asarray (tolist sh fl) = Ok (NdArray sh fl).
Proof.
  induction sh as [|n sh IH]; intros fl Hlen Hok.
  - destruct fl as [|x [|y fl]]; simplify_eq/=. done.
  - cbn [tolist]. rewrite asarray_JArr.
    change (dims_size (n :: sh)) with (n * dims_size sh)%nat in Hlen.
    assert (Hsubs : mapM asarray (map (tolist sh) (chunks n (dims_size sh) fl))
                    = Ok (map (NdArray sh) (chunks n (dims_size sh) fl))).
    { apply mapM_result_Ok, Forall2_fmap, Forall_Forall2_diag.
      eapply Forall_impl; [by apply chunks_Forall_length|].
      intros c Hc. simpl. apply IH; [done|]. by eapply shape_ok_tail. }
    rewrite Hsubs, bind_Ok. destruct n as [|n].
    + simpl. destruct fl; [|done]. destruct sh as [|m sh]; [done|]. done.
    + pose proof (chunks_length (S n) (dims_size sh) fl) as Hn.
      pose proof (chunks_concat (S n) (dims_size sh) fl Hlen) as Hcat.
      destruct (chunks (S n) (dims_size sh) fl) as [|c cs]; [done|].
      cbn [map shape].
      rewrite (proj2 (forallb_forall _ _)).
      * f_equal. f_equal.
        { simpl in *. rewrite length_map. congruence. }
        change (NdArray sh c :: map (NdArray sh) cs)
          with (map (NdArray sh) (c :: cs)).
        by rewrite flat_NdArray.
      * intros b Hb. apply bool_decide_eq_true.
        apply in_map_iff in Hb as (c' & <- & _). done.
Qed.

Lemma float_eqb_refl (f : pyfloat) : is_number f → float_eqb f f = true.
Proof.
  destruct f as [|q]; [done|]. intros _. simpl. by apply Qeq_bool_iff.
Qed.

Lemma forallb2_float_refl (l : list pyfloat) :
  Forall is_number l → forallb2 float_eqb l l = true.
Proof.
  induction 1 as [|f l Hf _ IH]; simpl; [done|]. by rewrite float_eqb_refl, IH.
Qed.

Lemma read_written_corr_ranks (d : list (string * TaskResults.entry)) :
  TaskResults.read_corr_ranks
    (JObj (map (λ kv, (fst kv, TaskResults.entry_json (snd kv))) d))
  = Ok (map (λ kv, (fst kv, as_list (snd kv))) d).
Proof.
  unfold TaskResults.read_corr_ranks.
  apply mapM_result_Ok, Forall2_fmap, Forall_Forall2_diag, Forall_forall.
  by intros [m [kd c r]] _.
Qed.

Lemma Read_Write (x : TaskResults.t) :
  array_wf (TaskResults.matrix x) →
  shape_ok (shape (TaskResults.matrix x)) = true →
  TaskResults.Read (TaskResults.Write x)
  = Ok (TaskResults.Build (TaskResults.name x) (TaskResults.pval x)
          (map (λ kv, (fst kv, as_list (snd kv))) (TaskResults.corr_ranks x))
          (TaskResults.matrix x)).
Proof.
  intros Hwf Hok. unfold TaskResults.Read, TaskResults.Write.
  cbn [TaskResults.read_str TaskResults.read_float]. rewrite !bind_Ok.
  rewrite read_written_corr_ranks, bind_Ok.
  rewrite asarray_tolist by done. rewrite bind_Ok. by destruct (TaskResults.matrix x).
Qed.

Lemma as_list_id (d : list (string * TaskResults.entry)) :
  Forall (λ kv, TaskResults.kind (snd kv) = TaskResults.KList) d →
  map (λ kv, (fst kv, as_list (snd kv))) d = d.
Proof.
  induction 1 as [|[m [kd c r]] d Hk _ IH]; simpl in *; [done|].
  rewrite IH. by subst.
Qed.

Lemma dict_eqb_refl (d : list (string * TaskResults.entry)) :
  NoDup (Dict.keys d) →
  Forall (λ kv, is_number (TaskResults.corr (snd kv))) d →
  TaskResults.dict_eqb d d = true.
Proof.
  intros Hnd Hnum. unfold TaskResults.dict_eqb.
  rewrite bool_decide_eq_true_2 by done. simpl.
  apply forallb_forall. intros [m e] Hin%list_elem_of_In.
  rewrite Forall_forall in Hnum. specialize (Hnum _ Hin). simpl in *.
  rewrite (dict_get_NoDup m e d Hnd Hin). unfold TaskResults.entry_eqb.
  by rewrite !bool_decide_eq_true_2, float_eqb_refl.
Qed.

(** C4, the counterexample: results whose rank mapping holds a tuple are
    written and read back, and the results read are not equal to the ones
    written: the tuple has come back as a list. *)
Lemma Write_Read_tuple_entry :
  ∃ y, TaskResults.Read (TaskResults.Write sample_tuple_result) = Ok y
       ∧ TaskResults.corr_ranks y
         = [("metricA", TaskResults.Entry TaskResults.KList (FNum (1 # 2)) 1%Z)]
       ∧ TaskResults.eqb sample_tuple_result y = false.
Proof. eexists. split; [vm_compute; reflexivity|]. split; reflexivity. Qed.

(** C4, as amended: for results whose matrix has no empty axis except
    possibly the last, writing then reading succeeds and gives back the same
    name, threshold and matrix, and the same rank mapping with every entry
    held in a list; when the entries of the results written are lists already
    and the results hold no not-a-number, the results read are equal to them
    under [__eq__]. *)
Theorem Write_Read_roundtrip (x : TaskResults.t) :
  array_wf (TaskResults.matrix x) →
  shape_ok (shape (TaskResults.matrix x)) = true →
  ∃ y,
    TaskResults.Read (TaskResults.Write x) = Ok y
    ∧ TaskResults.name y = TaskResults.name x
    ∧ TaskResults.pval y = TaskResults.pval x
    ∧ TaskResults.matrix y = TaskResults.matrix x
    ∧ TaskResults.corr_ranks y
      = map (λ kv, (fst kv, as_list (snd kv))) (TaskResults.corr_ranks x)
    ∧ (NoDup (TaskResults.metrics x) →
       Forall (λ kv, TaskResults.kind (snd kv) = TaskResults.KList)
              (TaskResults.corr_ranks x) →
       is_number (TaskResults.pval x) →
       Forall (λ kv, is_number (TaskResults.corr (snd kv))) (TaskResults.corr_ranks x) →
       Forall is_number (flat (TaskResults.matrix x)) →
       y = x ∧ TaskResults.eqb x y = true).
Proof.
  intros Hwf Hok. eexists. split; [by apply Read_Write|].
  cbn [TaskResults.name TaskResults.pval TaskResults.matrix TaskResults.corr_ranks].
  do 4 (split; [done|]).
  intros Hnd Hlist Hp Hc Hm. rewrite as_list_id by done.
  split; [by destruct x|].
  unfold TaskResults.eqb. simpl.
  rewrite bool_decide_eq_true_2 by done.
  rewrite float_eqb_refl, dict_eqb_refl by done. simpl.
  unfold array_equal. rewrite bool_decide_eq_true_2 by done.
  by apply forallb2_float_refl.
Qed.

Lemma Write_Read_roundtrip_witness :
  ∃ y,
    TaskResults.Read (TaskResults.Write sample_list_result) = Ok y
    ∧ y = sample_list_result
    ∧ TaskResults.eqb sample_list_result y = true.
Proof.
  destruct (Write_Read_roundtrip sample_list_result) as (y & Hy & _ & _ & _ & _ & Heq).
  - reflexivity.
  - reflexivity.
  - exists y. split; [exact Hy|]. apply Heq.
    + apply (bool_decide_unpack _). vm_compute. exact I.
    + repeat constructor.
    + discriminate.
    + repeat constructor; discriminate.
    + repeat constructor; discriminate.
Defined.

(** ** Further behaviour at the edges of the statements above *)

(** An attribute that a result's name does not carry makes [AssignWeights]
    raise. *)
Lemma AssignWeights_missing_attribute :
  TaskSetResults.AssignWeights ["domain"] 1%Q [sample_r1] = Err KeyError.
Proof. vm_compute. reflexivity. Qed.

(** With fewer weights than results no metric gathers a rank from every
    result, and the mapping is empty. *)
Lemma AverageRanks_short_weights :
  TaskSetResults.AverageRanks (Some [1%Q]) [sample_r1; sample_r2] = Ok [].
Proof. vm_compute. reflexivity. Qed.

(** A combination that fails the validation of its task makes the
    construction of the whole set fail. *)
Lemma TaskSet_invalid_combination :
  TaskSet.init sample_DATA (Some [("lang", [PStr "en-de"; PStr "xx-yy"])]) []
  = Err AssertionError.
Proof. vm_compute. reflexivity. Qed.

(** A matrix with no row and no column is written as the empty list, which
    is read back as a one-dimensional empty array. *)
Lemma Write_Read_empty_square_matrix :
  ∃ y, TaskResults.Read (TaskResults.Write
         (TaskResults.Build "" (FNum 0) [] (NdArray [0%nat; 0%nat] []))) = Ok y
       ∧ shape (TaskResults.matrix y) = [0%nat]
       ∧ TaskResults.eqb (TaskResults.Build "" (FNum 0) [] (NdArray [0%nat; 0%nat] [])) y
         = false.
Proof. eexists. split; [vm_compute; reflexivity|]. split; reflexivity. Qed.

(** The empty results of [TaskResults()] survive the round trip. *)
Lemma Write_Read_empty :
  TaskResults.Read (TaskResults.Write TaskResults.empty) = Ok TaskResults.empty.
Proof. vm_compute. reflexivity. Qed.

(** * Further properties of the classes *)

(** ** The sorted argument map *)

Lemma py_sorted_sorted {A} (R : relation A) `{!RelDecision R} (l : list A) :
  StronglySorted R l → py_sorted R l = l.
Proof.
  induction 1 as [|x l Hl IH Hx]; simpl; [done|].
  rewrite IH. destruct Hx as [|y l' Hxy _]; simpl; [done|].
  by rewrite decide_True.
Qed.

Lemma dict_set_keys {V} (k : string) (v : V) (d : list (string * V)) :
  Dict.keys (Dict.set k v d)
  = if decide (k ∈ Dict.keys d) then Dict.keys d else Dict.keys d ++ [k].
Proof.
  induction d as [|[k' v'] d IH]; simpl; [done|].
  destruct (decide (k = k')) as [->|Hne]; simpl.
  - by rewrite decide_True by left.
  - rewrite IH. destruct (decide (k ∈ Dict.keys d)) as [Hin|Hin].
    + by rewrite decide_True by (by right).
    + by rewrite decide_False by (rewrite elem_of_cons; naive_solver).
Qed.

Lemma dict_of_list_keys {V} (l : list (string * V)) :
  Dict.keys (Dict.of_list l) = nub (Dict.keys l).
Proof.
  unfold Dict.of_list. induction l as [|[k v] l IH] using rev_ind; [done|].
  rewrite fold_left_app. simpl. rewrite dict_set_keys, IH.
  replace (Dict.keys (l ++ [(k, v)])) with (Dict.keys l ++ [k])
    by (unfold Dict.keys; by rewrite map_app).
  rewrite nub_snoc.
  destruct (decide (k ∈ nub (Dict.keys l))) as [Hin|Hin].
  - rewrite decide_True; [done|]. by apply nub_elem_of.
  - rewrite decide_False; [done|]. by rewrite <-nub_elem_of.
Qed.

Lemma dict_of_list_keys_NoDup {V} (l : list (string * V)) :
  NoDup (Dict.keys (Dict.of_list l)).
Proof. rewrite dict_of_list_keys. apply nub_NoDup. Qed.

Lemma nub_sublist (l : list string) : nub l `sublist_of` l.
Proof.
  induction l as [|x l IH]; simpl; [done|].
  apply sublist_skip. etrans; [apply sublist_filter|done].
Qed.

Lemma StronglySorted_sublist {A} (R : relation A) (l k : list A) :
  l `sublist_of` k → StronglySorted R k → StronglySorted R l.
Proof.
  intros Hsub Hk. revert l Hsub.
  induction Hk as [|x k Hk IH Hx]; intros l Hsub.
  - apply sublist_nil_r in Hsub as ->. constructor.
  - apply sublist_cons_r in Hsub as [Hsub|(l' & -> & Hsub)]; [by apply IH|].
    constructor; [by apply IH|].
    rewrite Forall_forall in Hx. apply Forall_forall. intros y Hy. apply Hx.
    by eapply elem_of_sublist.
Qed.

Lemma item_le_keys (d : list (string * pyval)) :
  StronglySorted item_le d ↔ StronglySorted String.le (Dict.keys d).
Proof.
  unfold Dict.keys. induction d as [|[k v] d IH]; simpl.
  - split; constructor.
  - split; intros H.
    + apply StronglySorted_inv in H as [Hd Hk]. constructor; [by apply IH|].
      apply Forall_fmap. eapply Forall_impl; [exact Hk|]. by intros [??].
    + apply StronglySorted_inv in H as [Hd Hk]. constructor; [by apply IH|].
      rewrite Forall_fmap in Hk. eapply Forall_impl; [exact Hk|]. by intros [??].
Qed.

Lemma sorted_items_sorted (l : list (string * pyval)) :
  StronglySorted item_le (sorted_items l).
Proof.
  unfold sorted_items. apply item_le_keys. rewrite dict_of_list_keys.
  eapply StronglySorted_sublist; [apply nub_sublist|].
  apply item_le_keys, py_sorted_StronglySorted; apply _.
Qed.

Lemma sorted_items_idem (l : list (string * pyval)) :
  sorted_items (sorted_items l) = sorted_items l.
Proof.
  unfold sorted_items at 1. rewrite py_sorted_sorted by apply sorted_items_sorted.
  apply dict_of_list_NoDup. unfold sorted_items. apply dict_of_list_keys_NoDup.
Qed.

Lemma sorted_items_NoDup_Permutation (l : list (string * pyval)) :
  NoDup (Dict.keys l) → sorted_items l ≡ₚ l.
Proof.
  intros Hnd. unfold sorted_items. rewrite dict_of_list_NoDup.
  - apply py_sorted_Permutation.
  - unfold Dict.keys. by rewrite py_sorted_Permutation.
Qed.

(** ** The name and the order of the arguments *)





(** ** What a constructed task guarantees *)

Lemma assert_len_Ok (v : pyval) (n : nat) (u : unit) :
  Task.assert_len v n = Ok u ↔ py_len v = Ok n.
Proof.
  unfold Task.assert_len. destruct (py_len v) as [m|e]; simpl; [|done].
  destruct u. split.
  - intros H%py_assert_Ok. apply bool_decide_eq_true in H. by subst.
  - intros [= ->]. by rewrite bool_decide_eq_true_2.
Qed.

Lemma post_init_accuracy_inv (DATA : gmap string (gmap string MetaInfo))
    (x y : Task.t) (subs : list string) :
  Task.post_init_accuracy DATA x subs = Ok y →
  Task.level x = "sys"
  ∧ Forall (λ sl, ∃ ds, DATA !! Task.test_set x = Some ds ∧ is_Some (ds !! sl)) subs
  ∧ ∃ g r c,
      (if is_none (Task.gold x)
       then PList <$> mapM (λ sl, PStr <$> Task._StdGold DATA x sl (Task.level x)) subs
       else Ok (Task.gold x)) = Ok g
      ∧ (if is_none (Task.refs x)
         then PList <$> mapM (λ sl, Task._StdRefs DATA x sl) subs
         else Ok (Task.refs x)) = Ok r
      ∧ c = (if is_none (Task.close_refs x)
             then PList (map (λ _, PSet []) subs) else Task.close_refs x)
      ∧ py_len g = Ok (length subs)
      ∧ py_len r = Ok (length subs)
      ∧ py_len c = Ok (length subs)
      ∧ y = Task.set_close_refs c (Task.set_refs r (Task.set_gold g x)).
Proof.
  unfold Task.post_init_accuracy. intros H.
  apply bind_inv_Ok in H as ([] & Hlevel & H).
  apply bind_inv_Ok in H as (us & Hknown & H).
  apply bind_inv_Ok in H as (g & Hg & H).
  apply bind_inv_Ok in H as (r & Hr & H).
  apply bind_inv_Ok in H as (c & Hc & H).
  apply bind_inv_Ok in H as ([] & Hlg & H).
  apply bind_inv_Ok in H as ([] & Hlr & H).
  apply bind_inv_Ok in H as ([] & Hlc & H).
  injection H as <-.
  split; [by apply py_assert_Ok, bool_decide_eq_true in Hlevel|].
  split.
  - apply mapM_result_Ok in Hknown. clear -Hknown.
    induction Hknown as [|sl u subs us Hsl _ IH]; constructor; [|done].
    apply bind_inv_Ok in Hsl as (ds & Hds & Hsl).
    unfold lookupK in Hds. destruct (DATA !! Task.test_set x) as [ds'|] eqn:E; [|done].
    injection Hds as ->. exists ds. split; [done|].
    by apply py_assert_Ok, bool_decide_eq_true in Hsl.
  - exists g, r, c. split; [done|]. split; [done|]. split.
    { destruct (is_none (Task.close_refs x)); by injection Hc. }
    by rewrite <-!(assert_len_Ok _ _ ()).
Qed.

Lemma post_init_standard_inv (DATA : gmap string (gmap string MetaInfo))
    (x y : Task.t) (subs : list string) :
  Task.post_init_standard DATA x subs = Ok y →
  length subs = 1%nat
  ∧ ∃ ds mi g r c,
      DATA !! Task.test_set x = Some ds
      ∧ ds !! Task.lang x = Some mi
      ∧ is_Some (std_gold mi !! Task.level x)
      ∧ (if is_none (Task.gold x)
         then PStr <$> Task._StdGold DATA x (Task.lang x) (Task.level x)
         else Ok (Task.gold x)) = Ok g
      ∧ (if is_none (Task.refs x) then Task._StdRefs DATA x (Task.lang x)
         else Ok (Task.refs x)) = Ok r
      ∧ c = (if is_none (Task.close_refs x) then PSet [] else Task.close_refs x)
      ∧ isinstance_str g = true
      ∧ isinstance_set r = true
      ∧ isinstance_set c = true
      ∧ y = Task.set_close_refs c (Task.set_refs r (Task.set_gold g x)).
Proof.
  unfold Task.post_init_standard. intros H.
  apply bind_inv_Ok in H as ([] & Hlen & H).
  apply bind_inv_Ok in H as (ds & Hds & H).
  apply bind_inv_Ok in H as ([] & Hlang & H).
  apply bind_inv_Ok in H as (mi & Hmi & H).
  apply bind_inv_Ok in H as ([] & Hlevel & H).
  apply bind_inv_Ok in H as (g & Hg & H).
  apply bind_inv_Ok in H as (r & Hr & H).
  apply bind_inv_Ok in H as (c & Hc & H).
  apply bind_inv_Ok in H as ([] & Hig & H).
  apply bind_inv_Ok in H as ([] & Hir & H).
  apply bind_inv_Ok in H as ([] & Hic & H).
  injection H as <-.
  split; [by apply py_assert_Ok, bool_decide_eq_true in Hlen|].
  unfold lookupK in Hds, Hmi.
  destruct (DATA !! Task.test_set x) as [ds'|] eqn:Eds; [|done]. injection Hds as ->.
  destruct (ds !! Task.lang x) as [mi'|] eqn:Emi; [|done]. injection Hmi as ->.
  exists ds, mi, g, r, c. split; [done|]. split; [done|].
  split; [by apply py_assert_Ok, bool_decide_eq_true in Hlevel|].
  split; [done|]. split; [done|]. split.
  { destruct (is_none (Task.close_refs x)); by injection Hc. }
  split; [by apply py_assert_Ok in Hig|].
  split; [by apply py_assert_Ok in Hir|].
  split; [by apply py_assert_Ok in Hic|]. done.
Qed.

Lemma post_init_inv (DATA : gmap string (gmap string MetaInfo)) (x y : Task.t) :
  Task.post_init DATA x = Ok y →
  is_Some (DATA !! Task.test_set x)
  ∧ Task.corr_fcn x ∈ CORRELATION_FUNCTIONS
  ∧ ∃ y',
      (if decide (Task.corr_fcn x = "accuracy")
       then Task.post_init_accuracy DATA x (py_split "," (Task.lang x))
       else Task.post_init_standard DATA x (py_split "," (Task.lang x))) = Ok y'
      ∧ y = Task.set_corr_fcn_args
              (Some (sorted_items (default [] (Task.corr_fcn_args x)))) y'.
Proof.
  unfold Task.post_init. intros H.
  apply bind_inv_Ok in H as ([] & Hts & H).
  apply bind_inv_Ok in H as ([] & Hcf & H).
  apply bind_inv_Ok in H as (y' & Hy' & H).
  injection H as <-.
  split; [by apply py_assert_Ok, bool_decide_eq_true in Hts|].
  split; [by apply py_assert_Ok, bool_decide_eq_true in Hcf|].
  exists y'. split; [done|].
  rewrite (post_init_branch_args DATA x y' (py_split "," (Task.lang x))); [done|].
  destruct (decide _); auto.
Qed.

(** X1: [__post_init__] touches only gold, refs, close_refs and the
    correlation-function arguments: every other field of the constructed
    task is the one given, and a gold, refs or close_refs that was given
    (not None) is kept as it is. *)
Theorem post_init_keeps_fields
    (DATA : gmap string (gmap string MetaInfo)) (x y : Task.t) :
  Task.post_init DATA x = Ok y →
  (Task.test_set y = Task.test_set x ∧ Task.lang y = Task.lang x
   ∧ Task.domain y = Task.domain x ∧ Task.level y = Task.level x
   ∧ Task.human y = Task.human x ∧ Task.avg_by y = Task.avg_by x
   ∧ Task.corr_fcn y = Task.corr_fcn x ∧ Task.k y = Task.k x
   ∧ Task.use_outliers y = Task.use_outliers x ∧ Task.primary y = Task.primary x
   ∧ Task.pval y = Task.pval x ∧ Task.block_size y = Task.block_size x
   ∧ Task.early_min y = Task.early_min x ∧ Task.early_max y = Task.early_max x
   ∧ Task.replace_nans_with_zeros y = Task.replace_nans_with_zeros x
   ∧ Task.perm_test y = Task.perm_test x)
  ∧ (is_none (Task.gold x) = false → Task.gold y = Task.gold x)
  ∧ (is_none (Task.refs x) = false → Task.refs y = Task.refs x)
  ∧ (is_none (Task.close_refs x) = false → Task.close_refs y = Task.close_refs x).
Proof.
  intros H. apply post_init_inv in H as (_ & _ & y' & Hy' & ->).
  destruct (decide (Task.corr_fcn x = "accuracy")).
  - apply post_init_accuracy_inv in Hy'
      as (_ & _ & g & r & c & Hg & Hr & -> & _ & _ & _ & ->).
    split; [done|]. simpl. split; [|split].
    + intros Hn. rewrite Hn in Hg. by injection Hg.
    + intros Hn. rewrite Hn in Hr. by injection Hr.
    + by intros ->.
  - apply post_init_standard_inv in Hy'
      as (_ & ds & mi & g & r & c & _ & _ & _ & Hg & Hr & -> & _ & _ & _ & ->).
    split; [done|]. simpl. split; [|split].
    + intros Hn. rewrite Hn in Hg. by injection Hg.
    + intros Hn. rewrite Hn in Hr. by injection Hr.
    + by intros ->.
Qed.

Lemma post_init_keeps_fields_witness :
  Task.lang sample_built = "en-de" ∧ Task.k sample_built = 1000%Z.
Proof.
  destruct (post_init_keeps_fields sample_DATA
              (sample_task "en-de" "pearson" "sys" None) sample_built)
    as [(_ & Hlang & _ & _ & _ & _ & _ & Hk & _) _].
  - vm_compute. reflexivity.
  - split; [exact Hlang | exact Hk].
Defined.

(** X2: the correlation-function arguments of a constructed task are a
    dictionary with distinct keys in ascending order; it is empty when no
    arguments were given, and holds exactly the items given otherwise. *)
Theorem post_init_sorts_arguments
    (DATA : gmap string (gmap string MetaInfo)) (x y : Task.t) :
  Task.post_init DATA x = Ok y →
  ∃ args,
    Task.corr_fcn_args y = Some args
    ∧ StronglySorted String.le (Dict.keys args)
    ∧ NoDup (Dict.keys args)
    ∧ (Task.corr_fcn_args x = None → args = [])
    ∧ (NoDup (Dict.keys (default [] (Task.corr_fcn_args x))) →
       args ≡ₚ default [] (Task.corr_fcn_args x)).
Proof.
  intros H. apply post_init_args in H. eexists. split; [exact H|].
  split; [apply item_le_keys, sorted_items_sorted|].
  split; [apply dict_of_list_keys_NoDup|].
  split; [by intros ->|]. apply sorted_items_NoDup_Permutation.
Qed.

Lemma post_init_sorts_arguments_witness :
  ∃ y args,
    Task.post_init sample_DATA
      (sample_task_args [("thresh", PFloat (FNum (1 # 2))); ("b", PInt (-3))]) = Ok y
    ∧ Task.corr_fcn_args y = Some args
    ∧ StronglySorted String.le (Dict.keys args)
    ∧ NoDup (Dict.keys args).
Proof.
  eexists _. 
  destruct (post_init_sorts_arguments sample_DATA
              (sample_task_args [("thresh", PFloat (FNum (1 # 2))); ("b", PInt (-3))])
              _ ltac:(vm_compute; reflexivity))
    as (args & Hargs & Hsorted & Hnd & _).
  exists args. split; [vm_compute; reflexivity|]. split; [exact Hargs|].
  split; [exact Hsorted | exact Hnd].
Defined.

(** X3: constructing again from a constructed task changes nothing: the
    checks pass and the filled-in fields and the sorted arguments are
    fixed points of [__post_init__]. *)
Theorem post_init_idempotent
    (DATA : gmap string (gmap string MetaInfo)) (x y : Task.t) :
  Task.post_init DATA x = Ok y → Task.post_init DATA y = Ok y.
Proof.
  intros H. apply post_init_inv in H as (Hts & Hcf & y' & Hy' & ->).
  unfold Task.post_init.
  destruct (decide (Task.corr_fcn x = "accuracy")) as [Hacc|Hstd].
  - apply post_init_accuracy_inv in Hy'
      as (Hlevel & Hknown & g & r & c & Hg & Hr & Hc & Hlg & Hlr & Hlc & ->).
    assert (Hng : is_none g = false).
    { destruct (is_none (Task.gold x)) eqn:E; [|by injection Hg as <-].
      apply fmap_inv_Ok in Hg as (? & _ & ->). done. }
    assert (Hnr : is_none r = false).
    { destruct (is_none (Task.refs x)) eqn:E; [|by injection Hr as <-].
      apply fmap_inv_Ok in Hr as (? & _ & ->). done. }
    assert (Hnc : is_none c = false).
    { destruct (is_none (Task.close_refs x)) eqn:E; by subst. }
    destruct x; simpl in *.
    rewrite !bool_decide_eq_true_2 by done. simpl.
    rewrite decide_True by done. unfold Task.post_init_accuracy. simpl.
    rewrite bool_decide_eq_true_2 by done. simpl.
    rewrite (mapM_result_total _ (λ _, ())).
    2:{ eapply Forall_impl; [exact Hknown|]. intros sl (ds & Hds & Hsl). simpl.
        unfold lookupK. rewrite Hds. simpl. by rewrite bool_decide_eq_true_2. }
    simpl. rewrite Hng, Hnr, Hnc. simpl.
    unfold Task.assert_len. rewrite Hlg, Hlr, Hlc. simpl.
    rewrite !bool_decide_eq_true_2 by done. simpl.
    rewrite sorted_items_idem. reflexivity.
  - apply post_init_standard_inv in Hy'
      as (Hlen & ds & mi & g & r & c & Hds & Hmi & Hlv & Hg & Hr & Hc & Hig & Hir & Hic & ->).
    assert (Hng : is_none g = false) by (by destruct g).
    assert (Hnr : is_none r = false) by (by destruct r).
    assert (Hnc : is_none c = false) by (by destruct c).
    destruct x; simpl in *.
    rewrite !bool_decide_eq_true_2 by done. simpl.
    rewrite decide_False by done. unfold Task.post_init_standard. simpl.
    rewrite bool_decide_eq_true_2 by done. simpl.
    unfold lookupK. rewrite Hds. simpl. rewrite Hmi.
    rewrite bool_decide_eq_true_2 by done. simpl.
    rewrite bool_decide_eq_true_2 by done. simpl.
    rewrite Hng, Hnr, Hnc. simpl. rewrite Hig, Hir, Hic. simpl.
    rewrite sorted_items_idem. reflexivity.
Qed.

Lemma post_init_idempotent_witness :
  Task.post_init sample_DATA sample_built = Ok sample_built.
Proof.
  apply (post_init_idempotent sample_DATA (sample_task "en-de" "pearson" "sys" None)).
  vm_compute. reflexivity.
Defined.

(** X4: a task constructed in standard mode names one language pair that the
    table knows for its test set, with a standard gold for its level; its
    gold is a string and its refs and close_refs are sets, and those left
    unset are the standard gold of the level, the set of the standard
    reference, and the empty set. *)
Theorem standard_task_shape
    (DATA : gmap string (gmap string MetaInfo)) (x y : Task.t) :
  Task.post_init DATA x = Ok y →
  Task.corr_fcn x ≠ "accuracy" →
  str_mem "," (Task.lang y) = false
  ∧ isinstance_str (Task.gold y) = true
  ∧ isinstance_set (Task.refs y) = true
  ∧ isinstance_set (Task.close_refs y) = true
  ∧ ∃ ds mi g,
      DATA !! Task.test_set y = Some ds
      ∧ ds !! Task.lang y = Some mi
      ∧ std_gold mi !! Task.level y = Some g
      ∧ (Task.gold x = PNone → Task.gold y = PStr g)
      ∧ (Task.refs x = PNone → Task.refs y = PSet [PStr (std_ref mi)])
      ∧ (Task.close_refs x = PNone → Task.close_refs y = PSet []).
Proof.
  intros H Hstd. apply post_init_inv in H as (_ & _ & y' & Hy' & ->).
  rewrite decide_False in Hy' by done.
  apply post_init_standard_inv in Hy'
    as (Hlen & ds & mi & g & r & c & Hds & Hmi & [g0 Hg0] & Hg & Hr & -> & Hig & Hir & Hic & ->).
  simpl. split.
  { destruct (str_mem "," (Task.lang x)) eqn:E; [|done].
    apply split_length_sep in E. lia. }
  do 3 (split; [done|]). exists ds, mi, g0. do 3 (split; [done|]).
  split; [|split].
  - intros Hn. rewrite Hn in Hg. simpl in Hg.
    unfold Task._StdGold, lookupK in Hg. rewrite Hds in Hg. simpl in Hg.
    rewrite Hmi in Hg. simpl in Hg. rewrite Hg0 in Hg. simpl in Hg. by injection Hg.
  - intros Hn. rewrite Hn in Hr. simpl in Hr.
    unfold Task._StdRefs, lookupK in Hr. rewrite Hds in Hr. simpl in Hr.
    rewrite Hmi in Hr. simpl in Hr. by injection Hr.
  - by intros ->.
Qed.

Lemma standard_task_shape_witness :
  str_mem "," (Task.lang sample_built) = false
  ∧ isinstance_str (Task.gold sample_built) = true
  ∧ isinstance_set (Task.refs sample_built) = true
  ∧ isinstance_set (Task.close_refs sample_built) = true.
Proof.
  destruct (standard_task_shape sample_DATA
              (sample_task "en-de" "pearson" "sys" None) sample_built)
    as (H1 & H2 & H3 & H4 & _).
  - vm_compute. reflexivity.
  - simpl. discriminate.
  - repeat split; assumption.
Defined.

(** X5: a task constructed in accuracy mode is system-level, every language
    pair of its language field is known to the table for its test set, and
    its gold, refs and close_refs each have as many elements as there are
    language pairs; close_refs left unset is one empty set per pair. *)
Theorem accuracy_task_shape
    (DATA : gmap string (gmap string MetaInfo)) (x y : Task.t) :
  Task.post_init DATA x = Ok y →
  Task.corr_fcn x = "accuracy" →
  Task.level y = "sys"
  ∧ Forall (λ sl, ∃ ds, DATA !! Task.test_set y = Some ds ∧ is_Some (ds !! sl))
           (py_split "," (Task.lang y))
  ∧ py_len (Task.gold y) = Ok (length (py_split "," (Task.lang y)))
  ∧ py_len (Task.refs y) = Ok (length (py_split "," (Task.lang y)))
  ∧ py_len (Task.close_refs y) = Ok (length (py_split "," (Task.lang y)))
  ∧ (Task.close_refs x = PNone →
     Task.close_refs y
     = PList (replicate (length (py_split "," (Task.lang y))) (PSet []))).
Proof.
  intros H Hacc. apply post_init_inv in H as (_ & _ & y' & Hy' & ->).
  rewrite decide_True in Hy' by done.
  apply post_init_accuracy_inv in Hy'
    as (Hlevel & Hknown & g & r & c & Hg & Hr & -> & Hlg & Hlr & Hlc & ->).
  simpl. do 5 (split; [done|]). intros ->. simpl. f_equal.
  apply map_const_replicate.
Qed.

Lemma accuracy_task_shape_witness :
  ∃ y,
    Task.post_init sample_DATA (sample_task "en-de,zh-en" "accuracy" "sys" None) = Ok y
    ∧ py_len (Task.gold y) = Ok 2%nat
    ∧ py_len (Task.refs y) = Ok 2%nat
    ∧ Task.close_refs y = PList [PSet []; PSet []].
Proof.
  eexists.
  destruct (accuracy_task_shape sample_DATA
              (sample_task "en-de,zh-en" "accuracy" "sys" None)
              _ ltac:(vm_compute; reflexivity) eq_refl)
    as (_ & _ & Hg & Hr & _ & Hc).
  split; [vm_compute; reflexivity|]. split; [exact Hg|]. split; [exact Hr|].
  exact (Hc eq_refl).
Defined.

(** X6: a test set that the table does not know and a correlation function
    that is not one of the recognised ones are both refused with an
    assertion error, in either mode. *)
Theorem post_init_unknown_rejected
    (DATA : gmap string (gmap string MetaInfo)) (x : Task.t) :
  DATA !! Task.test_set x = None ∨ Task.corr_fcn x ∉ CORRELATION_FUNCTIONS →
  Task.post_init DATA x = Err AssertionError.
Proof.
  intros [Hts|Hcf]; unfold Task.post_init.
  - rewrite (bool_decide_eq_false_2 (is_Some (DATA !! Task.test_set x))); [done|].
    rewrite Hts. by intros [? ?].
  - destruct (bool_decide (is_Some (DATA !! Task.test_set x))); [|done].
    by rewrite (bool_decide_eq_false_2 (Task.corr_fcn x ∈ CORRELATION_FUNCTIONS)).
Qed.

Lemma post_init_unknown_rejected_witness :
  Task.post_init sample_DATA (sample_task "en-de" "cosine" "sys" None)
  = Err AssertionError.
Proof.
  apply post_init_unknown_rejected. right.
  apply (bool_decide_unpack _). vm_compute. exact I.
Defined.

Lemma py_assert_cases (c : bool) :
  (c = true ∧ py_assert c = Ok ()) ∨ (c = false ∧ py_assert c = Err AssertionError).
Proof. destruct c; auto. Qed.

(** X7: on a task whose fields hold values of their annotated types, in
    standard mode, [__post_init__] never fails in any other way than by an
    assertion error: no lookup in the table is made before the assertion
    that guards it.  What the generated [__init__] raises before it, and a
    field of another type, are outside this statement. *)
Theorem standard_mode_fails_by_assertion
    (DATA : gmap string (gmap string MetaInfo)) (x : Task.t) (e : exn) :
  Task.corr_fcn x ≠ "accuracy" →
  Task.post_init DATA x = Err e →
  e = AssertionError.
Proof.
  intros Hstd. unfold Task.post_init.
  destruct (py_assert_cases (bool_decide (is_Some (DATA !! Task.test_set x))))
    as [[Hts ->]|[_ ->]]; [|by intros [= <-]].
  destruct (py_assert_cases (bool_decide (Task.corr_fcn x ∈ CORRELATION_FUNCTIONS)))
    as [[_ ->]|[_ ->]]; [|by intros [= <-]].
  simpl. rewrite decide_False by done. unfold Task.post_init_standard.
  destruct (py_assert_cases (bool_decide (length (py_split "," (Task.lang x)) = 1%nat)))
    as [[_ ->]|[_ ->]]; [|by intros [= <-]].
  apply bool_decide_eq_true in Hts as [ds Hds].
  simpl. unfold lookupK. rewrite Hds. simpl.
  destruct (py_assert_cases (bool_decide (is_Some (ds !! Task.lang x))))
    as [[Hlang ->]|[_ ->]]; [|by intros [= <-]].
  apply bool_decide_eq_true in Hlang as [mi Hmi].
  simpl. rewrite Hmi. simpl.
  destruct (py_assert_cases (bool_decide (is_Some (std_gold mi !! Task.level x))))
    as [[Hlevel ->]|[_ ->]]; [|by intros [= <-]].
  apply bool_decide_eq_true in Hlevel as [g Hg].
  simpl. unfold Task._StdGold, Task._StdRefs, lookupK.
  rewrite Hds. simpl. rewrite Hmi. simpl. rewrite Hg. simpl.
  destruct (is_none (Task.gold x)), (is_none (Task.refs x)),
    (is_none (Task.close_refs x)); simpl;
    repeat match goal with
           | |- context [py_assert ?c] =>
               destruct (py_assert_cases c) as [[_ ->]|[_ ->]]; simpl
           end; by intros [= <-].
Qed.

Lemma standard_mode_fails_by_assertion_witness :
  ∃ e, Task.post_init sample_DATA (sample_task "xx-yy" "pearson" "sys" None) = Err e
       ∧ e = AssertionError.
Proof.
  eexists. split; [vm_compute; reflexivity|].
  apply (standard_mode_fails_by_assertion sample_DATA
           (sample_task "xx-yy" "pearson" "sys" None)).
  - simpl. discriminate.
  - vm_compute. reflexivity.
Defined.

(** In accuracy mode a missing system-level standard gold is met by the
    lookup itself, which raises a key error. *)
Lemma accuracy_mode_missing_gold :
  Task.post_init
    {[ "wmt22" := {[ "en-de" := {| std_gold := {[ "seg" := "mqm" ]}; std_ref := "refA" |} ]} ]}
    (sample_task "en-de" "accuracy" "sys" None)
  = Err KeyError.
Proof. vm_compute. reflexivity. Qed.

(** ** The pieces of the name *)

Lemma remove_spaces_no_space (s : string) : str_mem " " (remove_spaces s) = false.
Proof.
  induction s as [|c s IH]; simpl; [done|].
  destruct (ascii_eqb c " ") eqn:E; [done|]. simpl.
  by rewrite ascii_eqb_sym, E.
Qed.

Lemma str_mem_app (c : ascii) (s t : string) :
  str_mem c (s +:+ t) = str_mem c s || str_mem c t.
Proof.
  induction s as [|d s IH]; [done|].
  rewrite str_app_cons. simpl. by rewrite IH, orb_assoc.
Qed.

Lemma split_go_sep (sep : ascii) (s : string) :
  split_go sep (String sep s) = ("", fst (split_go sep s) :: snd (split_go sep s)).
Proof.
  simpl. destruct (split_go sep s) as [cur rest].
  unfold ascii_eqb. by rewrite bool_decide_eq_true_2.
Qed.

Lemma split_go_join (sep : ascii) (parts : list string) :
  Forall (λ p, str_mem sep p = false) parts →
  ∀ q, str_mem sep q = false →
       split_go sep (String.concat (String sep "") (q :: parts)) = (q, parts).
Proof.
  induction 1 as [|p parts Hp _ IH]; intros q Hq.
  - by apply split_go_no_sep.
  - change (String.concat (String sep "") (q :: p :: parts))
      with (q +:+ String sep (String.concat (String sep "") (p :: parts))).
    rewrite (split_go_app _ _ _ Hq), split_go_sep, (IH p Hp). simpl.
    by rewrite str_app_empty_r.
Qed.

Lemma split_join (sep : ascii) (parts : list string) :
  Forall (λ p, str_mem sep p = false) parts → parts ≠ [] →
  py_split sep (py_join (String sep "") parts) = parts.
Proof.
  intros Hparts Hne. destruct Hparts as [|p parts Hp Hparts]; [done|].
  unfold py_split, py_join. by rewrite (split_go_join sep parts Hparts p Hp).
Qed.

Lemma Attributes_no_space : Forall (λ a, str_mem " " a = false) Attributes.
Proof. unfold Attributes. repeat constructor. Qed.

(** X8: the name of any task splits at its spaces into exactly one piece per
    attribute, in the canonical order, each piece being the attribute, an
    equals sign and the stripped value of the attribute; a stripped value
    never holds a space. *)
Theorem name_split_pieces
    (float_repr : pyfloat → string) (str_repr : string → string) (x : Task.t) :
  ∃ n svs,
    Task.name float_repr str_repr x = Ok n
    ∧ mapM (Task.StrVal float_repr str_repr x) Attributes = Ok svs
    ∧ Forall (λ sv, str_mem " " sv = false) svs
    ∧ py_split " " n = zip_with (λ a sv, a +:+ "=" +:+ sv) Attributes svs
    ∧ length (py_split " " n) = length Attributes.
Proof.
  set (svs := map (λ av, remove_spaces (py_str float_repr str_repr (snd av)))
                  (Task.fields x)).
  assert (Hsvs : Forall (λ sv, str_mem " " sv = false) svs).
  { unfold svs. apply Forall_fmap, Forall_forall. intros av _. simpl.
    apply remove_spaces_no_space. }
  assert (Hparts : map (λ av, fst av +:+ "=" +:+
                              remove_spaces (py_str float_repr str_repr (snd av)))
                       (Task.fields x)
                   = zip_with (λ a sv, a +:+ "=" +:+ sv) Attributes svs) by done.
  eexists _, svs. split; [apply name_explicit|]. split; [done|]. split; [done|].
  rewrite Hparts. split.
  - apply (split_join " "); [|done].
    pose proof Attributes_no_space as Ha. revert Ha Hsvs.
    generalize Attributes as l. generalize svs as k. clear.
    intros k l Hl. revert k. induction Hl as [|a l Ha _ IH]; intros k Hk; simpl.
    + constructor.
    + destruct Hk as [|sv k Hsv Hk]; simpl; constructor; [|by apply IH].
      by rewrite !str_mem_app, Ha, Hsv.
  - rewrite split_join; [done| |done].
    pose proof Attributes_no_space as Ha. revert Ha Hsvs.
    generalize Attributes as l. generalize svs as k. clear.
    intros k l Hl. revert k. induction Hl as [|a l Ha _ IH]; intros k Hk; simpl.
    + constructor.
    + destruct Hk as [|sv k Hsv Hk]; simpl; constructor; [|by apply IH].
      by rewrite !str_mem_app, Ha, Hsv.
Qed.

(** ** Access by name or by index *)

Lemma py_wrap_nat (i n : nat) : (i < n)%nat → py_wrap (Z.of_nat i) n = Done i.
Proof.
  intros Hi. unfold py_wrap.
  rewrite (proj2 (Z.ltb_ge _ _)) by lia.
  rewrite (proj2 (Z.leb_le _ _)) by lia.
  rewrite (proj2 (Z.ltb_lt _ _)) by lia. simpl. by rewrite Nat2Z.id.
Qed.

Lemma py_wrap_from_end (i n : nat) :
  (i < n)%nat → py_wrap (Z.of_nat i - Z.of_nat n) n = Done i.
Proof.
  intros Hi. unfold py_wrap.
  rewrite (proj2 (Z.ltb_lt _ _)) by lia.
  rewrite (proj2 (Z.leb_le _ _)) by lia.
  rewrite (proj2 (Z.ltb_lt _ _)) by lia. simpl. f_equal. lia.
Qed.

Lemma py_wrap_out (i : Z) (n : nat) :
  (Z.of_nat n <= i ∨ i < - Z.of_nat n)%Z → py_wrap i n = @Raise nat IndexError.
Proof.
  intros Hi. unfold py_wrap. destruct (i <? 0)%Z eqn:E.
  - apply Z.ltb_lt in E. destruct Hi as [Hi|Hi]; [lia|].
    rewrite (proj2 (Z.leb_gt _ _)) by lia. done.
  - apply Z.ltb_ge in E. destruct Hi as [Hi|Hi]; [|lia].
    rewrite (proj2 (Z.ltb_ge _ _)) by lia. by rewrite andb_false_r.
Qed.

Lemma py_getitem_nat {A} (l : list A) (i : nat) (x : A) :
  l !! i = Some x →
  py_getitem l (Z.of_nat i) = Done x
  ∧ py_getitem l (Z.of_nat i - Z.of_nat (length l)) = Done x.
Proof.
  intros Hx. pose proof (lookup_lt_Some _ _ _ Hx) as Hi. unfold py_getitem.
  rewrite py_wrap_nat, py_wrap_from_end by done. simpl. by rewrite Hx.
Qed.

Lemma py_list_index_lookup (l : list string) (i : nat) (x : string) :
  NoDup l → l !! i = Some x → py_list_index x l = Ok i.
Proof.
  intros Hnd. revert i. induction Hnd as [|y l Hy Hnd IH]; intros [|i] Hx;
    simplify_eq/=.
  - by rewrite decide_True.
  - rewrite decide_False.
    + by rewrite (IH i Hx).
    + intros ->. apply Hy. by eapply list_elem_of_lookup_2.
Qed.

Lemma py_list_index_absent (l : list string) (x : string) :
  x ∉ l → py_list_index x l = Err ValueError.
Proof.
  induction l as [|y l IH]; simpl; [done|].
  intros [Hne Hx]%not_elem_of_cons. rewrite decide_False by done.
  by rewrite IH.
Qed.

Lemma metrics_lookup (x : TaskResults.t) (i : nat) (m : string)
    (e : TaskResults.entry) :
  TaskResults.corr_ranks x !! i = Some (m, e) → TaskResults.metrics x !! i = Some m.
Proof.
  intros H. unfold TaskResults.metrics, Dict.keys.
  rewrite list_lookup_fmap, H. done.
Qed.

(** X9: with the metrics of the results distinct, the metric at an index of
    the rank mapping is reached alike by that index, by the same index
    counted from the end, and by its name: [Corr] and [Rank] return the
    correlation and the rank of that entry. *)
Theorem Corr_Rank_by_index
    (x : TaskResults.t) (i : nat) (m : string) (e : TaskResults.entry) :
  NoDup (TaskResults.metrics x) →
  TaskResults.corr_ranks x !! i = Some (m, e) →
  let n := length (TaskResults.corr_ranks x) in
  (Lookup.Rank x (Lookup.ByIndex (Z.of_nat i)) = Done (TaskResults.rank e)
   ∧ Lookup.Rank x (Lookup.ByIndex (Z.of_nat i - Z.of_nat n)) = Done (TaskResults.rank e)
   ∧ Lookup.Rank x (Lookup.ByName m) = Done (TaskResults.rank e))
  ∧ (Lookup.Corr x (Lookup.ByIndex (Z.of_nat i)) = Done (TaskResults.corr e)
     ∧ Lookup.Corr x (Lookup.ByIndex (Z.of_nat i - Z.of_nat n)) = Done (TaskResults.corr e)
     ∧ Lookup.Corr x (Lookup.ByName m) = Done (TaskResults.corr e)).
Proof.
  intros Hnd He n.
  assert (Hitem : Dict.item m (TaskResults.corr_ranks x) = Ok e).
  { unfold Dict.item. rewrite (dict_get_NoDup m e); [done|done|].
    by eapply list_elem_of_lookup_2. }
  destruct (py_getitem_nat _ _ _ (metrics_lookup _ _ _ _ He)) as [Hi Hneg].
  assert (Hn : length (TaskResults.metrics x) = n).
  { unfold TaskResults.metrics, Dict.keys. by rewrite length_map. }
  rewrite Hn in Hneg.
  unfold Lookup.Rank, Lookup.Corr, Lookup.to_name, TaskResults.Rank, TaskResults.Corr.
  rewrite Hi, Hneg. simpl. rewrite Hitem. done.
Qed.

Lemma Corr_Rank_by_index_witness :
  Lookup.Rank sample_r2 (Lookup.ByIndex 1) = Done 3%Z
  ∧ Lookup.Rank sample_r2 (Lookup.ByIndex (-1)) = Done 3%Z
  ∧ Lookup.Rank sample_r2 (Lookup.ByName "metricA") = Done 3%Z.
Proof.
  refine (proj1 (Corr_Rank_by_index sample_r2 1 "metricA"
            (TaskResults.Entry TaskResults.KList (FNum 0) 3) _ _)).
  - apply (bool_decide_unpack _). vm_compute. exact I.
  - reflexivity.
Defined.

Lemma py_list_index_Err (l : list string) (x : string) (e : exn) :
  py_list_index x l = Err e → e = ValueError.
Proof.
  induction l as [|y l IH]; simpl; [by intros [= <-]|].
  destruct (decide (x = y)); [discriminate|].
  destruct (py_list_index x l) as [i|e']; simpl; [discriminate|].
  intros [= <-]. by apply IH.
Qed.

(** X10: a name that is not a metric of the results makes [Corr] and [Rank]
    raise a key error, and makes [Sig] raise a value error whichever of its
    two arguments it is and whatever the other argument is; an index beyond
    the metrics, from either end, makes [Corr] and [Rank] raise an index
    error. *)
Theorem lookup_errors (x : TaskResults.t) :
  (∀ m, m ∉ TaskResults.metrics x →
        Lookup.Corr x (Lookup.ByName m) = Raise (Exn KeyError)
        ∧ Lookup.Rank x (Lookup.ByName m) = Raise (Exn KeyError)
        ∧ (∀ m2, Lookup.Sig x (Lookup.ByName m) m2 = Raise (Exn ValueError))
        ∧ (∀ m1, Lookup.Sig x m1 (Lookup.ByName m) = Raise (Exn ValueError)))
  ∧ (∀ i, (Z.of_nat (length (TaskResults.metrics x)) <= i
           ∨ i < - Z.of_nat (length (TaskResults.metrics x)))%Z →
          Lookup.Corr x (Lookup.ByIndex i) = Raise IndexError
          ∧ Lookup.Rank x (Lookup.ByIndex i) = Raise IndexError).
Proof.
  split.
  - intros m Hm.
    assert (Hget : Dict.get m (TaskResults.corr_ranks x) = None)
      by (by apply dict_get_None).
    split; [|split; [|split]].
    + unfold Lookup.Corr, Lookup.to_name. cbn [mbind outcome_bind].
      unfold TaskResults.Corr, Dict.item. by rewrite Hget.
    + unfold Lookup.Rank, Lookup.to_name. cbn [mbind outcome_bind].
      unfold TaskResults.Rank, Dict.item. by rewrite Hget.
    + intros m2. unfold Lookup.Sig, Lookup.to_index.
      by rewrite (py_list_index_absent _ _ Hm).
    + intros [s|i]; unfold Lookup.Sig, Lookup.to_index.
      * destruct (py_list_index s (TaskResults.metrics x)) as [j|e] eqn:E.
        -- cbn [lift fmap outcome_fmap mbind outcome_bind].
           by rewrite (py_list_index_absent _ _ Hm).
        -- by rewrite (py_list_index_Err _ _ _ E).
      * cbn [mbind outcome_bind]. by rewrite (py_list_index_absent _ _ Hm).
  - intros i Hi. unfold Lookup.Corr, Lookup.Rank, Lookup.to_name, py_getitem.
    by rewrite (py_wrap_out _ _ Hi).
Qed.

Lemma lookup_errors_witness :
  Lookup.Rank sample_r1 (Lookup.ByName "metricZ") = Raise (Exn KeyError)
  ∧ Lookup.Sig sample_r1 (Lookup.ByName "metricA") (Lookup.ByName "metricZ")
    = Raise (Exn ValueError)
  ∧ Lookup.Rank sample_r1 (Lookup.ByIndex 2) = Raise IndexError.
Proof.
  split; [|split].
  - apply (proj1 (lookup_errors sample_r1) "metricZ").
    apply (bool_decide_unpack _). vm_compute. exact I.
  - apply (proj1 (lookup_errors sample_r1) "metricZ").
    apply (bool_decide_unpack _). vm_compute. exact I.
  - apply (proj2 (lookup_errors sample_r1) 2%Z). left. vm_compute. discriminate.
Defined.

(** X11: on a matrix of two axes, [Sig] for two metrics given by name is
    [Sig] for their indices in [metrics]: both compare the p-value stored in
    the row of the first and the column of the second with the threshold. *)
Theorem Sig_by_name_by_index
    (x : TaskResults.t) (i j r c : nat) (mi mj : string) (p : pyfloat) :
  NoDup (TaskResults.metrics x) →
  TaskResults.metrics x !! i = Some mi →
  TaskResults.metrics x !! j = Some mj →
  shape (TaskResults.matrix x) = [r; c] →
  (i < r)%nat → (j < c)%nat →
  flat (TaskResults.matrix x) !! (i * c + j)%nat = Some p →
  Lookup.Sig x (Lookup.ByName mi) (Lookup.ByName mj)
  = Done ([], [float_ltb p (TaskResults.pval x)])
  ∧ Lookup.Sig x (Lookup.ByIndex (Z.of_nat i)) (Lookup.ByIndex (Z.of_nat j))
    = Done ([], [float_ltb p (TaskResults.pval x)]).
Proof.
  intros Hnd Hi Hj Hshape Hir Hjc Hp.
  assert (Hsub : index2 (TaskResults.matrix x) (Z.of_nat i) (Z.of_nat j)
                 = Done (NdArray [] [p])).
  { unfold index2. rewrite Hshape, !py_wrap_nat by done. simpl.
    rewrite Nat.mul_1_r, (drop_S _ _ _ Hp). simpl. by rewrite take_0. }
  unfold Lookup.Sig, Lookup.to_index.
  rewrite (py_list_index_lookup _ _ _ Hnd Hi), (py_list_index_lookup _ _ _ Hnd Hj).
  simpl. rewrite Hsub. done.
Qed.

Lemma Sig_by_name_by_index_witness :
  Lookup.Sig sample_list_result (Lookup.ByName "metricA") (Lookup.ByName "metricB")
  = Done ([], [true])
  ∧ Lookup.Sig sample_list_result (Lookup.ByIndex 0) (Lookup.ByIndex 1)
    = Done ([], [true]).
Proof.
  apply (Sig_by_name_by_index sample_list_result 0 1 2 2 "metricA" "metricB"
           (FNum (1 # 100))); try reflexivity; try lia.
  apply (bool_decide_unpack _). vm_compute. exact I.
Defined.

(** ** A second round trip *)

Lemma as_list_idem (d : list (string * TaskResults.entry)) :
  map (λ kv, (fst kv, as_list (snd kv))) (map (λ kv, (fst kv, as_list (snd kv))) d)
  = map (λ kv, (fst kv, as_list (snd kv))) d.
Proof. rewrite <-list_fmap_compose. by apply map_ext. Qed.

(** X12: for results whose matrix has no empty axis except possibly the
    last, the results read back are a fixed point of the round trip: written
    again they give the document they were read from, and that document
    reads back as themselves. *)
Theorem Read_Write_stable (x : TaskResults.t) :
  array_wf (TaskResults.matrix x) →
  shape_ok (shape (TaskResults.matrix x)) = true →
  ∃ y,
    TaskResults.Read (TaskResults.Write x) = Ok y
    ∧ TaskResults.Write y = TaskResults.Write x
    ∧ TaskResults.Read (TaskResults.Write y) = Ok y.
Proof.
  intros Hwf Hok. eexists. split; [by apply Read_Write|]. split.
  - unfold TaskResults.Write. simpl. do 4 f_equal.
    rewrite <-list_fmap_compose. reflexivity.
  - rewrite Read_Write by done. simpl. by rewrite as_list_idem.
Qed.

Lemma Read_Write_stable_witness :
  ∃ y,
    TaskResults.Read (TaskResults.Write sample_tuple_result) = Ok y
    ∧ TaskResults.Write y = TaskResults.Write sample_tuple_result
    ∧ TaskResults.Read (TaskResults.Write y) = Ok y.
Proof. apply Read_Write_stable; reflexivity. Defined.

(** ** More on the weights *)

Lemma Qnat_pos (n : nat) : n ≠ 0%nat → (0 < Qnat n)%Q.
Proof. intros Hn. unfold Qnat, Qlt. simpl. lia. Qed.

Lemma Qdiv_pos (W : Q) (n : nat) : (0 < W)%Q → n ≠ 0%nat → (0 < W / Qnat n)%Q.
Proof.
  intros HW Hn. apply Qlt_shift_div_l; [by apply Qnat_pos|].
  by rewrite Qmult_0_l.
Qed.

Lemma same_attr_elem_of (a : string) (r : TaskResults.t) (rs : list TaskResults.t) :
  r ∈ rs → r ∈ same_attr a r rs.
Proof. intros Hr. unfold same_attr. by apply list_elem_of_filter. Qed.

Lemma length_nonzero_elem_of {A} (l : list A) (x : A) : x ∈ l → length l ≠ 0%nat.
Proof. by destruct 1. Qed.

Lemma leaf_weight_pos (attrs : list string) :
  ∀ (W : Q) (rs : list TaskResults.t) (r : TaskResults.t),
    (0 < W)%Q → r ∈ rs →
    Forall (λ a, Forall (λ r, is_Ok (attr_of a r)) rs) attrs →
    (0 < leaf_weight attrs W rs r)%Q.
Proof.
  induction attrs as [|a attrs IH]; intros W rs r HW Hr Hattrs; simpl.
  - apply Qdiv_pos; [done|]. by eapply length_nonzero_elem_of.
  - apply Forall_cons in Hattrs as [Ha Hattrs]. apply IH.
    + apply Qdiv_pos; [done|].
      rewrite Forall_forall in Ha. destruct (Ha r Hr) as [v Hv].
      eapply length_nonzero_elem_of, nub_elem_of, attr_values_elem_of; done.
    + by apply same_attr_elem_of.
    + eapply Forall_impl; [exact Hattrs|]. intros a' Ha'.
      apply Forall_forall. intros r' [_ Hr']%list_elem_of_filter.
      rewrite Forall_forall in Ha'. by apply Ha'.
Qed.

Lemma Qsum_nonneg (l : list Q) : Forall (λ x, 0 <= x)%Q l → (0 <= Qsum l)%Q.
Proof.
  induction 1 as [|x l Hx _ IH].
  - unfold Qsum. simpl. apply Qle_refl.
  - rewrite Qsum_cons. rewrite <-(Qplus_0_r 0). by apply Qplus_le_compat.
Qed.

Lemma Qsum_elem_le (l : list Q) (x : Q) :
  Forall (λ y, 0 <= y)%Q l → x ∈ l → (x <= Qsum l)%Q.
Proof.
  induction 1 as [|y l Hy Hl IH]; [by intros ?%elem_of_nil|].
  intros [->|Hx]%elem_of_cons; rewrite Qsum_cons.
  - rewrite <-(Qplus_0_r y) at 1. apply Qplus_le_compat; [apply Qle_refl|].
    by apply Qsum_nonneg.
  - rewrite <-(Qplus_0_l x). apply Qplus_le_compat; [done|by apply IH].
Qed.

(** X13: in exact rational arithmetic, for a positive total weight, on a
    non-empty set of results with distinct names that carry the attributes,
    every result gets a weight that is positive and at most the total: no
    result is left out of the weighting.  The divisions of the code are
    divisions of doubles, which can round a positive quotient to zero; the
    statement is about the exact quotients. *)
Theorem AssignWeights_positive
    (attrs : list string) (W : Q) (rs : list TaskResults.t) :
  (0 < W)%Q →
  rs ≠ [] →
  NoDup (map TaskResults.name rs) →
  Forall (λ a, Forall (λ r, is_Ok (attr_of a r)) rs) attrs →
  ∃ ws,
    TaskSetResults.AssignWeights attrs W rs = Ok ws
    ∧ Forall (λ w, 0 < w ∧ w <= W)%Q ws.
Proof.
  intros HW Hne Hnd Hattrs.
  destruct (AssignWeights_leaf_weight attrs W rs Hne Hnd Hattrs) as [Haw Hsum].
  eexists. split; [exact Haw|].
  assert (Hpos : Forall (λ w, 0 < w)%Q (map (leaf_weight attrs W rs) rs)).
  { apply Forall_fmap, Forall_forall. intros r Hr. by apply leaf_weight_pos. }
  apply Forall_forall. intros w Hw. split.
  - rewrite Forall_forall in Hpos. by apply Hpos.
  - rewrite <-Hsum. apply Qsum_elem_le; [|done].
    eapply Forall_impl; [exact Hpos|]. intros ?. apply Qlt_le_weak.
Qed.

Lemma AssignWeights_positive_witness :
  ∃ ws,
    TaskSetResults.AssignWeights ["lang"; "level"] 1%Q [sample_r1; sample_r3; sample_r2]
    = Ok ws
    ∧ Forall (λ w, 0 < w ∧ w <= 1)%Q ws.
Proof.
  apply (AssignWeights_positive ["lang"; "level"] 1%Q [sample_r1; sample_r3; sample_r2]).
  - reflexivity.
  - discriminate.
  - apply (bool_decide_unpack _). vm_compute. exact I.
  - repeat constructor; eexists; vm_compute; reflexivity.
Defined.

Lemma filter_paired {A B} (P : A → Prop) `{!∀ x, Decision (P x)} (w : A → B)
    (l : list A) :
  filter (λ rw, P (fst rw)) (map (λ r, (r, w r)) l)
  = map (λ r, (r, w r)) (filter P l).
Proof.
  induction l as [|x l IH]; [done|]. simpl map.
  rewrite !filter_cons. simpl. rewrite IH. by destruct (decide (P x)).
Qed.

(** X14: the total weight is divided evenly over the values of the first
    attribute: the weights of the results that share a value of that
    attribute sum to the total divided by the number of its values. *)
Theorem AssignWeights_even_shares
    (a : string) (attrs : list string) (W : Q) (rs : list TaskResults.t) :
  rs ≠ [] →
  NoDup (map TaskResults.name rs) →
  Forall (λ a, Forall (λ r, is_Ok (attr_of a r)) rs) (a :: attrs) →
  ∃ ws,
    TaskSetResults.AssignWeights (a :: attrs) W rs = Ok ws
    ∧ ∀ v, v ∈ attr_values a rs →
           (Qsum (map snd (filter (λ rw, attr_of a (fst rw) = Ok v) (zip rs ws)))
            == W / Qnat (length (nub (attr_values a rs))))%Q.
Proof.
  intros Hne Hnd Hattrs.
  destruct (AssignWeights_leaf_weight (a :: attrs) W rs Hne Hnd Hattrs) as [Haw _].
  eexists. split; [exact Haw|]. intros v Hv.
  apply Forall_cons in Hattrs as [Ha Hattrs].
  set (G := filter (λ r, attr_of a r = Ok v) rs).
  set (W' := (W / Qnat (length (nub (attr_values a rs))))%Q).
  assert (Hshare : (Qsum (map (leaf_weight attrs W' G) G) == W')%Q).
  { apply AssignWeights_leaf_weight.
    - apply group_nonempty. by apply nub_elem_of.
    - by apply NoDup_names_filter.
    - eapply Forall_impl; [exact Hattrs|]. intros a' Ha'.
      apply Forall_forall. intros r [_ Hr]%list_elem_of_filter.
      rewrite Forall_forall in Ha'. by apply Ha'. }
  rewrite <-Hshare. apply reflexive_eq. f_equal.
  rewrite zip_map_self.
  etrans; [apply (f_equal (map snd));
           exact (filter_paired (λ r, attr_of a r = Ok v)
                                (leaf_weight (a :: attrs) W rs) rs)|].
  rewrite <-list_fmap_compose. fold G.
  apply map_ext_in. intros r Hr%list_elem_of_In. simpl.
  apply list_elem_of_filter in Hr as [Hr _].
  by rewrite (same_attr_group a v r rs Hr).
Qed.

Lemma AssignWeights_even_shares_witness :
  ∃ ws,
    TaskSetResults.AssignWeights ["lang"; "level"] 1%Q [sample_r1; sample_r3; sample_r2]
    = Ok ws
    ∧ ∀ v, v ∈ attr_values "lang" [sample_r1; sample_r3; sample_r2] →
           (Qsum (map snd (filter (λ rw, attr_of "lang" (fst rw) = Ok v)
                                  (zip [sample_r1; sample_r3; sample_r2] ws)))
            == 1 / Qnat (length (nub (attr_values "lang"
                                       [sample_r1; sample_r3; sample_r2]))))%Q.
Proof.
  apply (AssignWeights_even_shares "lang" ["level"] 1%Q
           [sample_r1; sample_r3; sample_r2]).
  - discriminate.
  - apply (bool_decide_unpack _). vm_compute. exact I.
  - repeat constructor; eexists; vm_compute; reflexivity.
Defined.

Lemma leaf_weight_agree (attrs : list string) :
  ∀ (W : Q) (rs : list TaskResults.t) (r1 r2 : TaskResults.t),
    Forall (λ a, attr_of a r1 = attr_of a r2) attrs →
    leaf_weight attrs W rs r1 = leaf_weight attrs W rs r2.
Proof.
  induction attrs as [|a attrs IH]; intros W rs r1 r2 Hagree; simpl; [done|].
  apply Forall_cons in Hagree as [Ha Hagree].
  unfold same_attr. rewrite Ha. by apply IH.
Qed.

(** X15: on a non-empty set of results with distinct names that carry the
    attributes, the weight of a result depends only on the values that its
    name gives to the attributes: two results of the set that agree on every
    attribute of the list get the same weight. *)
Theorem AssignWeights_equal_attributes
    (attrs : list string) (W : Q) (rs : list TaskResults.t)
    (i j : nat) (r1 r2 : TaskResults.t) :
  rs ≠ [] →
  NoDup (map TaskResults.name rs) →
  Forall (λ a, Forall (λ r, is_Ok (attr_of a r)) rs) attrs →
  rs !! i = Some r1 → rs !! j = Some r2 →
  Forall (λ a, attr_of a r1 = attr_of a r2) attrs →
  ∃ ws w,
    TaskSetResults.AssignWeights attrs W rs = Ok ws
    ∧ ws !! i = Some w ∧ ws !! j = Some w.
Proof.
  intros Hne Hnd Hattrs Hi Hj Hagree.
  destruct (AssignWeights_leaf_weight attrs W rs Hne Hnd Hattrs) as [Haw _].
  exists (map (leaf_weight attrs W rs) rs), (leaf_weight attrs W rs r1).
  split; [done|]. rewrite !list_lookup_fmap, Hi, Hj. simpl.
  split; [done|]. f_equal. symmetry. by apply leaf_weight_agree.
Qed.

Lemma AssignWeights_equal_attributes_witness :
  ∃ ws w,
    TaskSetResults.AssignWeights ["test_set"] 1%Q [sample_r1; sample_r3; sample_r2]
    = Ok ws
    ∧ ws !! 0%nat = Some w ∧ ws !! 2%nat = Some w.
Proof.
  apply (AssignWeights_equal_attributes ["test_set"] 1%Q
           [sample_r1; sample_r3; sample_r2] 0 2 sample_r1 sample_r2).
  - discriminate.
  - apply (bool_decide_unpack _). vm_compute. exact I.
  - repeat constructor; eexists; vm_compute; reflexivity.
  - reflexivity.
  - reflexivity.
  - repeat constructor.
Defined.

(** ** Bounds on the average rank *)

Lemma weighted_sum_bounds (lo hi : Z) (zs : list Z) :
  ∀ ws : list Q,
    length zs = length ws →
    Forall (λ w, 0 <= w)%Q ws →
    Forall (λ z, lo ≤ z ≤ hi)%Z zs →
    (inject_Z lo * Qsum ws <= Qsum (zip_with (λ z w, inject_Z z * w) zs ws)
     ∧ Qsum (zip_with (λ z w, inject_Z z * w) zs ws) <= inject_Z hi * Qsum ws)%Q.
Proof.
  induction zs as [|z zs IH]; intros [|w ws] Hlen Hws Hzs; simplify_eq/=.
  - unfold Qsum. simpl. split; rewrite Qmult_0_r; apply Qle_refl.
  - apply Forall_cons in Hws as [Hw Hws]. apply Forall_cons in Hzs as [Hz Hzs].
    destruct (IH ws Hlen Hws Hzs) as [Hlo Hhi].
    rewrite !Qsum_cons, !Qmult_plus_distr_r. split.
    + apply Qplus_le_compat; [|done].
      apply Qmult_le_compat_r; [|done]. rewrite <-Zle_Qle. lia.
    + apply Qplus_le_compat; [|done].
      apply Qmult_le_compat_r; [|done]. rewrite <-Zle_Qle. lia.
Qed.

Lemma AverageRanks_bounds_supplied (ws : list Q) (rs : list TaskResults.t) :
  rs ≠ [] →
  Forall (λ r, NoDup (TaskResults.metrics r)) rs →
  length ws = length rs →
  Forall (λ w, 0 <= w)%Q ws →
  (Qsum ws == 1)%Q →
  ∃ out,
    TaskSetResults.AverageRanks (Some ws) rs = Ok out
    ∧ ∀ m q lo hi,
        Dict.get m out = Some q →
        (∀ r z, r ∈ rs → TaskResults.Rank r m = Ok z → (lo ≤ z ≤ hi)%Z) →
        (inject_Z lo <= q ∧ q <= inject_Z hi)%Q.
Proof.
  intros Hne Hnd Hlen Hws Hsum.
  destruct (AverageRanks_supplied ws rs Hne Hnd Hlen) as (out & Hout & _ & Hval & _).
  exists out. split; [done|]. intros m q lo hi Hq Hbound.
  destruct (Hval m) as (zs & Hzs & Hget).
  { apply dict_get_Some in Hq. apply list_elem_of_fmap. by exists (m, q). }
  rewrite Hget in Hq. injection Hq as <-.
  apply mapM_result_Ok in Hzs.
  destruct (weighted_sum_bounds lo hi zs ws) as [Hlo Hhi].
  - rewrite Hlen. symmetry. by eapply Forall2_length.
  - done.
  - clear -Hzs Hbound. induction Hzs as [|r z rs zs Hz _ IH]; constructor.
    + apply (Hbound r); [left|done].
    + apply IH. intros r' z' Hr'. apply Hbound. by right.
  - rewrite Hsum, !Qmult_1_r in *. done.
Qed.

(** X16: in exact rational arithmetic, on a non-empty set of results, with
    one weight for each result, none negative and all summing to one, or
    with no weights supplied, the average rank of every metric of the
    mapping lies between the smallest and the largest rank that the results
    give the metric.  The sums of the code are sums of doubles, which can
    leave the bounds by a rounding error; the statement is about the exact
    sums. *)
Theorem AverageRanks_between
    (weights : option (list Q)) (rs : list TaskResults.t) :
  rs ≠ [] →
  Forall (λ r, NoDup (TaskResults.metrics r)) rs →
  (∀ ws, weights = Some ws →
         length ws = length rs ∧ Forall (λ w, 0 <= w)%Q ws ∧ (Qsum ws == 1)%Q) →
  ∃ out,
    TaskSetResults.AverageRanks weights rs = Ok out
    ∧ ∀ m q lo hi,
        Dict.get m out = Some q →
        (∀ r z, r ∈ rs → TaskResults.Rank r m = Ok z → (lo ≤ z ≤ hi)%Z) →
        (inject_Z lo <= q ∧ q <= inject_Z hi)%Q.
Proof.
  intros Hne Hnd Hws. destruct weights as [ws|].
  - destruct (Hws ws eq_refl) as (Hlen & Hpos & Hsum).
    by apply AverageRanks_bounds_supplied.
  - rewrite AverageRanks_default by done.
    assert (Hn : length rs ≠ 0%nat) by (by destruct rs).
    apply AverageRanks_bounds_supplied; [done|done| | |].
    + apply length_replicate.
    + unfold uniform_weights. apply Forall_replicate.
      apply Qlt_le_weak, Qdiv_pos; done.
    + unfold uniform_weights. rewrite Qsum_replicate. by apply Qsum_share.
Qed.

Lemma AverageRanks_between_witness :
  ∃ out,
    TaskSetResults.AverageRanks None [sample_r1; sample_r2; sample_r3] = Ok out
    ∧ ∀ m q lo hi,
        Dict.get m out = Some q →
        (∀ r z, r ∈ [sample_r1; sample_r2; sample_r3] →
                TaskResults.Rank r m = Ok z → (lo ≤ z ≤ hi)%Z) →
        (inject_Z lo <= q ∧ q <= inject_Z hi)%Q.
Proof.
  apply (AverageRanks_between None [sample_r1; sample_r2; sample_r3]).
  - discriminate.
  - repeat constructor; apply (bool_decide_unpack _); vm_compute; exact I.
  - intros ws Hws. discriminate Hws.
Defined.

(** X17: in exact rational arithmetic, on a non-empty set of results with
    distinct names that carry the attributes, the weights that
    [AssignWeights] returns for a total of one are weights for
    [AverageRanks] on the same results: the mapping returned holds the
    metrics that appear in every result, each with an average between its
    smallest and its largest rank. *)
Theorem AverageRanks_of_AssignWeights
    (attrs : list string) (rs : list TaskResults.t) :
  rs ≠ [] →
  NoDup (map TaskResults.name rs) →
  Forall (λ a, Forall (λ r, is_Ok (attr_of a r)) rs) attrs →
  Forall (λ r, NoDup (TaskResults.metrics r)) rs →
  ∃ ws out,
    TaskSetResults.AssignWeights attrs 1%Q rs = Ok ws
    ∧ TaskSetResults.AverageRanks (Some ws) rs = Ok out
    ∧ (∀ m, m ∈ Dict.keys out ↔ ∀ r, r ∈ rs → m ∈ TaskResults.metrics r)
    ∧ ∀ m q lo hi,
        Dict.get m out = Some q →
        (∀ r z, r ∈ rs → TaskResults.Rank r m = Ok z → (lo ≤ z ≤ hi)%Z) →
        (inject_Z lo <= q ∧ q <= inject_Z hi)%Q.
Proof.
  intros Hne Hnd Hattrs Hmetrics.
  destruct (AssignWeights_leaf_weight attrs 1%Q rs Hne Hnd Hattrs) as [Haw Hsum].
  set (ws := map (leaf_weight attrs 1%Q rs) rs) in *.
  assert (Hlen : length ws = length rs) by (unfold ws; by rewrite length_map).
  assert (Hpos : Forall (λ w, 0 <= w)%Q ws).
  { unfold ws. apply Forall_fmap, Forall_forall. intros r Hr. simpl.
    by apply Qlt_le_weak, leaf_weight_pos. }
  destruct (AverageRanks_bounds_supplied ws rs Hne Hmetrics Hlen Hpos Hsum)
    as (out & Hout & Hbounds).
  destruct (AverageRanks_supplied ws rs Hne Hmetrics Hlen)
    as (out' & Hout' & Hkeys & _).
  rewrite Hout in Hout'. injection Hout' as <-.
  by exists ws, out.
Qed.

Lemma AverageRanks_of_AssignWeights_witness :
  ∃ ws out,
    TaskSetResults.AssignWeights ["lang"] 1%Q [sample_r1; sample_r3; sample_r2] = Ok ws
    ∧ TaskSetResults.AverageRanks (Some ws) [sample_r1; sample_r3; sample_r2] = Ok out.
Proof.
  destruct (AverageRanks_of_AssignWeights ["lang"] [sample_r1; sample_r3; sample_r2])
    as (ws & out & Hws & Hout & _).
  - discriminate.
  - apply (bool_decide_unpack _). vm_compute. exact I.
  - repeat constructor; eexists; vm_compute; reflexivity.
  - repeat constructor; apply (bool_decide_unpack _); vm_compute; exact I.
  - by exists ws, out.
Defined.

(** ** Splitting: errors and sums *)

Lemma mapM_result_Err {A B} (f : A → result B) (l : list A) (e : exn) :
  mapM f l = Err e → ∃ x, x ∈ l ∧ f x = Err e.
Proof.
  induction l as [|x l IH]; simpl; [discriminate|].
  destruct (f x) as [y|e'] eqn:E; simpl.
  - destruct (mapM f l) as [k|e'']; simpl; [discriminate|].
    intros [= ->]. destruct (IH eq_refl) as (x' & Hx' & He). exists x'.
    split; [by right|done].
  - intros [= ->]. exists x. split; [left|done].
Qed.

Lemma attr_of_Err (attr : string) (r : TaskResults.t) (e : exn) :
  attr_of attr r = Err e → e = KeyError ∨ e = ValueError.
Proof.
  unfold attr_of, TaskResults.attr_vals.
  destruct (mapM TaskResults.attr_val (py_words (TaskResults.name r)))
    as [pairs|e'] eqn:E; simpl.
  - unfold Dict.item. destruct (Dict.get attr (Dict.of_list pairs)); [discriminate|].
    intros [= <-]. by left.
  - intros [= ->]. apply mapM_result_Err in E as (av & _ & Hav).
    unfold TaskResults.attr_val in Hav.
    destruct (py_split "=" av) as [|a [|b [|c l]]]; simplify_eq; by right.
Qed.

Lemma SplitByAttr_fold_cases (attr : string) (rs : list TaskResults.t) :
  ∀ acc : list (string * list TaskResults.t),
    (Forall (λ r, is_Ok (attr_of attr r)) rs
     ∧ is_Ok (foldlM (λ subsets r,
                        av ← TaskResults.attr_vals r;
                        val ← Dict.item attr av;
                        let subset := default [] (Dict.get val subsets) in
                        Ok (Dict.set val (subset ++ [r]) subsets)) rs acc))
    ∨ (∃ e i r,
         foldlM (λ subsets r,
                   av ← TaskResults.attr_vals r;
                   val ← Dict.item attr av;
                   let subset := default [] (Dict.get val subsets) in
                   Ok (Dict.set val (subset ++ [r]) subsets)) rs acc = Err e
         ∧ rs !! i = Some r ∧ attr_of attr r = Err e
         ∧ Forall (λ r', is_Ok (attr_of attr r')) (take i rs)).
Proof.
  induction rs as [|r rs IH]; intros acc.
  - left. split; [constructor|by eexists].
  - cbn [foldlM]. destruct (attr_of attr r) as [v|e] eqn:E.
    + assert (Hstep : (TaskResults.attr_vals r ≫= λ av, Dict.item attr av ≫= λ val,
                         Ok (Dict.set val (default [] (Dict.get val acc) ++ [r]) acc))
                      = Ok (Dict.set v (default [] (Dict.get v acc) ++ [r]) acc)).
      { unfold attr_of in E. destruct (TaskResults.attr_vals r) as [av|]; [|done].
        simpl in *. by rewrite E. }
      rewrite Hstep, bind_Ok.
      destruct (IH (Dict.set v (default [] (Dict.get v acc) ++ [r]) acc))
        as [[Hall Hok]|(e & i & r' & Herr & Hi & Hr' & Htake)].
      * left. split; [|done]. constructor; [by eexists|done].
      * right. exists e, (S i), r'. split; [done|]. split; [done|]. split; [done|].
        simpl. constructor; [by eexists|done].
    + right. exists e, 0%nat, r. split; [|by repeat split; try constructor].
      unfold attr_of in E. destruct (TaskResults.attr_vals r) as [av|e'].
      * rewrite bind_Ok in E. by rewrite bind_Ok, E.
      * rewrite bind_Err in E. injection E as ->. by rewrite bind_Err.
Qed.

(** X24: [SplitByAttr] returns a partition exactly when the name of every
    result gives the attribute a value; otherwise it raises what the first
    result without one raises: a value error when its name does not parse
    into attribute=value pieces, a key error when the attribute is not among
    them. *)
Theorem SplitByAttr_errors (attr : string) (rs : list TaskResults.t) :
  (is_Ok (TaskSetResults.SplitByAttr attr rs)
   ↔ Forall (λ r, is_Ok (attr_of attr r)) rs)
  ∧ ∀ e, TaskSetResults.SplitByAttr attr rs = Err e →
         (e = KeyError ∨ e = ValueError)
         ∧ ∃ i r, rs !! i = Some r ∧ attr_of attr r = Err e
                  ∧ Forall (λ r', is_Ok (attr_of attr r')) (take i rs).
Proof.
  assert (Hcases :
    (Forall (λ r, is_Ok (attr_of attr r)) rs
     ∧ is_Ok (TaskSetResults.SplitByAttr attr rs))
    ∨ (∃ e i r,
         TaskSetResults.SplitByAttr attr rs = Err e
         ∧ rs !! i = Some r ∧ attr_of attr r = Err e
         ∧ Forall (λ r', is_Ok (attr_of attr r')) (take i rs)))
    by exact (SplitByAttr_fold_cases attr rs []).
  destruct Hcases as [[Hall Hok]|(e & i & r & Herr & Hi & Hr & Htake)].
  - split; [done|]. intros e He. destruct Hok as [d Hd]. congruence.
  - rewrite Herr. split.
    + split; [by intros [? ?]|]. intros Hall. rewrite Forall_forall in Hall.
      destruct (Hall r) as [v Hv]; [by eapply list_elem_of_lookup_2|congruence].
    + intros e' [= <-]. split; [by eapply attr_of_Err|]. by exists i, r.
Qed.

Lemma SplitByAttr_errors_witness :
  ∃ e, TaskSetResults.SplitByAttr "system" [sample_r1] = Err e
       ∧ (e = KeyError ∨ e = ValueError).
Proof.
  eexists. split; [vm_compute; reflexivity|].
  apply (proj2 (SplitByAttr_errors "system" [sample_r1])).
  vm_compute. reflexivity.
Defined.

Lemma nub_app (l1 l2 : list string) :
  nub (l1 ++ l2) = nub l1 ++ filter (λ y, y ∉ l1) (nub l2).
Proof.
  induction l1 as [|x l1 IH]; simpl.
  - symmetry. induction (nub l2) as [|y k IHk]; [done|].
    rewrite filter_cons_True by apply not_elem_of_nil. by f_equal.
  - f_equal. rewrite IH, filter_app. f_equal.
    rewrite list_filter_filter. apply filter_ext_Forall, Forall_forall.
    intros y _. rewrite not_elem_of_cons. naive_solver.
Qed.

Lemma SplitByAttr_Ok_inv (attr : string) (rs : list TaskResults.t)
    (d : list (string * list TaskResults.t)) :
  TaskSetResults.SplitByAttr attr rs = Ok d →
  Forall (λ r, is_Ok (attr_of attr r)) rs.
Proof.
  intros Hd.
  assert (Hcases :
    (Forall (λ r, is_Ok (attr_of attr r)) rs
     ∧ is_Ok (TaskSetResults.SplitByAttr attr rs))
    ∨ (∃ e i r,
         TaskSetResults.SplitByAttr attr rs = Err e
         ∧ rs !! i = Some r ∧ attr_of attr r = Err e
         ∧ Forall (λ r', is_Ok (attr_of attr r')) (take i rs)))
    by exact (SplitByAttr_fold_cases attr rs []).
  destruct Hcases as [[Hall _]|(e & i & r & Herr & _)]; [done|congruence].
Qed.

Lemma attr_values_app (attr : string) (x y : list TaskResults.t) :
  attr_values attr (x ++ y) = attr_values attr x ++ attr_values attr y.
Proof. unfold attr_values. apply omap_app. Qed.

Lemma group_get (attr v : string) (rs : list TaskResults.t) :
  default [] (Dict.get v (map (λ v, (v, filter (λ r, attr_of attr r = Ok v) rs))
                              (nub (attr_values attr rs))))
  = filter (λ r, attr_of attr r = Ok v) rs.
Proof.
  rewrite (dict_get_map_keyed (λ v, filter (λ r, attr_of attr r = Ok v) rs)).
  destruct (decide (v ∈ nub (attr_values attr rs))) as [Hin|Hout]; [done|].
  simpl. symmetry. apply filter_none, Forall_forall. intros r Hr Hv.
  apply Hout, nub_elem_of. by eapply attr_values_elem_of.
Qed.

(** X25: splitting the sum of two sets of results is splitting each: the
    keys are those of the first followed by the new ones of the second, and
    the group of every value is its group in the first followed by its group
    in the second, a missing group counting as empty. *)
Theorem SplitByAttr_add (attr : string) (x y : list TaskResults.t)
    (dx dy : list (string * list TaskResults.t)) :
  TaskSetResults.SplitByAttr attr x = Ok dx →
  TaskSetResults.SplitByAttr attr y = Ok dy →
  ∃ d,
    TaskSetResults.SplitByAttr attr (TaskSetResults.add x y) = Ok d
    ∧ Dict.keys d = Dict.keys dx ++ filter (λ v, v ∉ Dict.keys dx) (Dict.keys dy)
    ∧ ∀ v, default [] (Dict.get v d)
           = TaskSetResults.add (default [] (Dict.get v dx)) (default [] (Dict.get v dy)).
Proof.
  intros Hx Hy.
  pose proof (SplitByAttr_Ok_inv _ _ _ Hx) as Hokx.
  pose proof (SplitByAttr_Ok_inv _ _ _ Hy) as Hoky.
  rewrite (SplitByAttr_spec attr x Hokx) in Hx. injection Hx as <-.
  rewrite (SplitByAttr_spec attr y Hoky) in Hy. injection Hy as <-.
  eexists. split; [apply SplitByAttr_spec; by apply Forall_app|]. split.
  - rewrite !(dict_keys_map_keyed (λ v, filter (λ r, attr_of attr r = Ok v) _)).
    rewrite attr_values_app, nub_app. f_equal.
    apply filter_ext_Forall, Forall_forall. intros v _. by rewrite nub_elem_of.
  - intros v. rewrite !group_get. unfold TaskSetResults.add. apply filter_app.
Qed.

Lemma SplitByAttr_add_witness :
  ∃ d,
    TaskSetResults.SplitByAttr "lang"
      (TaskSetResults.add [sample_r1] [sample_r2; sample_r3]) = Ok d.
Proof.
  destruct (SplitByAttr_add "lang" [sample_r1] [sample_r2; sample_r3] _ _
              ltac:(vm_compute; reflexivity) ltac:(vm_compute; reflexivity))
    as (d & Hd & _).
  by exists d.
Defined.

(** * Merging segments into documents *)

(** ** The document map *)

Lemma build_fold (lines ids : list string) :
  mapM SegmentToDocument.full_doc_id lines = Ok ids →
  ∀ (k : nat) (acc : list (string * list nat)) (sm : gmap nat string),
    foldlM (λ st il,
              full ← SegmentToDocument.full_doc_id (snd il);
              let indices := default [] (Dict.get full (fst st)) in
              Ok (Dict.set full (indices ++ [fst il]) (fst st),
                  <[fst il := full]> (snd st)))
           (zip (seq k (length lines)) lines) (acc, sm)
    = Ok (fold_left group_step (zip ids (seq k (length ids))) acc,
          fold_left (λ m p, <[fst p := snd p]> m) (zip (seq k (length ids)) ids) sm).
Proof.
  intros H%mapM_result_Ok.
  induction H as [|line d lines ids Hd _ IH]; intros k acc sm; [done|].
  cbn [length seq zip zip_with foldlM fold_left fst snd].
  rewrite Hd, !bind_Ok. exact (IH (S k) (group_step acc (d, k)) (<[k:=d]> sm)).
Qed.

Lemma fill_lookup (ids : list string) :
  ∀ (k : nat) (sm : gmap nat string) (i : nat),
    fold_left (λ m p, <[fst p := snd p]> m) (zip (seq k (length ids)) ids) sm !! i
    = if decide (k ≤ i < k + length ids)%nat then ids !! (i - k)%nat else sm !! i.
Proof.
  induction ids as [|d ids IH]; intros k sm i.
  - simpl. rewrite decide_False by lia. done.
  - cbn [length seq zip zip_with fold_left fst snd]. rewrite IH.
    destruct (decide (i = k)) as [->|Hne].
    + rewrite decide_False by lia. rewrite decide_True by (simpl; lia).
      rewrite lookup_insert_eq. by rewrite Nat.sub_diag.
    + destruct (decide (S k ≤ i < S k + length ids)%nat).
      * rewrite decide_True by (simpl; lia).
        replace (i - k)%nat with (S (i - S k)) by lia. done.
      * rewrite decide_False by (simpl; lia). by rewrite lookup_insert_ne.
Qed.

Lemma sel_zip_seq (d : string) (ids : list string) (k : nat) :
  sel d (zip ids (seq k (length ids)))
  = filter (λ i, ids !! (i - k)%nat = Some d) (seq k (length ids)).
Proof.
  unfold sel. revert k. induction ids as [|d' ids IH]; intros k; [done|].
  cbn [length seq zip zip_with]. rewrite !filter_cons. cbn [fst snd].
  rewrite Nat.sub_diag. cbn [lookup list_lookup].
  assert (Htail : filter (λ i, (d' :: ids) !! (i - k)%nat = Some d) (seq (S k) (length ids))
                  = filter (λ i, ids !! (i - S k)%nat = Some d) (seq (S k) (length ids))).
  { apply filter_ext_Forall, Forall_forall. intros i Hi%elem_of_seq.
    replace (i - k)%nat with (S (i - S k)) by lia. done. }
  rewrite Htail, <-IH.
  destruct (decide (d' = d)) as [->|Hne].
  - by rewrite decide_True.
  - rewrite decide_False by congruence. done.
Qed.

Lemma full_doc_id_cases (line : string) :
  (two_fields line ∧ is_Ok (SegmentToDocument.full_doc_id line))
  ∨ (¬ two_fields line ∧ SegmentToDocument.full_doc_id line = Err ValueError).
Proof.
  unfold two_fields, SegmentToDocument.full_doc_id.
  destruct (py_split SegmentToDocument.tab line) as [|a [|b [|c l]]]; simpl;
    first [by right | left; split; [done|by eexists]].
Qed.

Lemma mapM_full_doc_id (lines : list string) :
  Forall two_fields lines → ∃ ids, mapM SegmentToDocument.full_doc_id lines = Ok ids.
Proof.
  induction 1 as [|line lines Hl _ [ids IH]]; [by exists []|].
  destruct (full_doc_id_cases line) as [[_ [d Hd]]|[Hn _]]; [|done].
  exists (d :: ids). simpl. by rewrite Hd, IH.
Qed.

Lemma build_fold_Err (lines : list string) :
  ¬ Forall two_fields lines →
  ∀ (k : nat) (st : list (string * list nat) * gmap nat string),
    foldlM (λ st il,
              full ← SegmentToDocument.full_doc_id (snd il);
              let indices := default [] (Dict.get full (fst st)) in
              Ok (Dict.set full (indices ++ [fst il]) (fst st),
                  <[fst il := full]> (snd st)))
           (zip (seq k (length lines)) lines) st
    = Err ValueError.
Proof.
  induction lines as [|line lines IH]; intros Hn k st.
  - destruct Hn. constructor.
  - cbn [length seq zip zip_with foldlM snd].
    destruct (full_doc_id_cases line) as [[Hl [d Hd]]|[_ Hd]]; rewrite Hd; [|done].
    rewrite bind_Ok, bind_Ok. apply IH. intros Hall. apply Hn. by constructor.
Qed.

Lemma build_spec (lines ids : list string) :
  mapM SegmentToDocument.full_doc_id lines = Ok ids →
  ∃ seg_to_doc,
    SegmentToDocument.build_segment_to_doc_map lines
    = Ok (map (λ d, (d, segments_of d ids)) (nub ids), seg_to_doc)
    ∧ ∀ i, seg_to_doc !! i = ids !! i.
Proof.
  intros Hids. unfold SegmentToDocument.build_segment_to_doc_map, enumerate.
  eexists. rewrite (build_fold lines ids Hids 0 [] ∅). split.
  - f_equal. f_equal. rewrite fold_group_step. unfold grouped.
    assert (Hfst : map fst (zip ids (seq 0 (length ids))) = ids).
    { apply fst_zip. by rewrite length_seq. }
    rewrite Hfst. apply map_ext. intros d. f_equal.
    rewrite sel_zip_seq. unfold segments_of.
    apply filter_ext_Forall, Forall_forall. intros i _. by rewrite Nat.sub_0_r.
  - intros i. rewrite fill_lookup. destruct (decide (0 ≤ i < 0 + length ids)%nat).
    + by rewrite Nat.sub_0_r.
    + rewrite lookup_empty. symmetry. apply lookup_ge_None. lia.
Qed.

(** X18: [build_segment_to_doc_map] returns a result exactly when every
    line of the documents file splits at tabs into two fields, and when it
    fails it fails with a value error, from the unpacking of the split. *)
Theorem build_segment_to_doc_map_errors (docs_lines : list string) :
  (is_Ok (SegmentToDocument.build_segment_to_doc_map docs_lines) ↔ Forall two_fields docs_lines)
  ∧ (∀ e, SegmentToDocument.build_segment_to_doc_map docs_lines = Err e → e = ValueError).
Proof.
  destruct (decide (Forall two_fields docs_lines)) as [Hall|Hn].
  - destruct (mapM_full_doc_id _ Hall) as [ids Hids].
    destruct (build_spec _ _ Hids) as (sm & Hb & _). rewrite Hb. split.
    + split; [done|]. intros _. by eexists.
    + intros e. discriminate.
  - unfold SegmentToDocument.build_segment_to_doc_map, enumerate.
    rewrite (build_fold_Err _ Hn). split.
    + split; [by intros [? ?]|done].
    + by intros e [= <-].
Qed.

Lemma build_segment_to_doc_map_errors_witness :
  is_Ok (SegmentToDocument.build_segment_to_doc_map sample_docs)
  ∧ ∃ e, SegmentToDocument.build_segment_to_doc_map ["news"] = Err e
         ∧ e = ValueError.
Proof.
  split.
  - apply (proj1 (build_segment_to_doc_map_errors sample_docs)).
    repeat constructor.
  - eexists. split; [vm_compute; reflexivity|].
    apply (proj2 (build_segment_to_doc_map_errors ["news"])).
    vm_compute. reflexivity.
Defined.

Lemma build_inv (docs_lines : list string) (doc_map : list (string * list nat))
    (seg_to_doc : gmap nat string) :
  SegmentToDocument.build_segment_to_doc_map docs_lines = Ok (doc_map, seg_to_doc) →
  ∃ ids,
    mapM SegmentToDocument.full_doc_id docs_lines = Ok ids
    ∧ doc_map = map (λ d, (d, segments_of d ids)) (nub ids)
    ∧ ∀ i, seg_to_doc !! i = ids !! i.
Proof.
  intros Hb. destruct (decide (Forall two_fields docs_lines)) as [Hall|Hn].
  - destruct (mapM_full_doc_id _ Hall) as [ids Hids]. exists ids.
    destruct (build_spec _ _ Hids) as (sm & Hb' & Hsm).
    rewrite Hb in Hb'. injection Hb' as -> ->. done.
  - unfold SegmentToDocument.build_segment_to_doc_map, enumerate in Hb.
    by rewrite (build_fold_Err _ Hn) in Hb.
Qed.

Lemma segments_of_elem_of (d : string) (ids : list string) (i : nat) :
  i ∈ segments_of d ids ↔ ids !! i = Some d.
Proof.
  unfold segments_of. rewrite list_elem_of_filter, elem_of_seq. split; [by intros [? _]|].
  intros Hi. split; [done|]. apply lookup_lt_Some in Hi. lia.
Qed.

Lemma seq_StronglySorted (k n : nat) : StronglySorted lt (seq k n).
Proof.
  revert k. induction n as [|n IH]; intros k; simpl; constructor; [apply IH|].
  apply Forall_forall. intros i Hi%elem_of_seq. lia.
Qed.

Lemma segments_of_nonempty (d : string) (ids : list string) :
  d ∈ ids → segments_of d ids ≠ [].
Proof.
  intros [i Hi]%list_elem_of_lookup_1 Hnil.
  pose proof (proj2 (segments_of_elem_of d ids i) Hi) as Hin.
  rewrite Hnil in Hin. by apply elem_of_nil in Hin.
Qed.

Lemma segments_of_sorted (d : string) (ids : list string) :
  StronglySorted lt (segments_of d ids).
Proof.
  unfold segments_of. eapply StronglySorted_sublist; [apply sublist_filter|].
  apply seq_StronglySorted.
Qed.

Lemma segments_of_partition (ids : list string) :
  concat (map (λ d, segments_of d ids) (nub ids)) ≡ₚ seq 0 (length ids).
Proof.
  set (key := λ i : nat, default "" (ids !! i)).
  etrans; [|apply (concat_filter_Permutation key (nub ids) (seq 0 (length ids)))].
  - apply reflexive_eq. f_equal. apply map_ext. intros d.
    unfold segments_of. apply filter_ext_Forall, Forall_forall.
    intros i Hi%elem_of_seq. unfold key.
    destruct (lookup_lt_is_Some_2 ids i ltac:(lia)) as [d' Hd']. rewrite Hd'.
    simpl. naive_solver.
  - apply nub_NoDup.
  - apply Forall_forall. intros i Hi%elem_of_seq. unfold key.
    destruct (lookup_lt_is_Some_2 ids i ltac:(lia)) as [d' Hd']. rewrite Hd'.
    simpl. apply nub_elem_of. by eapply list_elem_of_lookup_2.
Qed.

(** X19: in the result of [build_segment_to_doc_map] the documents are keyed
    by domain and document joined by two underscores, in the order of their
    first segment; each document holds the positions of its lines, and each
    position maps back to the document of its line. *)
Theorem build_segment_to_doc_map_groups
    (docs_lines : list string) (doc_map : list (string * list nat))
    (seg_to_doc : gmap nat string) :
  SegmentToDocument.build_segment_to_doc_map docs_lines = Ok (doc_map, seg_to_doc) →
  ∃ ids,
    mapM SegmentToDocument.full_doc_id docs_lines = Ok ids
    ∧ Dict.keys doc_map = nub ids
    ∧ (∀ i, seg_to_doc !! i = ids !! i)
    ∧ (∀ d, d ∈ ids → Dict.get d doc_map = Some (segments_of d ids)).
Proof.
  intros (ids & Hids & -> & Hsm)%build_inv. exists ids.
  split; [done|]. split; [apply dict_keys_map_keyed|]. split; [done|].
  intros d Hd. rewrite dict_get_map_keyed, decide_True; [done|].
  by apply nub_elem_of.
Qed.

Lemma build_segment_to_doc_map_groups_witness :
  ∃ ids,
    mapM SegmentToDocument.full_doc_id sample_docs = Ok ids
    ∧ Dict.keys sample_doc_map = nub ids
    ∧ (∀ i, sample_seg_to_doc !! i = ids !! i)
    ∧ (∀ d, d ∈ ids → Dict.get d sample_doc_map = Some (segments_of d ids)).
Proof.
  apply (build_segment_to_doc_map_groups sample_docs sample_doc_map sample_seg_to_doc).
  vm_compute. reflexivity.
Defined.

(** X20: the document map partitions the segments: its keys are distinct,
    the segment index is defined on the positions of the lines and on no
    other, a segment belongs to a document of the map exactly when the index
    maps it to that document, every document has at least one segment, in
    ascending order, and all together they are the positions of the lines,
    each once. *)
Theorem build_segment_to_doc_map_partition
    (docs_lines : list string) (doc_map : list (string * list nat))
    (seg_to_doc : gmap nat string) :
  SegmentToDocument.build_segment_to_doc_map docs_lines = Ok (doc_map, seg_to_doc) →
  NoDup (Dict.keys doc_map)
  ∧ (∀ i, is_Some (seg_to_doc !! i) ↔ (i < length docs_lines)%nat)
  ∧ (∀ i d, seg_to_doc !! i = Some d
            ↔ ∃ idxs, Dict.get d doc_map = Some idxs ∧ i ∈ idxs)
  ∧ Forall (λ idxs, idxs ≠ [] ∧ StronglySorted lt idxs) (Dict.values doc_map)
  ∧ concat (Dict.values doc_map) ≡ₚ seq 0 (length docs_lines).
Proof.
  intros (ids & Hids & -> & Hsm)%build_inv.
  assert (Hlen : length ids = length docs_lines).
  { apply mapM_result_Ok in Hids. symmetry. by eapply Forall2_length. }
  split; [rewrite dict_keys_map_keyed; apply nub_NoDup|].
  split; [intros i; rewrite Hsm, <-Hlen; apply lookup_lt_is_Some|].
  split; [|split].
  - intros i d. rewrite Hsm, dict_get_map_keyed. split.
    + intros Hi. exists (segments_of d ids). split; [|by apply segments_of_elem_of].
      rewrite decide_True; [done|]. apply nub_elem_of.
      by eapply list_elem_of_lookup_2.
    + intros (idxs & Hget & Hi). destruct (decide (d ∈ nub ids)); [|done].
      injection Hget as <-. by apply segments_of_elem_of.
  - unfold Dict.values. rewrite <-list_fmap_compose.
    apply Forall_fmap, Forall_forall. intros d Hd.
    apply (proj1 (nub_elem_of ids d)) in Hd.
    change (segments_of d ids ≠ [] ∧ StronglySorted lt (segments_of d ids)).
    split; [by apply segments_of_nonempty | apply segments_of_sorted].
  - unfold Dict.values. rewrite <-list_fmap_compose, <-Hlen.
    apply segments_of_partition.
Qed.

Lemma build_segment_to_doc_map_partition_witness :
  NoDup (Dict.keys sample_doc_map)
  ∧ concat (Dict.values sample_doc_map) ≡ₚ seq 0 (length sample_docs).
Proof.
  destruct (build_segment_to_doc_map_partition
              sample_docs sample_doc_map sample_seg_to_doc)
    as (Hnd & _ & _ & _ & Hperm).
  - vm_compute. reflexivity.
  - by split.
Defined.



(** ** Merging the lines of each document *)


Lemma getitem_position (lines : list string) (i : Z) :
  (0 ≤ i < Z.of_nat (length lines))%Z →
  ∃ l, lines !! Z.to_nat i = Some l ∧ py_getitem lines i = Done l.
Proof.
  intros Hi. destruct (lookup_lt_is_Some_2 lines (Z.to_nat i)) as [l Hl]; [lia|].
  exists l. split; [done|]. destruct (py_getitem_nat _ _ _ Hl) as [Hget _].
  rewrite <-Hget. f_equal. lia.
Qed.



Lemma mapM_getitem (lines : list string) (idxs : list Z) :
  Forall (λ i, 0 ≤ i < Z.of_nat (length lines))%Z idxs →
  mapM (py_getitem lines) idxs = Done (lines_at lines (Z.to_nat <$> idxs)).
Proof.
  unfold lines_at. induction 1 as [|i idxs Hi _ IH]; [done|].
  destruct (getitem_position lines i Hi) as (l & Hl & Hget).
  cbn [mapM fmap list_fmap omap list_omap]. rewrite Hget, IH, Hl. done.
Qed.




Lemma merge_fold (lines : list string) (doc_map : list (string * list Z)) :
  in_range lines doc_map →
  ∀ acc,
    foldlO (λ merged di,
              ls ← mapM (py_getitem lines) (snd di);
              Done (Dict.set (fst di)
                             (py_join (String SegmentToDocument.newline "") ls)
                             merged))
           doc_map acc
    = Done (fold_left (λ d kv, Dict.set (fst kv) (snd kv) d)
                      (map (merged_text lines) doc_map) acc).
Proof.
  induction 1 as [|di doc_map Hdi _ IH]; intros acc; [done|].
  cbn [foldlO map fold_left]. rewrite (mapM_getitem _ _ Hdi).
  exact (IH _).
Qed.






Lemma merge_spec (lines : list string) (doc_map : list (string * list Z)) :
  NoDup (Dict.keys doc_map) → in_range lines doc_map →
  SegmentToDocument.merge_text_lines_by_map lines doc_map
  = Done (map (merged_text lines) doc_map).
Proof.
  intros Hnd Hin. unfold SegmentToDocument.merge_text_lines_by_map.
  rewrite (merge_fold _ _ Hin).
  f_equal. apply (dict_of_list_NoDup (map (merged_text lines) doc_map)).
  unfold Dict.keys in *. by rewrite <-list_fmap_compose.
Qed.

Lemma lines_at_length (lines : list string) (idxs : list nat) :
  Forall (λ i, i < length lines)%nat idxs → length (lines_at lines idxs) = length idxs.
Proof.
  unfold lines_at. induction 1 as [|i idxs Hi _ IH]; [done|].
  destruct (lookup_lt_is_Some_2 lines i Hi) as [l Hl].
  cbn [omap list_omap]. rewrite Hl. simpl. by rewrite IH.
Qed.

Lemma lines_at_elem_of (lines : list string) (idxs : list nat) (l : string) :
  l ∈ lines_at lines idxs ↔ ∃ i, i ∈ idxs ∧ lines !! i = Some l.
Proof. unfold lines_at. apply list_elem_of_omap. Qed.

Lemma lines_at_no_sep (c : ascii) (lines : list string) (idxs : list nat) :
  Forall (λ l, str_mem c l = false) lines →
  Forall (λ l, str_mem c l = false) (lines_at lines idxs).
Proof.
  intros Hl. apply Forall_forall. intros l (i & _ & Hi)%lines_at_elem_of.
  rewrite Forall_forall in Hl. apply Hl. by eapply list_elem_of_lookup_2.
Qed.

Lemma lines_at_lookup (lines : list string) (idxs : list nat) :
  Forall (λ i, i < length lines)%nat idxs →
  Some <$> lines_at lines idxs = (λ i, lines !! i) <$> idxs.
Proof.
  induction 1 as [|i idxs Hi _ IH]; [done|].
  destruct (lookup_lt_is_Some_2 lines i Hi) as [l Hl].
  rewrite fmap_cons, <-IH, Hl. unfold lines_at. cbn [omap list_omap].
  by rewrite Hl.
Qed.

Lemma to_nat_of_nat (l : list nat) : Z.to_nat <$> (Z.of_nat <$> l) = l.
Proof.
  rewrite <-list_fmap_compose. rewrite <-(list_fmap_id l) at 2.
  apply list_fmap_ext. intros _ i _. simpl. lia.
Qed.

(** X22: with distinct documents and every index a position of the lines,
    [merge_text_lines_by_map] returns the documents of the map in their
    order; the text of a document with at least one segment, none of whose
    lines holds a newline, splits at newlines into exactly the lines at its
    indices, in order. *)
Theorem merge_text_lines_by_map_split
    (lines : list string) (doc_map : list (string * list Z)) :
  NoDup (Dict.keys doc_map) →
  in_range lines doc_map →
  ∃ merged,
    SegmentToDocument.merge_text_lines_by_map lines doc_map = Done merged
    ∧ Dict.keys merged = Dict.keys doc_map
    ∧ ∀ d idxs,
        Dict.get d doc_map = Some idxs →
        ∃ text,
          Dict.get d merged = Some text
          ∧ (idxs ≠ [] →
             Forall (λ i, ∀ l, lines !! Z.to_nat i = Some l →
                               str_mem SegmentToDocument.newline l = false) idxs →
             Some <$> py_split SegmentToDocument.newline text
             = (λ i, lines !! Z.to_nat i) <$> idxs).
Proof.
  intros Hnd Hin. exists (map (merged_text lines) doc_map).
  split; [by apply merge_spec|].
  assert (Hkeys : Dict.keys (map (merged_text lines) doc_map) = Dict.keys doc_map).
  { unfold Dict.keys. by rewrite <-list_fmap_compose. }
  split; [done|]. intros d idxs Hget.
  apply dict_get_Some in Hget.
  exists (py_join (String SegmentToDocument.newline "")
                  (lines_at lines (Z.to_nat <$> idxs))). split.
  - apply dict_get_NoDup; [by rewrite Hkeys|].
    apply list_elem_of_fmap. by exists (d, idxs).
  - intros Hne Hnl.
    assert (Hidxs : Forall (λ i, i < length lines)%nat (Z.to_nat <$> idxs)).
    { unfold in_range in Hin. rewrite Forall_forall in Hin.
      apply Forall_fmap. eapply Forall_impl; [exact (Hin _ Hget)|].
      intros i Hi. simpl in *. lia. }
    rewrite split_join.
    + rewrite (lines_at_lookup _ _ Hidxs). by rewrite <-list_fmap_compose.
    + apply Forall_forall. intros l (i & Hi & Hl)%lines_at_elem_of.
      apply list_elem_of_fmap in Hi as (z & -> & Hz).
      rewrite Forall_forall in Hnl. by apply (Hnl z Hz).
    + intros Hnil. apply (f_equal length) in Hnil.
      rewrite lines_at_length, length_fmap in Hnil by done. by destruct idxs.
Qed.

Lemma merge_text_lines_by_map_split_witness :
  ∃ merged,
    SegmentToDocument.merge_text_lines_by_map sample_lines (int_indices sample_doc_map)
    = Done merged
    ∧ Dict.keys merged = Dict.keys (int_indices sample_doc_map).
Proof.
  destruct (merge_text_lines_by_map_split sample_lines (int_indices sample_doc_map))
    as (merged & Hm & Hk & _).
  - apply (bool_decide_unpack _). vm_compute. exact I.
  - repeat constructor; simpl; lia.
  - by exists merged.
Defined.

Lemma lines_at_ext (l1 l2 : list string) (idxs : list nat) :
  Forall (λ i, l1 !! i = l2 !! i) idxs → lines_at l1 idxs = lines_at l2 idxs.
Proof.
  unfold lines_at. induction 1 as [|i idxs Hi _ IH]; [done|].
  cbn [omap list_omap]. by rewrite Hi, IH.
Qed.

Lemma lines_at_seq (lines : list string) :
  lines_at lines (seq 0 (length lines)) = lines.
Proof.
  induction lines as [|l lines IH] using rev_ind; [done|].
  rewrite length_app, Nat.add_1_r, seq_S. unfold lines_at in *.
  rewrite omap_app. simpl. rewrite lookup_app_r, Nat.sub_diag by lia. simpl.
  f_equal. rewrite <-IH at 2. apply lines_at_ext, Forall_forall.
  intros i Hi%elem_of_seq. apply lookup_app_l. lia.
Qed.

Lemma lines_at_concat (lines : list string) (ls : list (list nat)) :
  concat (map (lines_at lines) ls) = lines_at lines (concat ls).
Proof.
  unfold lines_at. induction ls as [|l ls IH]; [done|].
  simpl. by rewrite omap_app, IH.
Qed.

Lemma merged_text_int (lines : list string) (doc_map : list (string * list nat)) :
  map (merged_text lines) (int_indices doc_map)
  = map (λ di, (fst di, py_join (String SegmentToDocument.newline "")
                                (lines_at lines (snd di)))) doc_map.
Proof.
  unfold int_indices. rewrite <-list_fmap_compose. apply map_ext. intros [d idxs].
  unfold merged_text. simpl. by rewrite to_nat_of_nat.
Qed.

(** X23: merging by the map built from a documents file of the same length
    keeps every line once: the merge succeeds, the documents are those of the
    map, the texts split at newlines are together a permutation of the lines,
    and each line is found in the text of the document of its segment. *)
Theorem merge_of_built_keeps_lines
    (docs_lines lines : list string) (doc_map : list (string * list nat))
    (seg_to_doc : gmap nat string) :
  SegmentToDocument.build_segment_to_doc_map docs_lines = Ok (doc_map, seg_to_doc) →
  length lines = length docs_lines →
  Forall (λ l, str_mem SegmentToDocument.newline l = false) lines →
  ∃ merged,
    SegmentToDocument.merge_text_lines_by_map lines (int_indices doc_map) = Done merged
    ∧ Dict.keys merged = Dict.keys doc_map
    ∧ concat (map (py_split SegmentToDocument.newline) (Dict.values merged)) ≡ₚ lines
    ∧ ∀ i d l, seg_to_doc !! i = Some d → lines !! i = Some l →
               ∃ text, Dict.get d merged = Some text
                       ∧ l ∈ py_split SegmentToDocument.newline text.
Proof.
  intros (ids & Hids & -> & Hsm)%build_inv Hlen Hnl.
  assert (Hlen' : length ids = length lines).
  { apply mapM_result_Ok in Hids. rewrite Hlen. symmetry. by eapply Forall2_length. }
  set (doc_map := map (λ d, (d, segments_of d ids)) (nub ids)).
  assert (Hkeys : Dict.keys (int_indices doc_map) = Dict.keys doc_map).
  { unfold int_indices, Dict.keys. by rewrite <-list_fmap_compose. }
  assert (Hnd : NoDup (Dict.keys doc_map)).
  { unfold doc_map. rewrite dict_keys_map_keyed. apply nub_NoDup. }
  assert (Hin : in_range lines (int_indices doc_map)).
  { unfold in_range, int_indices, doc_map. rewrite <-list_fmap_compose.
    apply Forall_fmap, Forall_forall. intros d _. simpl.
    apply Forall_fmap, Forall_forall. intros i Hi%segments_of_elem_of. simpl.
    apply lookup_lt_Some in Hi. lia. }
  assert (Hsplit : ∀ d, d ∈ ids →
            py_split SegmentToDocument.newline
              (py_join (String SegmentToDocument.newline "")
                       (lines_at lines (segments_of d ids)))
            = lines_at lines (segments_of d ids)).
  { intros d Hd. apply split_join; [by apply lines_at_no_sep|].
    intros Hnil. apply (f_equal length) in Hnil. rewrite lines_at_length in Hnil.
    - apply (segments_of_nonempty d ids Hd). by destruct (segments_of d ids).
    - apply Forall_forall. intros i Hi%segments_of_elem_of.
      apply lookup_lt_Some in Hi. lia. }
  exists (map (merged_text lines) (int_indices doc_map)).
  split; [apply merge_spec; [by rewrite Hkeys|done]|].
  rewrite merged_text_int.
  split; [unfold Dict.keys; by rewrite <-list_fmap_compose|]. split.
  - unfold Dict.values, doc_map. rewrite <-!list_fmap_compose.
    trans (concat (map (λ d, lines_at lines (segments_of d ids)) (nub ids))).
    { apply reflexive_eq. f_equal. apply map_ext_in.
      intros d Hd%list_elem_of_In. apply (proj1 (nub_elem_of ids d)) in Hd.
      by apply Hsplit. }
    rewrite (list_fmap_compose (λ d, segments_of d ids) (lines_at lines)).
    rewrite lines_at_concat. unfold lines_at.
    rewrite segments_of_partition, Hlen'. apply reflexive_eq, lines_at_seq.
  - intros i d l Hi Hl. rewrite Hsm in Hi.
    assert (Hd : d ∈ ids) by (by eapply list_elem_of_lookup_2).
    exists (py_join (String SegmentToDocument.newline "")
                    (lines_at lines (segments_of d ids))).
    split.
    + apply dict_get_NoDup; [unfold Dict.keys in *; by rewrite <-list_fmap_compose|].
      apply list_elem_of_fmap. exists (d, segments_of d ids). split; [done|].
      apply list_elem_of_fmap. exists d. split; [done|]. by apply nub_elem_of.
    + rewrite (Hsplit d Hd). apply lines_at_elem_of. exists i.
      split; [by apply segments_of_elem_of|done].
Qed.

Lemma merge_of_built_keeps_lines_witness :
  ∃ merged,
    SegmentToDocument.merge_text_lines_by_map sample_lines (int_indices sample_doc_map)
    = Done merged
    ∧ concat (map (py_split SegmentToDocument.newline) (Dict.values merged))
      ≡ₚ sample_lines.
Proof.
  destruct (merge_of_built_keeps_lines
              sample_docs sample_lines sample_doc_map sample_seg_to_doc)
    as (merged & Hm & _ & Hperm & _).
  - vm_compute. reflexivity.
  - reflexivity.
  - repeat constructor.
  - by exists merged.
Defined.

(** ** Merging the scores of each document *)

Lemma dict_get_set {V} (k k' : string) (v : V) (d : list (string * V)) :
  Dict.get k (Dict.set k' v d) = if decide (k = k') then Some v else Dict.get k d.
Proof.
  induction d as [|[k0 v0] d IH]; simpl.
  - by destruct (decide (k = k')).
  - destruct (decide (k' = k0)) as [->|Hne]; simpl.
    + destruct (decide (k = k0)); done.
    + rewrite IH. destruct (decide (k = k0)) as [->|]; [|done].
      by rewrite decide_False by done.
Qed.

Lemma dict_set_NoDup {V} (k : string) (v : V) (d : list (string * V)) :
  NoDup (Dict.keys d) → NoDup (Dict.keys (Dict.set k v d)).
Proof.
  intros Hnd. rewrite dict_set_keys.
  destruct (decide (k ∈ Dict.keys d)) as [|Hout]; [done|].
  apply NoDup_app. split; [done|]. split; [|apply NoDup_singleton].
  intros x Hx Hk. apply list_elem_of_singleton in Hk as ->. exact (Hout Hx).
Qed.

Lemma dict_set_Forall {V} (P : string * V → Prop) (k : string) (v : V)
    (d : list (string * V)) :
  Forall P d → P (k, v) → Forall P (Dict.set k v d).
Proof.
  intros Hd Hkv. induction Hd as [|[k0 v0] d H0 Hd IH]; simpl.
  - by constructor.
  - destruct (decide (k = k0)); constructor; done.
Qed.

Lemma get2_default {V} (k1 k2 : string) (d : list (string * list (string * list V))) :
  default [] (Dict.get k2 (default [] (Dict.get k1 d))) = default [] (get2 k1 k2 d).
Proof. unfold get2. by destruct (Dict.get k1 d). Qed.

Lemma get2_set2 {V} (k1 k2 a b : string) (v : V)
    (d : list (string * list (string * V))) :
  get2 k1 k2 (set2 a b v d)
  = if decide (k1 = a ∧ k2 = b) then Some v else get2 k1 k2 d.
Proof.
  unfold get2, set2. rewrite dict_get_set.
  destruct (decide (k1 = a)) as [->|Hne]; simpl.
  - rewrite dict_get_set. destruct (decide (k2 = b)) as [->|Hne].
    + by rewrite decide_True.
    + rewrite decide_False by naive_solver. by destruct (Dict.get a d).
  - by rewrite decide_False by naive_solver.
Qed.

Lemma set2_wf {V} (a b : string) (v : V) (d : list (string * list (string * V))) :
  nested_wf d → nested_wf (set2 a b v d).
Proof.
  intros [Hnd Hin]. split; [by apply dict_set_NoDup|].
  apply dict_set_Forall; [done|]. simpl. apply dict_set_NoDup.
  destruct (Dict.get a d) as [inner|] eqn:E; simpl; [|constructor].
  apply dict_get_Some in E. rewrite Forall_forall in Hin. exact (Hin _ E).
Qed.

Lemma nest_wf (recs : list (string * string * score)) :
  nested_wf (fold_left nest_step recs []).
Proof.
  induction recs as [|r recs IH] using rev_ind.
  - split; constructor.
  - rewrite fold_left_app. simpl. by apply set2_wf.
Qed.

Lemma scores_of_snoc (sys doc : string) (recs : list (string * string * score))
    (r : string * string * score) :
  scores_of sys doc (recs ++ [r])
  = scores_of sys doc recs
    ++ (if decide (sys = fst (fst r) ∧ doc = snd (fst r)) then [snd r] else []).
Proof.
  unfold scores_of. rewrite filter_app, map_app. f_equal.
  rewrite filter_cons, filter_nil.
  destruct (decide (fst (fst r) = sys ∧ snd (fst r) = doc)) as [[<- <-]|Hne].
  - by rewrite decide_True.
  - rewrite decide_False by naive_solver. done.
Qed.

Lemma nest_spec (sys doc : string) (recs : list (string * string * score)) :
  get2 sys doc (fold_left nest_step recs [])
  = if decide (scores_of sys doc recs = []) then None
    else Some (scores_of sys doc recs).
Proof.
  induction recs as [|r recs IH] using rev_ind; [done|].
  rewrite fold_left_app, scores_of_snoc. simpl. unfold nest_step at 1.
  rewrite get2_set2.
  destruct (decide (sys = fst (fst r) ∧ doc = snd (fst r))) as [[-> ->]|Hne].
  - rewrite IH. rewrite (decide_False (P := _ ++ [_] = [])).
    + f_equal. f_equal. by destruct (decide (scores_of _ _ recs = [])) as [->|].
    + intros H. by apply app_nil in H as [_ ?].
  - by rewrite app_nil_r.
Qed.

Lemma py_sum_none (l : list score) :
  SNone ∈ l → ∀ acc, py_sum acc l = Err TypeError.
Proof.
  induction l as [|[|f] l IH]; intros Hin acc; simpl.
  - by apply elem_of_nil in Hin.
  - done.
  - apply IH. by apply elem_of_cons in Hin as [|].
Qed.

Lemma py_sum_numbers (fs : list pyfloat) :
  ∀ acc, py_sum acc (SNum <$> fs) = Ok (fold_left float_add fs acc).
Proof. induction fs as [|f fs IH]; intros acc; simpl; [done|]. apply IH. Qed.

Section ScoresFacts.
Variable parse_float : string → result pyfloat.
Variable st : SegmentToDocument.attrs.

Lemma parsed_from_exists (lines : list string) :
  SegmentToDocument.total_segments st ≠ 0%nat →
  (∀ i, (i < SegmentToDocument.total_segments st)%nat → is_Some (SegmentToDocument.seg_to_doc st !! i)) →
  Forall (λ line, is_Ok (SegmentToDocument.parse_score_line parse_float line)) lines →
  ∀ k, ∃ recs, parsed_from parse_float st k lines recs.
Proof.
  intros Hn Hdocs. induction 1 as [|line lines [[sys sc] Hl] _ IH]; intros k.
  - exists []. constructor.
  - destruct (IH (S k)) as [recs Hrecs].
    destruct (Hdocs (k mod SegmentToDocument.total_segments st)%nat) as [doc Hdoc].
    { by apply Nat.mod_upper_bound. }
    exists ((sys, doc, sc) :: recs). constructor; [done|exact Hrecs].
Qed.

Lemma scores_step_Ok (acc : list (string * list (string * list score))) (k : nat)
    (line : string) (r : string * string * score) :
  SegmentToDocument.total_segments st ≠ 0%nat →
  SegmentToDocument.parse_score_line parse_float line = Ok (fst (fst r), snd r) →
  SegmentToDocument.seg_to_doc st !! (k mod SegmentToDocument.total_segments st)%nat = Some (snd (fst r)) →
  (scores_step parse_float st) (acc, k) line = Ok (nest_step acc r, S k).
Proof.
  intros Hn Hparse Hdoc. unfold scores_step.
  rewrite Hparse, bind_Ok, decide_False by done. rewrite bind_Ok.
  cbn [fst snd]. rewrite Hdoc, bind_Ok.
  by rewrite get2_default.
Qed.

Lemma scores_first_loop (lines : list string) :
  SegmentToDocument.total_segments st ≠ 0%nat →
  ∀ (recs : list (string * string * score)) (k : nat)
    (acc : list (string * list (string * list score))),
    parsed_from parse_float st k lines recs →
    foldlM (scores_step parse_float st) lines (acc, k)
    = Ok (fold_left nest_step recs acc, (k + length lines)%nat).
Proof.
  intros Hn. induction lines as [|line lines IH]; intros recs k acc Hrecs.
  - inversion Hrecs; subst. simpl. by rewrite Nat.add_0_r.
  - unfold parsed_from in Hrecs. cbn [length seq zip zip_with] in Hrecs.
    inversion Hrecs as [|? r ? recs' [Hparse Hdoc] Hrecs']; subst.
    cbn [foldlM fold_left fst snd length] in *.
    rewrite (scores_step_Ok acc k line r Hn Hparse Hdoc), bind_Ok.
    replace (k + S (length lines))%nat with (S k + length lines)%nat by lia.
    exact (IH recs' (S k) (nest_step acc r) Hrecs').
Qed.

Lemma total_inner_get (sys doc s : string) (inner : list (string * list score)) :
  NoDup (Dict.keys inner) →
  ∀ sc,
    get2 sys doc (fst (total_inner s sc inner))
    = if decide (sys = s)
      then match Dict.get doc inner with
           | Some l => Some (doc_total l)
           | None => get2 sys doc (fst sc)
           end
      else get2 sys doc (fst sc).
Proof.
  unfold total_inner.
  induction inner as [|[d l] inner IH]; intros Hnd sc.
  - simpl. by destruct (decide (sys = s)).
  - apply NoDup_cons in Hnd as [Hd Hnd]. cbn [fold_left]. rewrite (IH Hnd).
    assert (Hstep : fst (match py_sum (FNum 0) l with
                         | Ok f => (set2 s d (SNum f) (fst sc), snd sc)
                         | Err _ => (set2 s d SNone (fst sc),
                                     if has_number l then S (snd sc) else snd sc)
                         end) = set2 s d (doc_total l) (fst sc)).
    { unfold doc_total. by destruct (py_sum (FNum 0) l). }
    cbn [fst snd]. rewrite Hstep, get2_set2.
    destruct (decide (sys = s)) as [->|Hne].
    + simpl. destruct (decide (doc = d)) as [->|Hdd].
      * rewrite (proj2 (dict_get_None d inner) Hd).
        by rewrite decide_True.
      * rewrite decide_False by naive_solver. done.
    + by rewrite decide_False by naive_solver.
Qed.

Lemma total_outer_get (sys doc : string)
    (nested : list (string * list (string * list score))) :
  nested_wf nested →
  ∀ sc,
    get2 sys doc (fst (fold_left (λ sc si, total_inner (fst si) sc (snd si)) nested sc))
    = match get2 sys doc nested with
      | Some l => Some (doc_total l)
      | None => get2 sys doc (fst sc)
      end.
Proof.
  induction nested as [|[s inner] nested IH]; intros [Hnd Hin] sc; [done|].
  apply NoDup_cons in Hnd as [Hs Hnd]. apply Forall_cons in Hin as [Hi Hin].
  cbn [fold_left fst snd]. rewrite (IH (conj Hnd Hin)).
  rewrite (total_inner_get sys doc s inner Hi).
  assert (Hcons : get2 sys doc ((s, inner) :: nested)
                  = if decide (sys = s) then Dict.get doc inner
                    else get2 sys doc nested).
  { unfold get2. simpl. by destruct (decide (sys = s)). }
  rewrite Hcons. destruct (decide (sys = s)) as [->|Hne]; [|done].
  assert (Hnone : get2 s doc nested = None).
  { unfold get2. by rewrite (proj2 (dict_get_None s nested) Hs). }
  by rewrite Hnone.
Qed.

(** X26: when every score line parses, the number of segments is not zero
    and every segment has a document, [merge_scores_by_map] succeeds and
    leaves the counter advanced by the number of lines; line j goes to the
    document of the segment (counter + j) modulo the number of segments, and
    for every system and document the merged scores hold no entry when no
    line fell there, the string None as soon as one of the scores is None,
    and otherwise the sum of the scores in the order of the lines. *)
Theorem merge_scores_by_map_totals
    (score_lines : list string) (doc_map : list (string * list nat)) :
  SegmentToDocument.total_segments st ≠ 0%nat →
  (∀ i, (i < SegmentToDocument.total_segments st)%nat → is_Some (SegmentToDocument.seg_to_doc st !! i)) →
  Forall (λ line, is_Ok (SegmentToDocument.parse_score_line parse_float line)) score_lines →
  ∃ recs out count,
    SegmentToDocument.merge_scores_by_map parse_float st score_lines doc_map
    = Ok (out, count,
          SegmentToDocument.Attrs (SegmentToDocument.seg_counter st + length score_lines) (SegmentToDocument.total_segments st)
                (SegmentToDocument.seg_to_doc st))
    ∧ parsed_from parse_float st (SegmentToDocument.seg_counter st) score_lines recs
    ∧ ∀ sys doc,
        (scores_of sys doc recs = [] → get2 sys doc out = None)
        ∧ (SNone ∈ scores_of sys doc recs → get2 sys doc out = Some SNone)
        ∧ (∀ fs, fs ≠ [] → scores_of sys doc recs = SNum <$> fs →
                 get2 sys doc out = Some (SNum (fold_left float_add fs (FNum 0)))).
Proof.
  intros Hn Hdocs Hlines.
  destruct (parsed_from_exists _ Hn Hdocs Hlines (SegmentToDocument.seg_counter st)) as [recs Hrecs].
  set (nested := fold_left nest_step recs []).
  set (res := fold_left (λ sc si, total_inner (fst si) sc (snd si)) nested ([], 0%nat)).
  exists recs, (fst res), (snd res). split; [|split; [done|]].
  - unfold SegmentToDocument.merge_scores_by_map. change (foldlM _ score_lines ([], SegmentToDocument.seg_counter st))
      with (foldlM (scores_step parse_float st) score_lines
                   ([], SegmentToDocument.seg_counter st)).
    rewrite (scores_first_loop _ Hn recs _ [] Hrecs), bind_Ok. cbn [fst snd].
    fold nested. change (fold_left _ nested ([], 0%nat)) with res.
    by destruct res.
  - intros sys doc.
    assert (Hget : get2 sys doc (fst res)
                   = if decide (scores_of sys doc recs = []) then None
                     else Some (doc_total (scores_of sys doc recs))).
    { unfold res. rewrite (total_outer_get sys doc nested (nest_wf recs)).
      unfold nested. rewrite nest_spec.
      by destruct (decide (scores_of sys doc recs = [])). }
    rewrite Hget. split; [|split].
    + intros ->. done.
    + intros Hin. rewrite decide_False.
      * unfold doc_total. by rewrite (py_sum_none _ Hin).
      * intros Hnil. rewrite Hnil in Hin. by apply elem_of_nil in Hin.
    + intros fs Hfs ->. rewrite decide_False by (by destruct fs).
      unfold doc_total. by rewrite py_sum_numbers.
Qed.
Lemma foldlM_Err {A B} (P : exn → Prop) (f : B → A → result B) (l : list A) :
  (∀ b x e, f b x = Err e → P e) →
  ∀ b e, foldlM f l b = Err e → P e.
Proof.
  intros Hf. induction l as [|x l IH]; intros b e; simpl; [discriminate|].
  destruct (f b x) as [b'|e'] eqn:E; simpl.
  - apply IH.
  - intros [= <-]. by eapply Hf.
Qed.

Lemma scores_step_Err
    (mc : list (string * list (string * list score)) * nat) (line : string)
    (e : exn) :
  (∀ s e, parse_float s = Err e → e = ValueError) →
  scores_step parse_float st mc line = Err e →
  e = ValueError ∨ e = ZeroDivisionError ∨ e = KeyError.
Proof.
  intros Hpf. unfold scores_step, SegmentToDocument.parse_score_line.
  destruct (py_split SegmentToDocument.tab (py_strip line)) as [|a [|b [|c l]]];
    try (intros [= <-]; by left).
  destruct (decide (b = "None")).
  - rewrite !bind_Ok.
    destruct (decide (SegmentToDocument.total_segments st = 0%nat));
      [intros [= <-]; right; by left|].
    rewrite bind_Ok. cbn [fst snd].
    destruct (SegmentToDocument.seg_to_doc st !! _);
      [discriminate | intros [= <-]; right; by right].
  - destruct (parse_float b) as [f|e'] eqn:E.
    + simpl.
      destruct (decide (SegmentToDocument.total_segments st = 0%nat));
        [intros [= <-]; right; by left|].
      simpl.
      destruct (SegmentToDocument.seg_to_doc st !! _);
        [discriminate | intros [= <-]; right; by right].
    + simpl. intros [= <-]. left. by eapply Hpf.
Qed.

(** X27: if a malformed number makes [float] raise a value error and nothing
    else, [merge_scores_by_map] fails only with a value error, from a line
    that does not hold a system and a score, a division by zero, when the
    number of segments is zero, or a key error, from a segment without a
    document; with zero segments the first line that parses already raises
    the division by zero. *)
Theorem merge_scores_by_map_errors
    (score_lines : list string) (doc_map : list (string * list nat)) :
  (∀ s e, parse_float s = Err e → e = ValueError) →
  (∀ e, SegmentToDocument.merge_scores_by_map parse_float st score_lines doc_map
        = Err e →
        e = ValueError ∨ e = ZeroDivisionError ∨ e = KeyError)
  ∧ (SegmentToDocument.total_segments st = 0%nat →
     ∀ line rest,
       score_lines = line :: rest →
       is_Ok (SegmentToDocument.parse_score_line parse_float line) →
       SegmentToDocument.merge_scores_by_map parse_float st score_lines doc_map
       = Err ZeroDivisionError).
Proof.
  intros Hpf. split.
  - intros e. unfold SegmentToDocument.merge_scores_by_map.
    change (foldlM _ score_lines ([], SegmentToDocument.seg_counter st))
      with (foldlM (scores_step parse_float st) score_lines
                   ([], SegmentToDocument.seg_counter st)).
    destruct (foldlM (scores_step parse_float st) score_lines _) as [mc|e'] eqn:E.
    + rewrite bind_Ok. by destruct (fold_left _ _ _).
    + rewrite bind_Err. intros [= <-].
      apply (foldlM_Err _ _ _ (λ b x e, scores_step_Err b x e Hpf) _ _ E).
  - intros Hzero line rest -> [ss Hss].
    unfold SegmentToDocument.merge_scores_by_map. cbn [foldlM].
    rewrite Hss, bind_Ok, decide_True by done. done.
Qed.
End ScoresFacts.

Lemma merge_scores_by_map_totals_witness :
  ∃ recs out count,
    SegmentToDocument.merge_scores_by_map sample_parse_float sample_attrs
      sample_scores sample_doc_map
    = Ok (out, count,
          SegmentToDocument.Attrs
            (SegmentToDocument.seg_counter sample_attrs + length sample_scores)
            (SegmentToDocument.total_segments sample_attrs)
            (SegmentToDocument.seg_to_doc sample_attrs))
    ∧ parsed_from sample_parse_float sample_attrs
        (SegmentToDocument.seg_counter sample_attrs) sample_scores recs
    ∧ ∀ sys doc,
        (scores_of sys doc recs = [] → get2 sys doc out = None)
        ∧ (SNone ∈ scores_of sys doc recs → get2 sys doc out = Some SNone)
        ∧ (∀ fs, fs ≠ [] → scores_of sys doc recs = SNum <$> fs →
                 get2 sys doc out = Some (SNum (fold_left float_add fs (FNum 0)))).
Proof.
  apply (merge_scores_by_map_totals sample_parse_float sample_attrs
           sample_scores sample_doc_map).
  - simpl. lia.
  - intros [|[|[|i]]] Hi; [by eexists..|simpl in Hi; lia].
  - repeat constructor; eexists; vm_compute; reflexivity.
Defined.

Lemma merge_scores_by_map_errors_witness :
  ∃ e,
    SegmentToDocument.merge_scores_by_map sample_parse_float
      (SegmentToDocument.Attrs 0 0 ∅) sample_scores [] = Err e
    ∧ (e = ValueError ∨ e = ZeroDivisionError ∨ e = KeyError).
Proof.
  eexists. split; [vm_compute; reflexivity|].
  apply (proj1 (merge_scores_by_map_errors sample_parse_float
                  (SegmentToDocument.Attrs 0 0 ∅) sample_scores []
                  ltac:(intros s e; unfold sample_parse_float;
                        repeat case_decide; congruence))).
  vm_compute. reflexivity.
Defined.
